(** * Behavioral_Model_Testing_Checklist: the scorers of [evaluation.py]

    A shallow embedding of [src/evaluation.py] (the MFT, INV and DIR
    scorers, [evaluate_file] and [main]) together with the pieces of the
    Python runtime they rely on, followed by the properties of the
    scorers.  The functions of [src/prediction.py] that produce the
    files the scorers read ([determine_label], [read_sentences_from_file],
    [bert_predictions] and the file names of [run_model_predictions])
    are embedded after them, the tokenizer and the model being
    parameters.

    Conventions of the embedding.
    - A text file is the list of the lines that iterating over the file
      object yields.  Every line is passed through [str.strip] before it
      is looked at, so a line is written with or without its terminator.
    - Text is [string]; a character stands for the code point of the same
      number, so the model covers text with code points below 256.
    - Python integers are [Z].
    - An exception is a value of [exn]; a computation that may raise
      returns a [result]; one that also prints returns an [io]. *)

From Stdlib Require Import ZArith List String Ascii Bool Lia.
From Stdlib Require Import DecimalString SpecFloat Sorted.
Import ListNotations.

Open Scope string_scope.
Open Scope list_scope.
Open Scope Z_scope.

(* ================================================================== *)
(** ** The Python runtime used by the scorers *)

Module Py.

(** The exceptions that the modelled statements can raise. *)
Inductive exn : Type :=
| ValueError
| ZeroDivisionError
| IndexError
| KeyError
| UnboundLocalError
| OverflowError
| FileNotFoundError.

Inductive result (A : Type) : Type :=
| Ok (a : A)
| Raise (e : exn).

Arguments Ok {A} a.
Arguments Raise {A} e.

(** What [print] writes, one value per call; the text of a line is
    determined by its constructor and arguments. *)
Inductive printed : Type :=
| P_uneven                                  (* 'Warning: uneven number of sentences!' *)
| P_unknown_type (file_path : string)       (* 'Warning: could not determine ...' *)
| P_file (name : string)                    (* 'File: ...' *)
| P_type (evaluation_type : string)         (* 'Evaluation Type: ...' *)
| P_rate (failure_rate : Z)                 (* 'Failure Rate: ...%' *)
| P_failed_ids (ids : list string)          (* 'Failed Sentence IDs: [...]' *)
| P_failed_pairs (ids : list string)        (* 'Failed Sentence Pairs: ...' *)
| P_model (output_dir : string)             (* 'Evaluating model: ...' *)
| P_rule.                                   (* the dashed line *)

(** A computation that prints and may raise: what it printed until it
    returned or raised, and how it ended. *)
Definition io (A : Type) : Type := (list printed * result A)%type.

Class Monad (M : Type -> Type) : Type :=
  { ret : forall {A}, A -> M A;
    bind : forall {A B}, M A -> (A -> M B) -> M B }.

#[export] Instance result_monad : Monad result :=
  {| ret := fun A a => Ok a;
     bind := fun A B m f =>
       match m with
       | Ok a => f a
       | Raise e => Raise e
       end |}.

#[export] Instance io_monad : Monad io :=
  {| ret := fun A a => ([], Ok a);
     bind := fun A B m f =>
       match m with
       | (out, Ok a) => let '(out', r) := f a in ((out ++ out')%list, r)
       | (out, Raise e) => (out, Raise e)
       end |}.

Notation "x <- m ;; k" := (bind m (fun x => k))
  (at level 61, m at next level, right associativity).
Notation "m ;; k" := (bind m (fun _ => k))
  (at level 61, right associativity).

Definition print (p : printed) : io unit := ([p], Ok tt).

(** A step that cannot print, run inside a computation that can. *)
Definition lift {A} (r : result A) : io A := ([], r).

(** [for x in xs: st = body st x], left to right, stopping at the first
    exception. *)
Fixpoint for_each {M} `{Monad M} {A S} (body : S -> A -> M S)
  (xs : list A) (st : S) : M S :=
  match xs with
  | [] => ret st
  | x :: xs' => st' <- body st x ;; for_each body xs' st'
  end.

(** *** Strings *)

Definition tab : ascii := "009"%char.

(** [str.isspace] on one character, for code points below 256. *)
Definition isspace (c : ascii) : bool :=
  let n := N_of_ascii c in
  (((9 <=? n) && (n <=? 13)) || ((28 <=? n) && (n <=? 32))
   || (n =? 133) || (n =? 160))%N.

Fixpoint lstrip (s : string) : string :=
  match s with
  | EmptyString => EmptyString
  | String c r => if isspace c then lstrip r else s
  end.

Fixpoint rstrip (s : string) : string :=
  match s with
  | EmptyString => EmptyString
  | String c r =>
      match rstrip r with
      | EmptyString => if isspace c then EmptyString else String c EmptyString
      | r' => String c r'
      end
  end.

(** [s.strip()] *)
Definition strip (s : string) : string := rstrip (lstrip s).

(** [s.split(sep)] for a one-character separator. *)
Fixpoint split (sep : ascii) (s : string) : list string :=
  match s with
  | EmptyString => [EmptyString]
  | String c r =>
      if Ascii.eqb c sep then EmptyString :: split sep r
      else match split sep r with
           | [] => [String c EmptyString]
           | f :: fs => String c f :: fs
           end
  end.

(** [sub in s] *)
Fixpoint contains (sub s : string) : bool :=
  if String.prefix sub s then true
  else match s with
       | EmptyString => false
       | String _ r => contains sub r
       end.

(** [s.endswith(suffix)] *)
Definition endswith (s suffix : string) : bool :=
  let n := String.length s in
  let k := String.length suffix in
  (k <=? n)%nat && String.eqb (String.substring (n - k) k s) suffix.

Fixpoint last_component (s acc : string) : string :=
  match s with
  | EmptyString => acc
  | String c r =>
      if Ascii.eqb c "/"%char then last_component r EmptyString
      else last_component r (acc ++ String c EmptyString)%string
  end.

(** [os.path.basename(p)] on a POSIX path. *)
Definition basename (p : string) : string := last_component p EmptyString.

(** [os.path.join(a, b)] on POSIX paths. *)
Definition path_join (a b : string) : string :=
  if String.prefix "/" b then b
  else if String.eqb a "" || endswith a "/" then (a ++ b)%string
  else (a ++ "/" ++ b)%string.

(** *** Integers and their text *)

Definition digit_of (c : ascii) : option Z :=
  let n := N_of_ascii c in
  if ((48 <=? n) && (n <=? 57))%N then Some (Z.of_N n - 48) else None.

(** Digits with single underscores allowed between two digits. *)
Fixpoint int_digits (s : string) (acc : Z) (after_digit : bool) : option Z :=
  match s with
  | EmptyString => if after_digit then Some acc else None
  | String c r =>
      match digit_of c with
      | Some d => int_digits r (10 * acc + d) true
      | None =>
          if Ascii.eqb c "_"%char && after_digit then int_digits r acc false
          else None
      end
  end.

(** White space for [int]: the white space of C (9 to 13 and 32) and,
    in a text that is not ASCII, the other space characters, which
    below 256 are 133 and 160 and which [int] reads as spaces.  The
    separators 28 to 31 are white space for [str.strip] but not for
    [int]. *)
Definition int_space (c : ascii) : bool :=
  let n := N_of_ascii c in
  ((9 <=? n) && (n <=? 13) || (n =? 32) || (n =? 133) || (n =? 160))%N.

Fixpoint int_lstrip (s : string) : string :=
  match s with
  | EmptyString => EmptyString
  | String c r => if int_space c then int_lstrip r else s
  end.

Fixpoint int_rstrip (s : string) : string :=
  match s with
  | EmptyString => EmptyString
  | String c r =>
      match int_rstrip r with
      | EmptyString => if int_space c then EmptyString else String c EmptyString
      | r' => String c r'
      end
  end.

(** The number of digits of a text, underscores not counted. *)
Fixpoint count_digits (s : string) : N :=
  match s with
  | EmptyString => 0%N
  | String c r =>
      match digit_of c with
      | Some _ => N.succ (count_digits r)
      | None => count_digits r
      end
  end.

(** [sys.int_max_str_digits], at the value the interpreter starts
    with. *)
Definition max_str_digits : N := 4300%N.

(** [int(s)] for a string: white space around, an optional sign, decimal
    digits with single underscores between them, and no more digits
    than [max_str_digits]; [ValueError] otherwise. *)
Definition int_of_str (s : string) : result Z :=
  let t := int_rstrip (int_lstrip s) in
  let body :=
    match t with
    | String "-"%char r => option_map Z.opp (int_digits r 0 false)
    | String "+"%char r => int_digits r 0 false
    | _ => int_digits t 0 false
    end in
  match body with
  | Some z =>
      if (count_digits t <=? max_str_digits)%N then Ok z
      else Raise ValueError
  | None => Raise ValueError
  end.

(** [str(z)], as used by an f-string. *)
Definition str_of_int (z : Z) : string := NilZero.string_of_int (Z.to_int z).

(** *** Sorting: [sorted(xs)] *)

Section Sorted.
Context {A : Type} (leb : A -> A -> bool).

Fixpoint insert_sorted (x : A) (xs : list A) : list A :=
  match xs with
  | [] => [x]
  | y :: ys => if leb x y then x :: xs else y :: insert_sorted x ys
  end.

Definition sorted (xs : list A) : list A := fold_right insert_sorted [] xs.
End Sorted.

(** *** Dictionaries, in insertion order *)

Section Dict.
Context {K V : Type} (keq : K -> K -> bool).

Definition dict : Type := list (K * V).

(** [d[k]] as a lookup that may miss; [k in d] is [dict_mem]. *)
Fixpoint dict_get (d : dict) (k : K) : option V :=
  match d with
  | [] => None
  | (k', v) :: d' => if keq k k' then Some v else dict_get d' k
  end.

Definition dict_mem (d : dict) (k : K) : bool :=
  match dict_get d k with Some _ => true | None => false end.

(** [d[k] = v]: a present key keeps its place, a new key goes last. *)
Fixpoint dict_set (d : dict) (k : K) (v : V) : dict :=
  match d with
  | [] => [(k, v)]
  | (k', v') :: d' =>
      if keq k k' then (k', v) :: d' else (k', v') :: dict_set d' k v
  end.

(** [{k: v for k, v in kvs}] *)
Definition dict_of (kvs : list (K * V)) : dict :=
  fold_left (fun d kv => dict_set d (fst kv) (snd kv)) kvs [].

Definition dict_keys (d : dict) : list K := map fst d.
End Dict.

Arguments dict K V : clear implicits.

(** *** Floating point: [a / b] on integers, [x * 100], [int(x)] *)

Definition prec : Z := 53.
Definition emax : Z := 1024.

Definition float_of_int (z : Z) : spec_float :=
  binary_normalize prec emax z 0 false.

(** [a / b] for two integers: the quotient rounded once to the nearest
    double, [ZeroDivisionError] for a zero divisor, [OverflowError] when
    the quotient is too large for a double. *)
Definition true_div (a b : Z) : result spec_float :=
  if b =? 0 then Raise ZeroDivisionError
  else
    let neg := xorb (a <? 0) (b <? 0) in
    if a =? 0 then Ok (S754_zero neg)
    else
      let '(m, e, l) := SFdiv_core_binary prec emax (Z.abs a) 0 (Z.abs b) 0 in
      match binary_round_aux prec emax neg m e l with
      | S754_infinity _ => Raise OverflowError
      | q => Ok q
      end.

Definition float_mul (x y : spec_float) : spec_float := SFmul prec emax x y.

(** [int(x)] for a float: truncation toward zero. *)
Definition int_of_float (x : spec_float) : result Z :=
  match x with
  | S754_zero _ => Ok 0
  | S754_infinity _ => Raise OverflowError
  | S754_nan => Raise ValueError
  | S754_finite s m e =>
      let mag := match e with
                 | Zneg k => Z.shiftr (Zpos m) (Zpos k)
                 | _ => Z.shiftl (Zpos m) e
                 end in
      Ok (if s then - mag else mag)
  end.

(** *** The file system seen through [os] and [open] *)

Record filesystem : Type := FileSystem
  { fs_listdir : string -> option (list string);   (* [os.listdir] *)
    fs_isdir : string -> bool;                      (* [os.path.isdir] *)
    fs_open : string -> option (list string) }.     (* the lines of a file *)

Definition listdir (fs : filesystem) (path : string) : result (list string) :=
  match fs_listdir fs path with
  | Some names => Ok names
  | None => Raise FileNotFoundError
  end.

Definition open_lines (fs : filesystem) (path : string)
  : result (list string) :=
  match fs_open fs path with
  | Some lines => Ok lines
  | None => Raise FileNotFoundError
  end.

End Py.

(* ================================================================== *)
(** ** [evaluation.py] *)

Module Evaluation.
Import Py.

(** The five names bound by
    [sentence_id, token_id, token, gold_label, system_label =
       line.strip().split('\t')]. *)
Record row : Type := Row
  { sentence_id : string;
    token_id : string;
    token : string;
    gold_label : string;
    system_label : string }.

(** [line.strip() == ""] *)
Definition is_blank (line : string) : bool := String.eqb (strip line) "".

(** The unpacking raises [ValueError] unless the split has five parts. *)
Definition parse_row (line : string) : result row :=
  match split tab (strip line) with
  | [a; b; c; d; e] => Ok (Row a b c d e)
  | _ => Raise ValueError
  end.

(** [failure_rate = (failed / total) * 100; int(failure_rate)] *)
Definition failure_rate (failed total : Z) : result Z :=
  q <- true_div failed total ;;
  int_of_float (float_mul q (float_of_int 100)).

(** *** [evaluate_mft] *)

(** The local variables of [evaluate_mft]. *)
Record mft_state : Type := MftState
  { current_sentence_id : option string;
    sentence_labels_match : bool;
    total_sentences : Z;
    failed_sentences : Z;
    failed_sentence_ids : list string }.

Definition mft_init : mft_state := MftState None true 0 0 [].

(** [failed_sentences += 1; failed_sentence_ids.append(current)] when the
    sentence is flagged. *)
Definition mft_record_failure (st : mft_state) (cur : string) : mft_state :=
  if sentence_labels_match st then st
  else MftState (current_sentence_id st) (sentence_labels_match st)
         (total_sentences st) (failed_sentences st + 1)
         (failed_sentence_ids st ++ [cur]).

(** One turn of [for line in file]. *)
Definition mft_step (st : mft_state) (line : string) : result mft_state :=
  if is_blank line then
    match current_sentence_id st with
    | Some cur =>
        let st1 := MftState (current_sentence_id st) (sentence_labels_match st)
                     (total_sentences st + 1) (failed_sentences st)
                     (failed_sentence_ids st) in
        let st2 := mft_record_failure st1 cur in
        Ok (MftState (current_sentence_id st2) true (total_sentences st2)
              (failed_sentences st2) (failed_sentence_ids st2))
    | None => Ok st
    end
  else
    r <- parse_row line ;;
    let same := match current_sentence_id st with
                | Some cur => String.eqb (sentence_id r) cur
                | None => false
                end in
    if same then
      if negb (String.eqb (gold_label r) "_")
         && negb (String.eqb (gold_label r) (system_label r))
      then Ok (MftState (current_sentence_id st) false (total_sentences st)
                 (failed_sentences st) (failed_sentence_ids st))
      else Ok st
    else
      let st1 := match current_sentence_id st with
                 | Some cur => mft_record_failure st cur
                 | None => st
                 end in
      Ok (MftState (Some (sentence_id r))
            (String.eqb (gold_label r) "_"
             || String.eqb (gold_label r) (system_label r))
            (total_sentences st1) (failed_sentences st1)
            (failed_sentence_ids st1)).

Definition mft_scan (lines : list string) : result mft_state :=
  for_each mft_step lines mft_init.

Definition evaluate_mft (lines : list string) : result (Z * list string) :=
  st <- mft_scan lines ;;
  rate <- failure_rate (failed_sentences st) (total_sentences st) ;;
  ret (rate, failed_sentence_ids st).

(** *** What [evaluate_inv] and [evaluate_dir] share *)

(** [sentences_data]: integer sentence id to the retained data of its
    tokens, [T] being what a scorer keeps of one token. *)
Definition sentences (T : Type) : Type := dict Z (list T).

(** One turn of the reading loop; [keep] builds the tuple appended to the
    sentence's list. *)
Definition read_step {T} (keep : row -> T) (sentences_data : sentences T)
  (line : string) : result (sentences T) :=
  if is_blank line then Ok sentences_data
  else
    r <- parse_row line ;;
    sid <- int_of_str (sentence_id r) ;;
    if String.eqb (gold_label r) "_" then Ok sentences_data
    else
      let d := if dict_mem Z.eqb sentences_data sid then sentences_data
               else dict_set Z.eqb sentences_data sid [] in
      match dict_get Z.eqb d sid with
      | Some toks => Ok (dict_set Z.eqb d sid (toks ++ [keep r]))
      | None => Raise KeyError
      end.

Definition read_sentences {T} (keep : row -> T) (lines : list string)
  : result (sentences T) :=
  for_each (read_step keep) lines [].

(** [range(0, n, 2)] *)
Definition range2 (n : nat) : list nat :=
  map (fun k => 2 * k)%nat (seq 0 (Nat.div2 (n + 1))).

(** [xs[i]] for a non-negative index. *)
Definition index {A} (xs : list A) (i : nat) : result A :=
  match nth_error xs i with
  | Some x => Ok x
  | None => Raise IndexError
  end.

(** [d[k]] *)
Definition item {T} (d : sentences T) (k : Z) : result (list T) :=
  match dict_get Z.eqb d k with
  | Some v => Ok v
  | None => Raise KeyError
  end.

(** [total_pairs], [failed_pairs] and [failed_sentence_ids]. *)
Record pair_state : Type := PairState
  { total_pairs : Z;
    failed_pairs : Z;
    failed_pair_ids : list string }.

Definition pair_init : pair_state := PairState 0 0 [].

(** [f"{a}-{b}"] *)
Definition pair_name (a b : Z) : string :=
  (str_of_int a ++ "-" ++ str_of_int b)%string.

(** One turn of [for i in range(0, len(sentence_ids), 2)]; [verdict] is
    the body that sets [pair_failed]. *)
Definition pair_step {T} (verdict : list T -> list T -> bool)
  (sentences_data : sentences T) (sentence_ids : list Z)
  (st : pair_state) (i : nat) : result pair_state :=
  a <- index sentence_ids i ;;
  first_sentence_data <- item sentences_data a ;;
  b <- index sentence_ids (i + 1) ;;
  second_sentence_data <- item sentences_data b ;;
  let total := total_pairs st + 1 in
  if verdict first_sentence_data second_sentence_data
  then Ok (PairState total (failed_pairs st + 1)
             (failed_pair_ids st ++ [pair_name a b]))
  else Ok (PairState total (failed_pairs st) (failed_pair_ids st)).

(** Everything after the reading loop. *)
Definition score_pairs {T} (verdict : list T -> list T -> bool)
  (sentences_data : sentences T) : io (Z * list string) :=
  let sentence_ids := sorted Z.leb (dict_keys sentences_data) in
  (if negb (Nat.eqb (Nat.modulo (List.length sentence_ids) 2) 0)
   then print P_uneven else ret tt) ;;
  st <- lift (for_each (pair_step verdict sentences_data sentence_ids)
                (range2 (List.length sentence_ids)) pair_init) ;;
  rate <- lift (failure_rate (failed_pairs st) (total_pairs st)) ;;
  ret (rate, failed_pair_ids st).

(** *** [evaluate_inv] *)

Definition inv_token : Type := (string * string)%type.   (* (gold, system) *)

Definition inv_keep (r : row) : inv_token := (gold_label r, system_label r).

(** The loop over [first_sentence_data] with its [break]. *)
Fixpoint inv_scan (first_sentence_data : list inv_token)
  (second_sentence_map : dict string string) : bool :=
  match first_sentence_data with
  | [] => false
  | (gold, system) :: rest =>
      match dict_get String.eqb second_sentence_map gold with
      | Some system2 =>
          if negb (String.eqb system system2) then true
          else inv_scan rest second_sentence_map
      | None => inv_scan rest second_sentence_map
      end
  end.

(** [first_sentence_map] is built by the source and never read. *)
Definition inv_pair_failed (first_sentence_data second_sentence_data
  : list inv_token) : bool :=
  let first_sentence_map := dict_of String.eqb first_sentence_data in
  let second_sentence_map := dict_of String.eqb second_sentence_data in
  inv_scan first_sentence_data second_sentence_map.

Definition evaluate_inv (lines : list string) : io (Z * list string) :=
  sentences_data <- lift (read_sentences inv_keep lines) ;;
  score_pairs inv_pair_failed sentences_data.

(** *** [evaluate_dir] *)

Definition dir_token : Type := (string * (string * string))%type.
                                              (* (token, (gold, system)) *)

Definition dir_keep (r : row) : dir_token :=
  (token r, (gold_label r, system_label r)).

(** The loop over [first_sentence_map.items()] with its [break]. *)
Fixpoint dir_scan (items : list dir_token)
  (second_sentence_map : dict string (string * string)) : bool :=
  match items with
  | [] => false
  | (tok, (_, system)) :: rest =>
      match dict_get String.eqb second_sentence_map tok with
      | Some (_, second_system_label) =>
          if String.eqb system second_system_label then true
          else dir_scan rest second_sentence_map
      | None => dir_scan rest second_sentence_map
      end
  end.

Definition dir_pair_failed (first_sentence_data second_sentence_data
  : list dir_token) : bool :=
  let first_sentence_map := dict_of String.eqb first_sentence_data in
  let second_sentence_map := dict_of String.eqb second_sentence_data in
  dir_scan first_sentence_map second_sentence_map.

Definition evaluate_dir (lines : list string) : io (Z * list string) :=
  sentences_data <- lift (read_sentences dir_keep lines) ;;
  score_pairs dir_pair_failed sentences_data.

(** *** [evaluate_file] and [main] *)

(** [failure_rate], [failed_sentence_ids] and [evaluation_type], which
    the branches of [evaluate_file] assign together or not at all. *)
Definition locals : Type := (Z * list string * string)%type.

Definition nonempty {A} (xs : list A) : bool :=
  match xs with [] => false | _ => true end.

(** The scorers take the lines of the file at [file_path]; opening it is
    done here. *)
Definition evaluate_file (fs : filesystem) (file_path : string) : io unit :=
  assigned <-
    (if contains "MFT" file_path then
       lines <- lift (open_lines fs file_path) ;;
       r <- lift (evaluate_mft lines) ;;
       ret (Some (fst r, snd r, "MFT"))
     else if contains "INV" file_path then
       lines <- lift (open_lines fs file_path) ;;
       r <- evaluate_inv lines ;;
       ret (Some (fst r, snd r, "INV"))
     else if contains "DIR" file_path then
       lines <- lift (open_lines fs file_path) ;;
       r <- evaluate_dir lines ;;
       ret (Some (fst r, snd r, "DIR"))
     else
       print (P_unknown_type file_path) ;;
       ret (@None locals)) ;;
  print (P_file (basename file_path)) ;;
  l <- lift (match assigned with
             | Some l => Ok l
             | None => Raise UnboundLocalError
             end) ;;
  let '(failure_rate, failed_sentence_ids, evaluation_type) := l in
  print (P_type evaluation_type) ;;
  print (P_rate failure_rate) ;;
  if contains "MFT" file_path && nonempty failed_sentence_ids
  then print (P_failed_ids failed_sentence_ids)
  else if nonempty failed_sentence_ids
  then print (P_failed_pairs failed_sentence_ids)
  else ret tt.

Definition output_dirs : list string :=
  ["datasets/output_M1"; "datasets/output_M2"; "datasets/output_M3"].

(** The inner loop of [main] over the sorted file names of a directory. *)
Definition evaluate_names (fs : filesystem) (output_dir : string)
  (file_names : list string) : io unit :=
  for_each (fun (_ : unit) filename =>
              let file_path := path_join output_dir filename in
              if endswith filename ".tsv" then evaluate_file fs file_path
              else ret tt)
    file_names tt.

Definition evaluate_model (fs : filesystem) (_ : unit) (output_dir : string)
  : io unit :=
  print (P_model output_dir) ;;
  names <- lift (listdir fs output_dir) ;;
  let file_names :=
    sorted String.leb
      (filter (fun f => negb (fs_isdir fs (path_join output_dir f))) names) in
  evaluate_names fs output_dir file_names ;;
  print P_rule.

Definition main (fs : filesystem) : io unit :=
  for_each (evaluate_model fs) output_dirs tt.

End Evaluation.

(* ================================================================== *)
(** ** Vocabulary of the properties *)

Module Vocabulary.
Import Py Evaluation.

(** The pairs visited by the pairing loop when none is left over:
    elements 0 and 1, 2 and 3, and so on. *)
Fixpoint pairs_of (ids : list Z) : list (Z * Z) :=
  match ids with
  | a :: b :: rest => (a, b) :: pairs_of rest
  | _ => []
  end.

(** The retained tokens of sentence [k]. *)
Definition sentence_of {T} (d : sentences T) (k : Z) : list T :=
  match dict_get Z.eqb d k with
  | Some v => v
  | None => []
  end.

(** [sentence_ids = sorted(sentences_data.keys())] *)
Definition sentence_ids_of {T} (d : sentences T) : list Z :=
  sorted Z.leb (dict_keys d).

Definition pair_fails {T} (verdict : list T -> list T -> bool)
  (d : sentences T) (p : Z * Z) : bool :=
  verdict (sentence_of d (fst p)) (sentence_of d (snd p)).

(** The pairs of a file that fail, in the order of the pairing loop. *)
Definition failing_pairs {T} (verdict : list T -> list T -> bool)
  (d : sentences T) : list (Z * Z) :=
  filter (pair_fails verdict d) (pairs_of (sentence_ids_of d)).

Definition pair_names (ps : list (Z * Z)) : list string :=
  map (fun p => pair_name (fst p) (snd p)) ps.

(** The counters after the pairing loop has gone through [ps]. *)
Definition pairs_result {T} (verdict : list T -> list T -> bool)
  (d : sentences T) (st : pair_state) (ps : list (Z * Z)) : pair_state :=
  let failing := filter (pair_fails verdict d) ps in
  PairState (total_pairs st + Z.of_nat (List.length ps))
    (failed_pairs st + Z.of_nat (List.length failing))
    (failed_pair_ids st ++ pair_names failing).

(** What a pair scorer returns for given counts and failed names. *)
Definition scored (failed total : nat) (ids : list string)
  : result (Z * list string) :=
  rate <- failure_rate (Z.of_nat failed) (Z.of_nat total) ;;
  ret (rate, ids).

(** A dictionary after the writes [kvs], in order. *)
Definition dict_update {K V} (keq : K -> K -> bool) (d : dict K V)
  (kvs : list (K * V)) : dict K V :=
  fold_left (fun d kv => dict_set keq d (fst kv) (snd kv)) kvs d.

(** Some row of [lines] belongs to sentence [s] and has a gold label that
    is neither ["_"] nor the system label. *)
Definition flagged (lines : list string) (s : string) : Prop :=
  exists line r,
    In line lines /\ is_blank line = false /\ parse_row line = Ok r
    /\ sentence_id r = s
    /\ gold_label r <> "_" /\ gold_label r <> system_label r.

(** What holds of the variables of [evaluate_mft] after the lines
    [seen]. *)
Definition mft_inv (seen : list string) (st : mft_state) : Prop :=
  (forall s, In s (failed_sentence_ids st) -> flagged seen s)
  /\ (sentence_labels_match st = false ->
      exists cur, current_sentence_id st = Some cur /\ flagged seen cur).

(** A row whose five fields are there and whose sentence id [int]
    rejects. *)
Definition non_numeric_id (line : string) : Prop :=
  exists r, is_blank line = false /\ parse_row line = Ok r
            /\ int_of_str (sentence_id r) = Raise ValueError.

(** A row on which the reading loop of INV and DIR raises. *)
Definition bad_sentence_id (line : string) : Prop :=
  is_blank line = false
  /\ forall r, parse_row line = Ok r ->
               int_of_str (sentence_id r) = Raise ValueError.

End Vocabulary.

(* ================================================================== *)
(** ** Input files used as examples *)

Module Fixtures.
Import Py Evaluation Vocabulary.

(** One row of the tabular format, its five fields joined by tabs. *)
Definition tsv (sid tid tok gold sys : string) : string :=
  (sid ++ String tab (tid ++ String tab (tok ++ String tab
     (gold ++ String tab sys))))%string.

Definition nat_str (n : nat) : string := str_of_int (Z.of_nat n).

(** Three retained sentences: an odd count. *)
Definition three_sentences : list string :=
  [ tsv "10" "1" "ran" "ARG0" "ARG0"; "";
    tsv "11" "1" "ran" "ARG0" "ARG1"; "";
    tsv "12" "1" "ran" "ARG0" "ARG0"; "" ].

(** Two sentences with no blank line between them: the first one ends at
    the row whose id differs.  The first sentence fails, the second
    passes. *)
Definition mft_unseparated : list string :=
  [ tsv "1" "1" "She" "ARG0" "ARG1";
    tsv "2" "1" "He" "ARG0" "ARG0";
    "" ].

(** The same two sentences, both failing. *)
Definition mft_unseparated_failing : list string :=
  [ tsv "1" "1" "She" "ARG0" "ARG1";
    tsv "2" "1" "He" "ARG0" "ARG1";
    "" ].

(** Two sentences separated by one blank line, the last one failing, and
    no blank line after it. *)
Definition mft_no_trailing_blank : list string :=
  [ tsv "1" "1" "She" "ARG0" "ARG0"; "";
    tsv "2" "1" "He" "ARG1" "ARG0" ].

(** Pair number [k] of an INV file: sentences [2k] and [2k+1], one
    retained token each, the system label changed or not. *)
Definition inv_pair_rows (k : nat) (changed : bool) : list string :=
  [ tsv (nat_str (2 * k)) "1" "ran" "ARG0" "ARG0"; "";
    tsv (nat_str (2 * k + 1)) "1" "ran" "ARG0"
      (if changed then "ARG1" else "ARG0"); "" ].

(** Fifty pairs, the first twenty-nine of them failing. *)
Definition inv_29_of_50 : list string :=
  flat_map (fun k => inv_pair_rows k (Nat.ltb k 29)) (seq 0 50).

Definition names_29 : list string :=
  map (fun k => pair_name (Z.of_nat (2 * k)) (Z.of_nat (2 * k + 1)))
    (seq 0 29).

(** A gold label repeated within the first sentence of an INV pair, with
    two different system labels. *)
Definition inv_repeated_gold : list string :=
  [ tsv "10" "1" "ran" "ARG0" "X";
    tsv "10" "2" "fast" "ARG0" "Y"; "";
    tsv "11" "1" "ran" "ARG0" "Y"; "" ].

(** The MFT scenario of the specification: sentence 1 passes, sentence 2
    fails. *)
Definition mft_two_sentences : list string :=
  [ tsv "1" "1" "She" "ARG0" "ARG0";
    tsv "1" "2" "ran" "_" "X"; "";
    tsv "2" "1" "He" "ARG1" "ARG0"; "" ].

(** The INV scenario of the specification: the pair (10, 11) fails. *)
Definition inv_pair_10_11 : list string :=
  [ tsv "10" "1" "ran" "ARG0" "ARG0"; "";
    tsv "11" "1" "ran" "ARG0" "ARG1"; "" ].

Definition inv_pair_10_11_data : sentences inv_token :=
  [ (10, [("ARG0", "ARG0")]); (11, [("ARG0", "ARG1")]) ].

(** The DIR scenario of the specification: the label of "ran" does not
    change, so the pair (0, 1) fails. *)
Definition dir_pair_0_1 : list string :=
  [ tsv "0" "1" "ran" "ARG1" "ARG1"; "";
    tsv "1" "1" "ran" "ARG1" "ARG1"; "" ].

Definition dir_pair_0_1_data : sentences dir_token :=
  [ (0, [("ran", ("ARG1", "ARG1"))]); (1, [("ran", ("ARG1", "ARG1"))]) ].

(** A sentence id that is not a number. *)
Definition non_numeric_file : list string :=
  [ tsv "s-a" "1" "She" "ARG0" "ARG0"; "" ].

(** A batch: the first model directory holds a file whose name selects no
    scorer and a well-formed MFT file; the other two are empty. *)
Definition batch_fs : filesystem :=
  FileSystem
    (fun d => if String.eqb d "datasets/output_M1"
              then Some ["z_MFT.tsv"; "notes.tsv"] else Some [])
    (fun _ => false)
    (fun p => if String.eqb p "datasets/output_M1/z_MFT.tsv"
              then Some mft_two_sentences else Some []).

(** The same batch without the unnamed file. *)
Definition batch_fs_ok : filesystem :=
  FileSystem
    (fun d => if String.eqb d "datasets/output_M1"
              then Some ["z_MFT.tsv"] else Some [])
    (fun _ => false)
    (fun p => if String.eqb p "datasets/output_M1/z_MFT.tsv"
              then Some mft_two_sentences else Some []).

End Fixtures.

(* ================================================================== *)
(** ** The layout of the input files *)

Module Layout.
Import Py Evaluation Vocabulary.

Record block : Type := Block
  { b_id : string;
    b_rows : list string;
    b_end : string }.

Definition block_lines (b : block) : list string := b_rows b ++ [b_end b].

Definition file_of_blocks (bs : list block) : list string :=
  flat_map block_lines bs.

Definition well_formed_block (b : block) : Prop :=
  b_rows b <> []
  /\ is_blank (b_end b) = true
  /\ forall l, In l (b_rows b) ->
       is_blank l = false
       /\ exists r, parse_row l = Ok r /\ sentence_id r = b_id b.

Definition row_mismatch (line : string) : bool :=
  match parse_row line with
  | Ok r => negb (String.eqb (gold_label r) "_")
            && negb (String.eqb (gold_label r) (system_label r))
  | Raise _ => false
  end.

Definition block_fails (b : block) : bool := existsb row_mismatch (b_rows b).

Fixpoint counted_blanks (seen_row : bool) (lines : list string) : nat :=
  match lines with
  | [] => 0
  | l :: ls =>
      if is_blank l
      then (if seen_row then 1 else 0) + counted_blanks seen_row ls
      else counted_blanks true ls
  end.

Definition retained {T} (keep : row -> T) (k : Z) (line : string) : list T :=
  if is_blank line then []
  else match parse_row line with
       | Ok r =>
           match int_of_str (sentence_id r) with
           | Ok z => if Z.eqb z k && negb (String.eqb (gold_label r) "_")
                     then [keep r] else []
           | Raise _ => []
           end
       | Raise _ => []
       end.

Definition retained_of {T} (keep : row -> T) (lines : list string) (k : Z)
  : list T :=
  flat_map (retained keep k) lines.

Definition last_id (cur : option string) (bs : list block) : option string :=
  match rev bs with
  | [] => cur
  | b :: _ => Some (b_id b)
  end.

End Layout.
(* ================================================================== *)
(** ** More input files used as examples *)

Module Samples.
Import Py Evaluation Vocabulary Fixtures Layout.

(** [mft_two_sentences] as two blocks. *)
Definition mft_blocks_example : list block :=
  [ Block "1" [tsv "1" "1" "She" "ARG0" "ARG0"; tsv "1" "2" "ran" "_" "X"] "";
    Block "2" [tsv "2" "1" "He" "ARG1" "ARG0"] "" ].

(** Two sentences with two blank lines between them. *)
Definition mft_double_blank : list string :=
  [ tsv "1" "1" "She" "ARG0" "ARG0"; ""; "";
    tsv "2" "1" "He" "ARG1" "ARG0"; "" ].

(** [inv_pair_10_11] with its two sentences in the other order. *)
Definition inv_pair_11_10 : list string :=
  [ tsv "11" "1" "ran" "ARG0" "ARG1"; "";
    tsv "10" "1" "ran" "ARG0" "ARG0"; "" ].

Definition inv_pair_11_10_data : sentences inv_token :=
  [ (11, [("ARG0", "ARG1")]); (10, [("ARG0", "ARG0")]) ].

(** [dir_pair_0_1] with the label of "ran" changed in sentence 1. *)
Definition dir_pair_changed : list string :=
  [ tsv "0" "1" "ran" "ARG1" "ARG1"; "";
    tsv "1" "1" "ran" "ARG1" "ARG2"; "" ].

Definition dir_pair_changed_data : sentences dir_token :=
  [ (0, [("ran", ("ARG1", "ARG1"))]); (1, [("ran", ("ARG1", "ARG2"))]) ].

End Samples.

(* ================================================================== *)
(** ** [prediction.py] *)

Module Prediction.
Import Py Evaluation.

(** *** [determine_label] *)

(** [xs.count(x)] *)
Definition count (x : string) (xs : list string) : nat :=
  List.length (filter (String.eqb x) xs).

(** The scan of [max(iterable, key=...)]: the item kept is replaced only
    by one with a strictly larger key, so the first of the largest
    wins. *)
Fixpoint max_from {A} (key : A -> nat) (best : A) (xs : list A) : A :=
  match xs with
  | [] => best
  | x :: rest =>
      if Nat.ltb (key best) (key x) then max_from key x rest
      else max_from key best rest
  end.

(** [max(xs, key=key)], which raises [ValueError] on an empty
    argument. *)
Definition py_max {A} (key : A -> nat) (xs : list A) : result A :=
  match xs with
  | [] => Raise ValueError
  | x :: rest => Ok (max_from key x rest)
  end.

(** [max(set(subtoken_labels), key=subtoken_labels.count)].  The order
    in which a set of strings is iterated is not fixed by the language;
    [set_order xs] stands for the order in which [set(xs)] yields its
    elements. *)
Definition determine_label (set_order : list string -> list string)
  (subtoken_labels : list string) : result string :=
  py_max (fun x => count x subtoken_labels) (set_order subtoken_labels).

(** *** [read_sentences_from_file] *)

(** [token, gold = line.strip().split('\t')[2:4]]: the slice has the
    parts at positions 2 and 3 that exist, and the unpacking raises
    [ValueError] unless there are two. *)
Definition parse_token_gold (line : string) : result (string * string) :=
  match firstn 2 (skipn 2 (split tab (strip line))) with
  | [tok; gold] => Ok (tok, gold)
  | _ => Raise ValueError
  end.

(** The local variables of [read_sentences_from_file]. *)
Record reader_state : Type := ReaderState
  { sentences_read : list (list string);
    gold_list : list (list string);
    current_sentence_tokens : list string;
    current_sentence_gold : list string }.

Definition reader_init : reader_state := ReaderState [] [] [] [].

(** [if current_sentence_tokens: sentences.append(...); ...], at a blank
    line and after the loop. *)
Definition reader_flush (st : reader_state) : reader_state :=
  match current_sentence_tokens st with
  | [] => st
  | _ => ReaderState (sentences_read st ++ [current_sentence_tokens st])
           (gold_list st ++ [current_sentence_gold st]) [] []
  end.

Definition reader_step (st : reader_state) (line : string)
  : result reader_state :=
  if is_blank line then Ok (reader_flush st)
  else
    tg <- parse_token_gold line ;;
    Ok (ReaderState (sentences_read st) (gold_list st)
          (current_sentence_tokens st ++ [fst tg])
          (current_sentence_gold st ++ [snd tg])).

Definition read_sentences_from_file (lines : list string)
  : result (list (list string) * list (list string)) :=
  st <- for_each reader_step lines reader_init ;;
  let st' := match current_sentence_tokens st with
             | [] => st
             | _ => ReaderState
                      (sentences_read st ++ [current_sentence_tokens st])
                      (gold_list st ++ [current_sentence_gold st])
                      (current_sentence_tokens st) (current_sentence_gold st)
             end in
  ret (sentences_read st', gold_list st').

(** *** [bert_predictions] *)

Fixpoint replace_from (old new : string) (skip : nat) (s : string) : string :=
  match s with
  | EmptyString => EmptyString
  | String c r =>
      match skip with
      | S k => replace_from old new k r
      | O =>
          if String.prefix old s
          then (new ++ replace_from old new (String.length old - 1) r)%string
          else String c (replace_from old new 0 r)
      end
  end.

Fixpoint interleave (new s : string) : string :=
  match s with
  | EmptyString => EmptyString
  | String c r => String c (new ++ interleave new r)%string
  end.

(** [s.replace(old, new)]: the occurrences of [old] from left to right,
    without overlap. *)
Definition str_replace (old new s : string) : string :=
  match old with
  | EmptyString => (new ++ interleave new s)%string
  | _ => replace_from old new 0 s
  end.

Definition newline : string := String "010"%char EmptyString.

(** [str(x)] for a label that may still be [None]. *)
Definition str_of_label (l : option string) : string :=
  match l with
  | Some s => s
  | None => "None"
  end.

(** [f"{sentence_id}\t{token_id}\t{token}\t{gold_label}\t{system_label}\n"] *)
Definition format_row (sentence_id token_id : Z) (tok gold sys : string)
  : string :=
  (str_of_int sentence_id ++ String tab (str_of_int token_id ++ String tab
     (tok ++ String tab (gold ++ String tab (sys ++ newline)))))%string.

(** [xs[i] = v] *)
Fixpoint list_assign {A} (xs : list A) (i : nat) (v : A) : result (list A) :=
  match xs, i with
  | [], _ => Raise IndexError
  | _ :: r, O => Ok (v :: r)
  | x :: r, S j => r' <- list_assign r j v ;; Ok (x :: r')
  end.

(** One item of [zip(offset_mapping[0], predictions[0])]:
    [((start, end), pred)]. *)
Definition prediction : Type := (Z * Z * Z)%type.

(** [word_labels], [current_word_index] and [subtoken_labels]. *)
Record word_state : Type := WordState
  { word_labels : list (option string);
    current_word_index : nat;
    subtoken_labels : list string }.

(** [word_labels[current_word_index] = determine_label(subtoken_labels)] *)
Definition close_word (set_order : list string -> list string)
  (st : word_state) : result (list (option string)) :=
  l <- determine_label set_order (subtoken_labels st) ;;
  list_assign (word_labels st) (current_word_index st) (Some l).

(** One turn of the loop over the sub-tokens. *)
Definition word_step (set_order : list string -> list string)
  (index_to_label : dict Z string) (st : word_state) (p : prediction)
  : result word_state :=
  let '(start, end_, pred) := p in
  if Z.eqb start end_ && Z.eqb end_ 0 then Ok st
  else
    label <- match dict_get Z.eqb index_to_label pred with
             | Some l => Ok l
             | None => Raise KeyError
             end ;;
    st1 <- (if Z.eqb start 0 && nonempty (subtoken_labels st)
            then wl <- close_word set_order st ;;
                 Ok (WordState wl (S (current_word_index st)) [])
            else Ok st) ;;
    Ok (WordState (word_labels st1) (current_word_index st1)
          (subtoken_labels st1 ++ [label])).

(** From [word_labels = [None] * len(sentence)] to the label of the last
    word. *)
Definition label_words (set_order : list string -> list string)
  (index_to_label : dict Z string) (sentence : list string)
  (preds : list prediction) : result (list (option string)) :=
  st <- for_each (word_step set_order index_to_label) preds
          (WordState (repeat None (List.length sentence)) 0 []) ;;
  if nonempty (subtoken_labels st) then close_word set_order st
  else Ok (word_labels st).

(** The rows written for one sentence: the loop over
    [enumerate(zip(sentence, word_labels, gold_labels))] with its
    [break] at ["[SEP]"]. *)
Fixpoint write_rows (sentence_id : Z) (token_id : Z)
  (items : list (string * (option string * string))) : list string :=
  match items with
  | [] => []
  | (tok, (system_label, gold_label)) :: rest =>
      if String.eqb tok "[SEP]" then []
      else
        let tok' := if contains "[PRED]" tok
                    then str_replace "[PRED] " "" tok else tok in
        format_row sentence_id (token_id + 1) tok' gold_label
          (str_of_label system_label)
        :: write_rows sentence_id (token_id + 1) rest
  end.

(** What was written to the output file, one string per call of
    [write], and how the function ended.  Each string is one line of
    the file as long as no field holds a line break. *)
Definition written (A : Type) : Type := (list string * result A)%type.

#[export] Instance written_monad : Monad written :=
  {| ret := fun A a => ([], Ok a);
     bind := fun A B m f =>
       match m with
       | (out, Ok a) => let '(out', r) := f a in ((out ++ out')%list, r)
       | (out, Raise e) => (out, Raise e)
       end |}.

Definition emit (lines : list string) : written unit := (lines, Ok tt).

Definition computed {A} (r : result A) : written A := ([], r).

(** One turn of the loop over the sentences.  [predict sentence] stands
    for the tokenizer and the model: the offsets of the sub-tokens of
    the sentence zipped with the indices of their predicted labels. *)
Definition write_sentence (set_order : list string -> list string)
  (predict : list string -> list prediction)
  (index_to_label : dict Z string) (sentence_id : Z)
  (sg : list string * list string) : written Z :=
  let '(sentence, gold_labels) := sg in
  labels <- computed (label_words set_order index_to_label sentence
                        (predict sentence)) ;;
  emit (write_rows sentence_id 0
          (combine sentence (combine labels gold_labels))) ;;
  emit [newline] ;;
  ret (sentence_id + 1).

Definition bert_predictions (set_order : list string -> list string)
  (predict : list string -> list prediction)
  (index_to_label : dict Z string)
  (sentence_list gold_list : list (list string)) : written Z :=
  for_each (write_sentence set_order predict index_to_label)
    (combine sentence_list gold_list) 1.

End Prediction.

(* ================================================================== *)
(** ** Vocabulary for [prediction.py] *)

Module PredictionLayout.
Import Py Evaluation Prediction.

(** The token and the gold label of a row, as [parse_token_gold] reads
    them. *)
Definition row_token (line : string) : string :=
  match parse_token_gold line with
  | Ok tg => fst tg
  | Raise _ => ""
  end.

Definition row_gold (line : string) : string :=
  match parse_token_gold line with
  | Ok tg => snd tg
  | Raise _ => ""
  end.

(** The lines of a file that are not blank. *)
Definition rows_of (lines : list string) : list string :=
  filter (fun l => negb (is_blank l)) lines.

(** [set_order] yields the elements of its argument and nothing else. *)
Definition set_like (set_order : list string -> list string) : Prop :=
  forall xs x, In x (set_order xs) <-> In x xs.

(** What [read_sentences_from_file] returns from the state after the
    loop. *)
Definition reader_result (st : reader_state)
  : list (list string) * list (list string) :=
  (sentences_read (reader_flush st), gold_list (reader_flush st)).

(** What the reader holds: the tokens of the rows read so far are the
    finished sentences followed by the current one. *)
Definition reader_inv (seen : list string) (st : reader_state) : Prop :=
  List.concat (sentences_read st) ++ current_sentence_tokens st
  = map row_token (rows_of seen)
  /\ List.concat (gold_list st) ++ current_sentence_gold st
     = map row_gold (rows_of seen)
  /\ Forall2 (fun s g => List.length s = List.length g /\ s <> [])
       (sentences_read st) (gold_list st)
  /\ List.length (current_sentence_tokens st)
     = List.length (current_sentence_gold st).

(** A sentence of an input file as [read_sentences_from_file] needs it:
    at least one row, every row with its token and gold label, and a
    blank line at the end. *)
Definition readable_block (b : Layout.block) : Prop :=
  Layout.b_rows b <> []
  /\ is_blank (Layout.b_end b) = true
  /\ forall l, In l (Layout.b_rows b) ->
       is_blank l = false /\ exists tg, parse_token_gold l = Ok tg.

(** The number of tab-separated parts of a line. *)
Definition fields (line : string) : nat :=
  List.length (split tab (strip line)).

End PredictionLayout.

(** *** Texts without tabs or white space *)

Module Text.
Import Py.

(** No tab in the text. *)
Fixpoint clean (s : string) : bool :=
  match s with
  | EmptyString => true
  | String c r => negb (Ascii.eqb c tab) && clean r
  end.

(** No white space at all in the text. *)
Fixpoint plain (s : string) : bool :=
  match s with
  | EmptyString => true
  | String c r => negb (isspace c) && plain r
  end.

(** A text that [strip] leaves alone at its end and that is not empty:
    what the last field of a row has to be. *)
Definition tidy (s : string) : Prop :=
  clean s = true /\ rstrip s = s /\ s <> "".

End Text.

(** *** Examples for [prediction.py] *)

Module PredictionSamples.
Import Py Evaluation Fixtures.
(** An iteration order for sets of strings: first occurrences last. *)
Definition first_seen (xs : list string) : list string := nodup string_dec xs.

(** Another one: the reverse. *)
Definition last_seen (xs : list string) : list string :=
  rev (nodup string_dec xs).

(** Two sentences, two blank lines between them and none at the end. *)
Definition mft_double_blank_rows : list string :=
  [ tsv "1" "1" "She" "ARG0" "ARG0"; tsv "1" "2" "ran" "_" "X"; ""; "";
    tsv "2" "1" "He" "ARG1" "ARG0" ].

(** A file with a row of one field only. *)
Definition short_row_file : list string := [ "She"; "" ].
End PredictionSamples.

(* ================================================================== *)
(** ** Vocabulary for [bert_predictions] *)

Module Written.
Import Py Evaluation Vocabulary Layout Prediction PredictionLayout Text.

(** *** The sub-tokens of a sentence *)

(** [start == end == 0]: a special or a padding token. *)
Definition special (p : prediction) : bool :=
  let '(start, end_, _) := p in Z.eqb start end_ && Z.eqb end_ 0.

(** [start == 0] *)
Definition word_start (p : prediction) : bool :=
  let '(start, _, _) := p in Z.eqb start 0.

Definition predicted (p : prediction) : Z :=
  let '(_, _, pred) := p in pred.

(** The sub-tokens of one word of a sentence that was given to the
    tokenizer split into words: the first one starts at offset 0 of the
    word and is not special, the others start further on. *)
Definition word_preds (w : list prediction) : Prop :=
  match w with
  | [] => False
  | first :: rest =>
      word_start first = true /\ special first = false
      /\ Forall (fun p => word_start p = false) rest
  end.

(** [preds] holds the sub-tokens of the words [ws] in order, with
    special tokens anywhere among them. *)
Definition words_of (preds : list prediction) (ws : list (list prediction))
  : Prop :=
  filter (fun p => negb (special p)) preds = List.concat ws
  /\ Forall word_preds ws.

(** [ls] are the labels of the sub-tokens [w] under [index_to_label]. *)
Definition labels_of (index_to_label : dict Z string) (w : list prediction)
  (ls : list string) : Prop :=
  Forall2 (fun p l => dict_get Z.eqb index_to_label (predicted p) = Some l)
    w ls.

(** Every label of [labels] is a value of [index_to_label]. *)
Definition from_table (index_to_label : dict Z string) (labels : list string)
  : Prop :=
  forall l, In l labels -> exists k, dict_get Z.eqb index_to_label k = Some l.

(** What the loop over the sub-tokens keeps true: [word_labels] has [n]
    entries, and the labels it holds and the pending ones are values of
    [index_to_label]. *)
Definition word_inv (index_to_label : dict Z string) (n : nat)
  (st : word_state) : Prop :=
  List.length (word_labels st) = n
  /\ from_table index_to_label (subtoken_labels st)
  /\ forall l, In (Some l) (word_labels st) ->
       exists k, dict_get Z.eqb index_to_label k = Some l.

(** The end of [label_words]: the label of the last word. *)
Definition last_word (set_order : list string -> list string)
  (st : word_state) : result (list (option string)) :=
  if nonempty (subtoken_labels st) then close_word set_order st
  else Ok (word_labels st).

(** *** The file that is written *)

(** Every character of [s] passes [p]. *)
Fixpoint every (p : ascii -> bool) (s : string) : bool :=
  match s with
  | EmptyString => true
  | String c r => p c && every p r
  end.

Definition line_feed : ascii := "010"%char.
Definition carriage_return : ascii := "013"%char.

Definition line_break (c : ascii) : bool :=
  Ascii.eqb c line_feed || Ascii.eqb c carriage_return.

(** No line break in the text. *)
Definition one_line (s : string) : bool :=
  every (fun c => negb (line_break c)) s.

(** The text of a file after the calls of [write] with [out], where the
    line separator of the system is the line feed. *)
Definition file_text (out : list string) : string := String.concat "" out.

(** The lines that iterating over a file opened for reading in text mode
    yields, after [cur] was read of the current one: a line ends at a
    line feed, at a carriage return or at the two in a row, and each of
    them is given as a line feed. *)
Fixpoint lines_from (cur s : string) : list string :=
  match s with
  | EmptyString =>
      match cur with
      | EmptyString => []
      | _ => [cur]
      end
  | String c r =>
      if Ascii.eqb c line_feed
      then (cur ++ newline)%string :: lines_from "" r
      else if Ascii.eqb c carriage_return
      then (cur ++ newline)%string ::
           match r with
           | String c' r' =>
               if Ascii.eqb c' line_feed then lines_from "" r'
               else lines_from "" r
           | EmptyString => lines_from "" r
           end
      else lines_from (cur ++ String c "")%string r
  end.

Definition file_lines (text : string) : list string := lines_from "" text.

(** A written text that is one line of the file: its line feed at the
    end is the only line break in it. *)
Definition whole_line (l : string) : Prop :=
  exists body, l = (body ++ newline)%string /\ one_line body = true.

(** A text that can stand in a row: no tab and no line break. *)
Definition field (s : string) : Prop :=
  clean s = true /\ one_line s = true.

(** A label that can stand at the end of a row. *)
Definition label_text (s : string) : Prop := tidy s /\ one_line s = true.

Definition label_table (index_to_label : dict Z string) : Prop :=
  forall k l, dict_get Z.eqb index_to_label k = Some l -> label_text l.

(** *** The sentences that are written *)

(** One item of [zip(sentence, word_labels, gold_labels)]. *)
Definition triple : Type := (string * (option string * string))%type.

Definition triples (sentence : list string) (labels : list (option string))
  (gold_labels : list string) : list triple :=
  combine sentence (combine labels gold_labels).

(** The items of the sentences [sgs], each with its gold labels, and
    of the labels [labelss] found for them. *)
Definition sentence_items (sgs : list (list string * list string))
  (labelss : list (list (option string))) : list (list triple) :=
  map (fun x => triples (fst (fst x)) (snd x) (snd (fst x)))
    (combine sgs labelss).

(** An item whose three texts can be written as a row. *)
Definition row_item (it : triple) : Prop :=
  let '(tok, (system_label, gold_label)) := it in
  field tok /\ field gold_label /\ label_text (str_of_label system_label).

(** The token as it is written. *)
Definition shown (tok : string) : string :=
  if contains "[PRED]" tok then str_replace "[PRED] " "" tok else tok.

(** The items before the first ["[SEP]"] token. *)
Fixpoint before_sep (items : list triple) : list triple :=
  match items with
  | [] => []
  | (tok, x) :: rest =>
      if String.eqb tok "[SEP]" then [] else (tok, x) :: before_sep rest
  end.

(** A token with a gold label other than ["_"] that is not the label
    written for it. *)
Definition mispredicted (it : triple) : bool :=
  let '(_, (system_label, gold_label)) := it in
  negb (String.eqb gold_label "_")
  && negb (String.eqb gold_label (str_of_label system_label)).

Definition sentence_fails (items : list triple) : bool :=
  existsb mispredicted (before_sep items).

(** The ids, counted from [sentence_id], of the sentences that fail. *)
Fixpoint failing_from (sentence_id : Z) (itemss : list (list triple))
  : list Z :=
  match itemss with
  | [] => []
  | items :: rest =>
      (if sentence_fails items then [sentence_id] else [])
      ++ failing_from (sentence_id + 1) rest
  end.

(** The sentences as blocks of the file, numbered from [sentence_id]. *)
Fixpoint blocks_from (sentence_id : Z) (itemss : list (list triple))
  : list block :=
  match itemss with
  | [] => []
  | items :: rest =>
      Block (str_of_int sentence_id) (write_rows sentence_id 0 items) newline
      :: blocks_from (sentence_id + 1) rest
  end.

(** A sentence and its gold labels as [bert_predictions] can write them
    for the scorers: tokens and gold labels that can stand in a row, and
    a first token, other than ["[SEP]"], with a gold label. *)
Definition writable (sentence gold_labels : list string) : Prop :=
  Forall field sentence /\ Forall field gold_labels
  /\ match sentence, gold_labels with
     | tok :: _, _ :: _ => tok <> "[SEP]"
     | _, _ => False
     end.

End Written.

(* ================================================================== *)
(** ** The label tables of [main] in [prediction.py] and an example run *)

Module PredictionTables.
Import Py Evaluation Prediction Written Text.

Definition label_to_index : dict string Z :=
  [ ("ARG0", 0); ("ARG1", 1); ("ARG1-DSP", 2); ("ARG2", 3); ("ARG3", 4);
    ("ARG4", 5); ("ARG5", 6); ("ARGA", 7); ("ARGM-ADJ", 8); ("ARGM-ADV", 9);
    ("ARGM-CAU", 10); ("ARGM-COM", 11); ("ARGM-CXN", 12); ("ARGM-DIR", 13);
    ("ARGM-DIS", 14); ("ARGM-EXT", 15); ("ARGM-GOL", 16); ("ARGM-LOC", 17);
    ("ARGM-LVB", 18); ("ARGM-MNR", 19); ("ARGM-MOD", 20); ("ARGM-NEG", 21);
    ("ARGM-PRD", 22); ("ARGM-PRP", 23); ("ARGM-PRR", 24); ("ARGM-REC", 25);
    ("ARGM-TMP", 26); ("C-ARG0", 27); ("C-ARG1", 28); ("C-ARG1-DSP", 29);
    ("C-ARG2", 30); ("C-ARG3", 31); ("C-ARG4", 32); ("C-ARGM-ADV", 33);
    ("C-ARGM-COM", 34); ("C-ARGM-CXN", 35); ("C-ARGM-DIR", 36);
    ("C-ARGM-EXT", 37); ("C-ARGM-GOL", 38); ("C-ARGM-LOC", 39);
    ("C-ARGM-MNR", 40); ("C-ARGM-PRP", 41); ("C-ARGM-PRR", 42);
    ("C-ARGM-TMP", 43); ("R-ARG0", 44); ("R-ARG1", 45); ("R-ARG2", 46);
    ("R-ARG3", 47); ("R-ARG4", 48); ("R-ARGM-ADJ", 49); ("R-ARGM-ADV", 50);
    ("R-ARGM-CAU", 51); ("R-ARGM-COM", 52); ("R-ARGM-DIR", 53);
    ("R-ARGM-GOL", 54); ("R-ARGM-LOC", 55); ("R-ARGM-MNR", 56);
    ("R-ARGM-TMP", 57); ("_", 58) ].

(** [{v: k for k, v in label_to_index.items()}] *)
Definition index_to_label : dict Z string :=
  dict_of Z.eqb (map (fun kv => (snd kv, fst kv)) label_to_index).

(** [label_text] as a test. *)
Definition label_textb (s : string) : bool :=
  clean s && String.eqb (rstrip s) s && negb (String.eqb s "") && one_line s.

(** A stand-in for the tokenizer and the model: for each word its
    sub-tokens with their offsets in the word and the index predicted
    for each, between the two special tokens of the sentence. *)
Definition sample_word (tok : string) : list prediction :=
  if String.eqb tok "She" then [(0, 3, 0)]
  else if String.eqb tok "[PRED] ran"
  then [(0, 1, 58); (1, 5, 58); (5, 6, 58); (7, 10, 58)]
  else if String.eqb tok "slowly" then [(0, 4, 19); (4, 6, 9)]
  else if String.eqb tok "zzz" then [(0, 3, 59)]
  else [(0, Z.of_nat (String.length tok), 58)].

Definition sample_predict (sentence : list string) : list prediction :=
  (0, 0, 58) :: flat_map sample_word sentence ++ [(0, 0, 58)].

Definition sample_sentences : list (list string) :=
  [ ["She"; "[PRED] ran"; "[SEP]"; "ran"]; ["He"; "[PRED] left"] ].

Definition sample_golds : list (list string) :=
  [ ["ARG0"; "_"; "_"; "_"]; ["ARG1"; "_"] ].

(** One row of an input file: four fields and the line feed. *)
Definition conllu (sid tid tok gold : string) : string :=
  (sid ++ String tab (tid ++ String tab (tok ++ String tab (gold ++ newline))))%string.

(** An input file with two sentences, the second without a blank line
    after it. *)
Definition sample_input : string :=
  file_text
    [ conllu "4" "1" "She" "ARG0"; conllu "4" "2" "[PRED] ran" "_"; newline;
      conllu "9" "1" "He" "ARG1"; conllu "9" "2" "[PRED] left" "_" ].

Definition sample_read : list (list string) * list (list string) :=
  ([["She"; "[PRED] ran"]; ["He"; "[PRED] left"]],
   [["ARG0"; "_"]; ["ARG1"; "_"]]).

End PredictionTables.

(* ================================================================== *)
(** ** The names of the files that [run_model_predictions] writes *)

Module PredictionFiles.
Import Py Evaluation Prediction.

(** [filename.endswith('.conllu')]: the files that are predicted. *)
Definition predicted_file (filename : string) : bool :=
  endswith filename ".conllu".

(** [filename.replace(".conllu", "_predictions.tsv")] *)
Definition output_file_name (filename : string) : string :=
  str_replace ".conllu" "_predictions.tsv" filename.

(** [c] is a character of [s]. *)
Fixpoint char_in (c : ascii) (s : string) : bool :=
  match s with
  | EmptyString => false
  | String d r => Ascii.eqb c d || char_in c r
  end.

(** No character of [mark] is one of [old]. *)
Fixpoint apart (mark old : string) : bool :=
  match mark with
  | EmptyString => true
  | String c r => negb (char_in c old) && apart r old
  end.

(** No occurrence of [old] begins in a text before [z] and ends in
    [z]. *)
Definition barrier (old z : string) : Prop :=
  forall x, x <> "" -> String.prefix old (x ++ z)%string = true ->
            String.prefix old x = true.

(** The marks by which [evaluate_file] chooses the scorer. *)
Definition type_marks : list string := ["MFT"; "INV"; "DIR"].

End PredictionFiles.

(* ================================================================== *)
(** ** The rows behind the verdict of [evaluate_dir] *)

Module PairRows.
Import Py Evaluation Vocabulary Fixtures Layout.

(** The rows of sentence [k] that the pair scorers retain, in file
    order: the rows whose id is the integer [k] and whose gold label is
    not ["_"]. *)
Definition retained_rows (lines : list string) (k : Z) : list row :=
  retained_of (fun r => r) lines k.

(** The last of [rows] with the token text [tok]. *)
Definition last_row (rows : list row) (tok : string) : option row :=
  find (fun r => String.eqb (token r) tok) (rev rows).

(** Some token text is in sentence [a] and in sentence [b], and the
    last retained row that has it in [a] and the last that has it in
    [b] carry the same system label. *)
Definition unchanged_token (lines : list string) (a b : Z) : Prop :=
  exists tok ra rb,
    last_row (retained_rows lines a) tok = Some ra
    /\ last_row (retained_rows lines b) tok = Some rb
    /\ system_label ra = system_label rb.

(** Four pairs: the label of "ran" unchanged; changed; no token text in
    common; "the" twice in the first sentence, the label of its last
    row not the one of the second sentence. *)
Definition dir_four_pairs : list string :=
  [ tsv "0" "1" "ran" "ARG1" "ARG1"; "";
    tsv "1" "1" "ran" "ARG1" "ARG1"; "";
    tsv "2" "1" "ran" "ARG1" "ARG1"; "";
    tsv "3" "1" "ran" "ARG1" "ARG2"; "";
    tsv "4" "1" "ran" "ARG1" "ARG1"; "";
    tsv "5" "1" "walked" "ARG1" "ARG1"; "";
    tsv "6" "1" "the" "ARG0" "ARG0"; tsv "6" "2" "the" "ARG1" "ARG1"; "";
    tsv "7" "1" "the" "ARG0" "ARG0"; "" ].

Definition dir_four_pairs_data : sentences dir_token :=
  [ (0, [("ran", ("ARG1", "ARG1"))]); (1, [("ran", ("ARG1", "ARG1"))]);
    (2, [("ran", ("ARG1", "ARG1"))]); (3, [("ran", ("ARG1", "ARG2"))]);
    (4, [("ran", ("ARG1", "ARG1"))]); (5, [("walked", ("ARG1", "ARG1"))]);
    (6, [("the", ("ARG0", "ARG0")); ("the", ("ARG1", "ARG1"))]);
    (7, [("the", ("ARG0", "ARG0"))]) ].

End PairRows.

(* ================================================================== *)
(** ** Sentence ids under another name *)

Module Ids.
Import Py Evaluation Vocabulary Fixtures.

(** The row [r] with the sentence id [f] gives for its own. *)
Definition with_id (f : string -> string) (r : row) : row :=
  Row (f (sentence_id r)) (token_id r) (token r) (gold_label r)
    (system_label r).

(** [line'] is [line] with its sentence id renamed by [f]: both blank,
    or both rows of five fields that differ in the id only. *)
Definition renamed (f : string -> string) (line line' : string) : Prop :=
  if is_blank line then is_blank line' = true
  else is_blank line' = false
       /\ exists r, parse_row line = Ok r
                    /\ parse_row line' = Ok (with_id f r).

Definition renamed_state (f : string -> string) (st : mft_state)
  : mft_state :=
  MftState (option_map f (current_sentence_id st))
    (sentence_labels_match st) (total_sentences st) (failed_sentences st)
    (map f (failed_sentence_ids st)).

(** The result of a scorer with its failed ids renamed. *)
Definition renamed_result (f : string -> string)
  (res : result (Z * list string)) : result (Z * list string) :=
  match res with
  | Ok (rate, ids) => Ok (rate, map f ids)
  | Raise e => Raise e
  end.

(** An id in front of which ["s-"] is put. *)
Definition tagged (s : string) : string := ("s-" ++ s)%string.

(** [mft_two_sentences] with tagged ids, none of them a number. *)
Definition mft_tagged_sentences : list string :=
  [ tsv "s-1" "1" "She" "ARG0" "ARG0"; tsv "s-1" "2" "ran" "_" "X"; "";
    tsv "s-2" "1" "He" "ARG1" "ARG0"; "" ].

(** The id 7 followed by the unit separator, which [str.strip] takes
    for white space and [int] does not. *)
Definition separator_id : string := String "7" (String "031" "").

Definition separator_id_file : list string :=
  [ tsv separator_id "1" "She" "ARG0" "ARG1"; "" ].

(** [n] times the digit 9. *)
Fixpoint nines (n : nat) : string :=
  match n with
  | O => ""
  | S k => String "9" (nines k)
  end.

End Ids.

(* ================================================================== *)
(** ** A batch with an empty file *)

Module Batches.
Import Py Evaluation Vocabulary Fixtures.

(** The first model directory holds an MFT file without any line and a
    well-formed one; the other two directories are empty. *)
Definition batch_fs_empty_file : filesystem :=
  FileSystem
    (fun d => if String.eqb d "datasets/output_M1"
              then Some ["z_MFT.tsv"; "a_MFT.tsv"] else Some [])
    (fun _ => false)
    (fun p => if String.eqb p "datasets/output_M1/z_MFT.tsv"
              then Some mft_two_sentences else Some []).

End Batches.

(* ================================================================== *)
(** ** Lemmas on the runtime and on the loops *)

Import Py Evaluation Vocabulary Fixtures.

Lemma for_each_app_result {A S} (body : S -> A -> result S) xs ys st :
  for_each body (xs ++ ys) st = (st' <- for_each body xs st ;; for_each body ys st').
Proof.
  revert st; induction xs as [|x xs IH]; intros st; simpl.
  - reflexivity.
  - destruct (body st x); simpl; auto.
Qed.

Lemma index_app_at {A} (pre suf : list A) (x : A) :
  index (pre ++ x :: suf) (List.length pre) = Ok x.
Proof.
  unfold index. rewrite nth_error_app2 by lia. now rewrite Nat.sub_diag.
Qed.

Lemma index_beyond {A} (xs : list A) i : (List.length xs <= i)%nat -> index xs i = Raise IndexError.
Proof.
  intros H. unfold index. destruct (nth_error xs i) eqn:E; auto.
  apply nth_error_None in H. congruence.
Qed.

Section Pairs.
Context {T : Type} (verdict : list T -> list T -> bool) (d : sentences T).

Lemma item_present k : dict_get Z.eqb d k <> None -> item d k = Ok (sentence_of d k).
Proof.
  unfold item, sentence_of. destruct (dict_get Z.eqb d k); congruence.
Qed.

Lemma pairs_result_cons st a b ps :
  pairs_result verdict d st ((a, b) :: ps)
  = pairs_result verdict d
      (if verdict (sentence_of d a) (sentence_of d b)
       then PairState (total_pairs st + 1) (failed_pairs st + 1)
              (failed_pair_ids st ++ [pair_name a b])
       else PairState (total_pairs st + 1) (failed_pairs st)
              (failed_pair_ids st)) ps.
Proof.
  unfold pairs_result, pair_names, pair_fails. cbn [filter fst snd].
  destruct (verdict (sentence_of d a) (sentence_of d b));
    cbn [total_pairs failed_pairs failed_pair_ids List.length map fst snd];
    rewrite <- ?app_assoc; f_equal; try lia; reflexivity.
Qed.

Lemma pair_step_at pre a b suf st :
  dict_get Z.eqb d a <> None -> dict_get Z.eqb d b <> None ->
  pair_step verdict d (pre ++ a :: b :: suf) st (List.length pre)
  = Ok (if verdict (sentence_of d a) (sentence_of d b)
        then PairState (total_pairs st + 1) (failed_pairs st + 1)
               (failed_pair_ids st ++ [pair_name a b])
        else PairState (total_pairs st + 1) (failed_pairs st)
               (failed_pair_ids st)).
Proof.
  intros Ha Hb. unfold pair_step.
  rewrite index_app_at. cbn [bind result_monad].
  rewrite (item_present a Ha).
  replace (pre ++ a :: b :: suf) with ((pre ++ [a]) ++ b :: suf)
    by (rewrite <- app_assoc; reflexivity).
  replace (List.length pre + 1)%nat with (List.length (pre ++ [a]))
    by (rewrite length_app; simpl; lia).
  rewrite index_app_at. rewrite (item_present b Hb).
  destruct (verdict (sentence_of d a) (sentence_of d b)); reflexivity.
Qed.

Lemma pair_step_last pre a st :
  dict_get Z.eqb d a <> None ->
  pair_step verdict d (pre ++ [a]) st (List.length pre) = Raise IndexError.
Proof.
  intros Ha. unfold pair_step.
  rewrite index_app_at. cbn [bind result_monad].
  rewrite (item_present a Ha).
  rewrite index_beyond by (rewrite length_app; simpl; lia).
  reflexivity.
Qed.

Lemma pair_loop_even : forall m j pre suf st,
  List.length pre = (2 * j)%nat ->
  List.length suf = (2 * m)%nat ->
  (forall k, In k suf -> dict_get Z.eqb d k <> None) ->
  for_each (pair_step verdict d (pre ++ suf))
    (map (fun k => 2 * k)%nat (seq j m)) st
  = Ok (pairs_result verdict d st (pairs_of suf)).
Proof.
  induction m as [|m IH]; intros j pre suf st Hpre Hsuf Hin.
  - destruct suf; [|discriminate]. simpl. unfold pairs_result. simpl.
    rewrite !Z.add_0_r, app_nil_r. destruct st; reflexivity.
  - destruct suf as [|a [|b suf]]; try (simpl in Hsuf; lia).
    cbn [seq map for_each]. rewrite <- Hpre.
    rewrite pair_step_at by (apply Hin; simpl; auto).
    cbn [bind result_monad pairs_of]. rewrite pairs_result_cons.
    replace (pre ++ a :: b :: suf) with ((pre ++ [a; b]) ++ suf)
      by (rewrite <- app_assoc; reflexivity).
    apply IH.
    + rewrite length_app; simpl; lia.
    + simpl in Hsuf; lia.
    + intros k Hk; apply Hin; simpl; auto.
Qed.

Lemma pair_loop_odd : forall m j pre suf st,
  List.length pre = (2 * j)%nat ->
  List.length suf = (2 * m + 1)%nat ->
  (forall k, In k suf -> dict_get Z.eqb d k <> None) ->
  for_each (pair_step verdict d (pre ++ suf))
    (map (fun k => 2 * k)%nat (seq j (S m))) st
  = Raise IndexError.
Proof.
  induction m as [|m IH]; intros j pre suf st Hpre Hsuf Hin.
  - destruct suf as [|a [|b suf]]; try discriminate.
    cbn [seq map for_each]. rewrite <- Hpre.
    rewrite pair_step_last by (apply Hin; simpl; auto). reflexivity.
  - destruct suf as [|a [|b suf]]; try (simpl in Hsuf; lia).
    cbn [seq map for_each]. rewrite <- Hpre.
    rewrite pair_step_at by (apply Hin; simpl; auto).
    cbn [bind result_monad].
    replace (pre ++ a :: b :: suf) with ((pre ++ [a; b]) ++ suf)
      by (rewrite <- app_assoc; reflexivity).
    apply (IH (S j)).
    + rewrite length_app; simpl; lia.
    + simpl in Hsuf; lia.
    + intros k Hk; apply Hin; simpl; auto.
Qed.
End Pairs.

Lemma insert_sorted_In {A} (leb : A -> A -> bool) x y xs :
  In y (insert_sorted leb x xs) <-> y = x \/ In y xs.
Proof.
  induction xs as [|z zs IH]; simpl.
  - intuition.
  - destruct (leb x z); simpl; rewrite ?IH; intuition.
Qed.

Lemma sorted_In {A} (leb : A -> A -> bool) y xs :
  In y (sorted leb xs) <-> In y xs.
Proof.
  induction xs as [|x xs IH]; simpl.
  - reflexivity.
  - rewrite insert_sorted_In, IH. intuition.
Qed.

Lemma insert_sorted_length {A} (leb : A -> A -> bool) x xs :
  List.length (insert_sorted leb x xs) = S (List.length xs).
Proof.
  induction xs as [|z zs IH]; simpl; auto.
  destruct (leb x z); simpl; auto.
Qed.

Lemma sorted_length {A} (leb : A -> A -> bool) xs :
  List.length (sorted leb xs) = List.length xs.
Proof.
  induction xs as [|x xs IH]; simpl; auto.
  now rewrite insert_sorted_length, IH.
Qed.

Section DictFacts.
Context {K V : Type} (keq : K -> K -> bool).
Hypothesis keq_eq : forall a b, keq a b = true <-> a = b.

Lemma keq_refl k : keq k k = true.
Proof. now apply keq_eq. Qed.

Lemma dict_get_key (d : dict K V) k :
  In k (dict_keys d) -> dict_get keq d k <> None.
Proof.
  unfold dict_keys. induction d as [|[k' v] d IH]; simpl.
  - tauto.
  - intros [->|H].
    + rewrite keq_refl. discriminate.
    + destruct (keq k k'); [discriminate | auto].
Qed.

Lemma dict_get_set_same (d : dict K V) k v :
  dict_get keq (dict_set keq d k v) k = Some v.
Proof.
  induction d as [|[k' v'] d IH]; simpl.
  - now rewrite keq_refl.
  - destruct (keq k k') eqn:E; simpl; rewrite E; auto.
Qed.

Lemma dict_get_set_other (d : dict K V) k k' v :
  k' <> k -> dict_get keq (dict_set keq d k v) k' = dict_get keq d k'.
Proof.
  intros N. induction d as [|[k0 v0] d IH]; simpl.
  - destruct (keq k' k) eqn:E; auto. apply keq_eq in E. contradiction.
  - destruct (keq k k0) eqn:E; simpl.
    + apply keq_eq in E. subst k0.
      destruct (keq k' k) eqn:E2; [apply keq_eq in E2; contradiction | reflexivity].
    + now rewrite IH.
Qed.

Lemma dict_set_keys_NoDup (d : dict K V) k v :
  NoDup (dict_keys d) -> NoDup (dict_keys (dict_set keq d k v)).
Proof.
  unfold dict_keys.
  assert (Hin : forall (d : dict K V) x, In x (map fst (dict_set keq d k v))
                  -> x = k \/ In x (map fst d)).
  { clear d. induction d as [|[k0 v0] d IH]; simpl; intros x.
    - intuition.
    - destruct (keq k k0) eqn:E; simpl.
      + intuition.
      + intros [->|H]; auto. apply IH in H. intuition. }
  induction d as [|[k0 v0] d IH]; simpl; intros ND.
  - constructor; [simpl; tauto | constructor].
  - inversion ND as [|? ? Hn ND']; subst.
    destruct (keq k k0) eqn:E; simpl.
    + constructor; auto.
    + constructor; auto. intros H. apply Hin in H. destruct H as [->|H]; auto.
      rewrite keq_refl in E. discriminate.
Qed.

Lemma dict_of_keys_NoDup (kvs : list (K * V)) :
  NoDup (dict_keys (dict_of keq kvs)).
Proof.
  unfold dict_of.
  assert (G : forall (d : dict K V), NoDup (dict_keys d) ->
            NoDup (dict_keys (fold_left (fun d kv => dict_set keq d (fst kv) (snd kv)) kvs d))).
  { induction kvs as [|[k v] kvs IH]; simpl; intros d ND; auto.
    apply IH. now apply dict_set_keys_NoDup. }
  apply G. constructor.
Qed.

Lemma dict_get_In (d : dict K V) k v :
  dict_get keq d k = Some v -> In (k, v) d.
Proof.
  induction d as [|[k0 v0] d IH]; simpl; [discriminate|].
  destruct (keq k k0) eqn:E.
  - intros [= ->]. apply keq_eq in E. subst. auto.
  - auto.
Qed.

Lemma dict_In_get (d : dict K V) k v :
  NoDup (dict_keys d) -> In (k, v) d -> dict_get keq d k = Some v.
Proof.
  unfold dict_keys. induction d as [|[k0 v0] d IH]; simpl; [tauto|].
  intros ND [H|H]; inversion ND as [|? ? Hn ND']; subst.
  - inversion H; subst. now rewrite keq_refl.
  - destruct (keq k k0) eqn:E; auto.
    apply keq_eq in E. subst k0. exfalso. apply Hn.
    change k with (fst (k, v)). now apply in_map.
Qed.
End DictFacts.

Lemma Zeqb_eq a b : Z.eqb a b = true <-> a = b.
Proof. apply Z.eqb_eq. Qed.

Lemma range2_even m : range2 (2 * m) = map (fun k => 2 * k)%nat (seq 0 m).
Proof.
  unfold range2. rewrite Nat.add_1_r, Nat.div2_succ_double. reflexivity.
Qed.

Lemma range2_odd m : range2 (2 * m + 1) = map (fun k => 2 * k)%nat (seq 0 (S m)).
Proof.
  unfold range2. replace (2 * m + 1 + 1)%nat with (2 * S m)%nat by lia.
  rewrite Nat.div2_double. reflexivity.
Qed.

Section Score.
Context {T : Type} (verdict : list T -> list T -> bool) (d : sentences T).

Lemma sentence_ids_present k :
  In k (sentence_ids_of d) -> dict_get Z.eqb d k <> None.
Proof.
  intros H. apply sorted_In in H. now apply (dict_get_key Z.eqb Zeqb_eq).
Qed.

Lemma score_pairs_even :
  Nat.even (List.length (sentence_ids_of d)) = true ->
  score_pairs verdict d
  = lift (scored (List.length (failing_pairs verdict d))
            (List.length (pairs_of (sentence_ids_of d)))
            (pair_names (failing_pairs verdict d))).
Proof.
  intros E. apply Nat.even_spec in E. destruct E as [m E].
  unfold score_pairs. fold (sentence_ids_of d). rewrite E.
  replace ((2 * m) mod 2)%nat with 0%nat
    by (symmetry; rewrite Nat.mul_comm; apply Nat.Div0.mod_mul).
  rewrite range2_even.
  pose proof (pair_loop_even verdict d m 0 [] (sentence_ids_of d) pair_init
                eq_refl E sentence_ids_present) as L.
  cbn [app] in L. rewrite L.
  unfold pairs_result, pair_init, lift, scored.
  cbn [bind io_monad result_monad ret total_pairs failed_pairs failed_pair_ids
       app Nat.eqb negb].
  rewrite !Z.add_0_l. fold (failing_pairs verdict d).
  destruct (failure_rate _ _); reflexivity.
Qed.

Lemma score_pairs_odd :
  Nat.odd (List.length (sentence_ids_of d)) = true ->
  score_pairs verdict d = ([P_uneven], Raise IndexError).
Proof.
  intros E. apply Nat.odd_spec in E. destruct E as [m E].
  unfold score_pairs. fold (sentence_ids_of d). rewrite E.
  replace ((2 * m + 1) mod 2)%nat with 1%nat
    by (symmetry; rewrite Nat.add_comm, Nat.mul_comm; apply Nat.Div0.mod_add).
  rewrite range2_odd.
  pose proof (pair_loop_odd verdict d m 0 [] (sentence_ids_of d) pair_init
                eq_refl E sentence_ids_present) as L.
  cbn [app] in L. rewrite L. reflexivity.
Qed.
End Score.

Section DictOf.
Context {K V : Type} (keq : K -> K -> bool).
Hypothesis keq_eq : forall a b, keq a b = true <-> a = b.

Lemma dict_set_In (d : dict K V) k v kv :
  In kv (dict_set keq d k v) -> In kv d \/ kv = (k, v).
Proof.
  induction d as [|[k0 v0] d IH]; simpl.
  - intuition.
  - destruct (keq k k0) eqn:E; simpl.
    + apply keq_eq in E. subst k0. intuition.
    + intuition.
Qed.

Lemma dict_set_fresh (d : dict K V) k v :
  ~ In k (dict_keys d) -> dict_set keq d k v = d ++ [(k, v)].
Proof.
  unfold dict_keys. induction d as [|[k0 v0] d IH]; simpl; intros N; auto.
  destruct (keq k k0) eqn:E.
  - apply keq_eq in E. subst. tauto.
  - f_equal. apply IH. tauto.
Qed.

Lemma dict_update_In (kvs : list (K * V)) : forall d kv,
  In kv (dict_update keq d kvs) -> In kv d \/ In kv kvs.
Proof.
  unfold dict_update.
  induction kvs as [|[k v] kvs IH]; simpl; intros d kv H; auto.
  apply IH in H. destruct H as [H|H]; auto.
  apply dict_set_In in H. intuition.
Qed.

Lemma dict_of_In (kvs : list (K * V)) kv :
  In kv (dict_of keq kvs) -> In kv kvs.
Proof.
  intros H. apply (dict_update_In kvs []) in H. destruct H as [[]|H]; auto.
Qed.

Lemma dict_update_get_other (kvs : list (K * V)) : forall d k,
  ~ In k (map fst kvs) ->
  dict_get keq (dict_update keq d kvs) k = dict_get keq d k.
Proof.
  unfold dict_update.
  induction kvs as [|[k0 v0] kvs IH]; simpl; intros d k N; auto.
  rewrite IH by tauto.
  apply (dict_get_set_other keq keq_eq). intros ->. tauto.
Qed.

(** The last write wins. *)
Lemma dict_of_last_write (kvs rest : list (K * V)) k v :
  ~ In k (map fst rest) ->
  dict_get keq (dict_of keq (kvs ++ (k, v) :: rest)) k = Some v.
Proof.
  intros N. unfold dict_of. rewrite fold_left_app. cbn [fold_left fst snd].
  change (fold_left _ rest ?d) with (dict_update keq d rest).
  rewrite dict_update_get_other by assumption.
  apply (dict_get_set_same keq keq_eq).
Qed.

Lemma dict_update_NoDup (kvs : list (K * V)) : forall d,
  NoDup (dict_keys d ++ map fst kvs) -> dict_update keq d kvs = d ++ kvs.
Proof.
  unfold dict_update.
  induction kvs as [|[k v] kvs IH]; simpl; intros d ND.
  - now rewrite app_nil_r.
  - rewrite dict_set_fresh.
    + rewrite IH.
      * now rewrite <- app_assoc.
      * unfold dict_keys in *. rewrite map_app, <- app_assoc. exact ND.
    + intros H. apply NoDup_remove_2 in ND. apply ND.
      apply in_or_app. auto.
Qed.

Lemma dict_of_NoDup (kvs : list (K * V)) :
  NoDup (map fst kvs) -> dict_of keq kvs = kvs.
Proof.
  intros ND. apply (dict_update_NoDup kvs []). exact ND.
Qed.

Lemma dict_get_present (d : dict K V) k v :
  dict_get keq d k = Some v -> In k (dict_keys d).
Proof.
  intros H. apply (dict_get_In keq keq_eq) in H.
  unfold dict_keys. change k with (fst (k, v)). now apply in_map.
Qed.
End DictOf.

Lemma Seqb_eq a b : String.eqb a b = true <-> a = b.
Proof. apply String.eqb_eq. Qed.

Lemma inv_scan_true first_sentence_data second_sentence_map :
  inv_scan first_sentence_data second_sentence_map = true <->
  exists gold system system2,
    In (gold, system) first_sentence_data
    /\ dict_get String.eqb second_sentence_map gold = Some system2
    /\ system <> system2.
Proof.
  induction first_sentence_data as [|[g s] rest IH]; simpl.
  - split; [discriminate | intros (? & ? & ? & [] & _)].
  - destruct (dict_get String.eqb second_sentence_map g) as [s2|] eqn:G.
    + destruct (String.eqb s s2) eqn:E; simpl.
      * apply String.eqb_eq in E. subst s2. rewrite IH. split.
        -- intros (g' & s' & s2' & Hin & Hg & N). exists g', s', s2'. auto.
        -- intros (g' & s' & s2' & [Heq|Hin] & Hg & N).
           ++ inversion Heq; subst. congruence.
           ++ exists g', s', s2'. auto.
      * apply String.eqb_neq in E. split; auto.
        intros _. exists g, s, s2. auto.
    + rewrite IH. split.
      * intros (g' & s' & s2' & Hin & Hg & N). exists g', s', s2'. auto.
      * intros (g' & s' & s2' & [Heq|Hin] & Hg & N).
        -- inversion Heq; subst. congruence.
        -- exists g', s', s2'. auto.
Qed.

Lemma dir_scan_true items second_sentence_map :
  dir_scan items second_sentence_map = true <->
  exists tok gold system gold2,
    In (tok, (gold, system)) items
    /\ dict_get String.eqb second_sentence_map tok = Some (gold2, system).
Proof.
  induction items as [|[t [g s]] rest IH]; simpl.
  - split; [discriminate | intros (? & ? & ? & ? & [] & _)].
  - destruct (dict_get String.eqb second_sentence_map t) as [[g2 s2]|] eqn:G.
    + destruct (String.eqb s s2) eqn:E.
      * apply String.eqb_eq in E. subst s2. split; auto.
        intros _. exists t, g, s, g2. auto.
      * apply String.eqb_neq in E. rewrite IH. split.
        -- intros (t' & g' & s' & g2' & Hin & Hg). exists t', g', s', g2'. auto.
        -- intros (t' & g' & s' & g2' & [Heq|Hin] & Hg).
           ++ inversion Heq; subst. congruence.
           ++ exists t', g', s', g2'. auto.
    + rewrite IH. split.
      * intros (t' & g' & s' & g2' & Hin & Hg). exists t', g', s', g2'. auto.
      * intros (t' & g' & s' & g2' & [Heq|Hin] & Hg).
        -- inversion Heq; subst. congruence.
        -- exists t', g', s', g2'. auto.
Qed.

Lemma dir_pair_failed_true A B :
  dir_pair_failed A B = true <->
  exists tok goldA goldB system,
    dict_get String.eqb (dict_of String.eqb A) tok = Some (goldA, system)
    /\ dict_get String.eqb (dict_of String.eqb B) tok = Some (goldB, system).
Proof.
  unfold dir_pair_failed. rewrite dir_scan_true. split.
  - intros (t & g & s & g2 & Hin & Hg). exists t, g, g2, s. split; auto.
    apply (dict_In_get String.eqb Seqb_eq); auto.
    apply (dict_of_keys_NoDup String.eqb Seqb_eq).
  - intros (t & g & g2 & s & Ha & Hb). exists t, g, s, g2. split; auto.
    now apply (dict_get_In String.eqb Seqb_eq).
Qed.

Lemma dir_no_common_token A B :
  (forall tok, In tok (map fst A) -> ~ In tok (map fst B)) ->
  dir_pair_failed A B = false.
Proof.
  intros H. destruct (dir_pair_failed A B) eqn:E; auto.
  apply dir_pair_failed_true in E. destruct E as (t & g & g2 & s & Ha & Hb).
  exfalso. apply (H t).
  - apply (dict_get_In String.eqb Seqb_eq) in Ha. apply dict_of_In in Ha; auto using Seqb_eq.
    change t with (fst (t, (g, s))). now apply in_map.
  - apply (dict_get_In String.eqb Seqb_eq) in Hb. apply dict_of_In in Hb; auto using Seqb_eq.
    change t with (fst (t, (g2, s))). now apply in_map.
Qed.

Lemma inv_pair_failed_tokens A B :
  inv_pair_failed A B = true <->
  exists gold system system2,
    In (gold, system) A
    /\ dict_get String.eqb (dict_of String.eqb B) gold = Some system2
    /\ system <> system2.
Proof. unfold inv_pair_failed. apply inv_scan_true. Qed.

Lemma inv_pair_failed_maps A B :
  NoDup (map fst A) ->
  (inv_pair_failed A B = true <->
   exists gold a b,
     dict_get String.eqb (dict_of String.eqb A) gold = Some a
     /\ dict_get String.eqb (dict_of String.eqb B) gold = Some b
     /\ a <> b).
Proof.
  intros ND. rewrite inv_pair_failed_tokens.
  rewrite (dict_of_NoDup String.eqb Seqb_eq A ND).
  split; intros (g & a & b & Ha & Hb & N); exists g, a, b; repeat split; auto.
  - now apply (dict_In_get String.eqb Seqb_eq).
  - now apply (dict_get_In String.eqb Seqb_eq).
Qed.

(** MFT *)

Lemma flagged_mono seen more s : flagged seen s -> flagged (seen ++ more) s.
Proof.
  intros (line & r & Hin & H). exists line, r. split; auto.
  apply in_or_app; auto.
Qed.

Lemma parse_row_cases line :
  (exists r, parse_row line = Ok r) \/ parse_row line = Raise ValueError.
Proof.
  unfold parse_row.
  destruct (split tab (strip line)) as [|a [|b [|c [|d [|e [|f l]]]]]]; eauto.
Qed.

Lemma mft_record_failure_ids st cur s :
  In s (failed_sentence_ids (mft_record_failure st cur)) ->
  In s (failed_sentence_ids st) \/ (sentence_labels_match st = false /\ s = cur).
Proof.
  unfold mft_record_failure. destruct (sentence_labels_match st) eqn:M; simpl; auto.
  intros H. apply in_app_or in H. destruct H as [H|[H|[]]]; auto.
Qed.

Lemma mft_step_inv seen st line st' :
  mft_inv seen st -> mft_step st line = Ok st' -> mft_inv (seen ++ [line]) st'.
Proof.
  intros [Ha Hb] Hs. unfold mft_step in Hs.
  destruct (is_blank line) eqn:B.
  - destruct (current_sentence_id st) as [cur|] eqn:C.
    + inversion Hs; subst; clear Hs. split; cbn [failed_sentence_ids sentence_labels_match].
      * intros s H. apply mft_record_failure_ids in H.
        cbn [failed_sentence_ids sentence_labels_match] in H.
        destruct H as [H|[M ->]].
        -- apply flagged_mono; auto.
        -- destruct (Hb M) as (cur' & E & F).
           assert (cur' = cur) by congruence. subst cur'.
           apply flagged_mono; auto.
      * discriminate.
    + inversion Hs; subst. split.
      * intros s H. apply flagged_mono; auto.
      * intros M. destruct (Hb M) as (cur & E & F). congruence.
  - destruct (parse_row line) as [r|e] eqn:P; cbn [bind result_monad] in Hs;
      [|discriminate].
    destruct (match current_sentence_id st with
              | Some cur => String.eqb (sentence_id r) cur
              | None => false end) eqn:Same.
    + destruct (current_sentence_id st) as [cur|] eqn:C; [|discriminate].
      apply String.eqb_eq in Same.
      destruct (negb (String.eqb (gold_label r) "_")
                && negb (String.eqb (gold_label r) (system_label r))) eqn:M;
        inversion Hs; subst; clear Hs.
      * split; cbn [failed_sentence_ids sentence_labels_match current_sentence_id].
        -- intros s H. apply flagged_mono; auto.
        -- intros _. exists (sentence_id r). split; auto.
           apply andb_prop in M. destruct M as [M1 M2].
           apply negb_true_iff in M1, M2.
           apply String.eqb_neq in M1, M2.
           exists line, r. repeat split; auto. apply in_or_app; simpl; auto.
      * split.
        -- intros s H. apply flagged_mono; auto.
        -- intros M'. destruct (Hb M') as (cur' & E & F). exists cur'.
           split; [congruence | apply flagged_mono; auto].
    + inversion Hs; subst; clear Hs.
      split; cbn [failed_sentence_ids sentence_labels_match current_sentence_id].
      * intros s H. destruct (current_sentence_id st) as [cur|] eqn:C.
        -- apply mft_record_failure_ids in H. destruct H as [H|[M ->]].
           ++ apply flagged_mono; auto.
           ++ destruct (Hb M) as (cur' & E & F).
              assert (cur' = cur) by congruence. subst cur'.
              apply flagged_mono; auto.
        -- apply flagged_mono; auto.
      * intros M. exists (sentence_id r). split; auto.
        apply orb_false_iff in M. destruct M as [M1 M2].
        apply String.eqb_neq in M1, M2.
        exists line, r. repeat split; auto. apply in_or_app; simpl; auto.
Qed.

Lemma mft_loop_inv lines : forall seen st st',
  mft_inv seen st -> for_each mft_step lines st = Ok st' ->
  mft_inv (seen ++ lines) st'.
Proof.
  induction lines as [|line lines IH]; intros seen st st' I H.
  - inversion H; subst. now rewrite app_nil_r.
  - cbn [for_each] in H. destruct (mft_step st line) as [st1|e] eqn:S;
      cbn [bind result_monad] in H; [|discriminate].
    replace (seen ++ line :: lines) with ((seen ++ [line]) ++ lines)
      by (rewrite <- app_assoc; reflexivity).
    eapply IH; eauto. eapply mft_step_inv; eauto.
Qed.

Lemma mft_scan_flagged lines st s :
  mft_scan lines = Ok st -> In s (failed_sentence_ids st) -> flagged lines s.
Proof.
  intros H Hin.
  assert (I0 : mft_inv [] mft_init).
  { split; simpl; [tauto | discriminate]. }
  destruct (mft_loop_inv lines [] mft_init st I0 H) as [Ha _]. auto.
Qed.

Lemma evaluate_mft_ok lines rate failed :
  evaluate_mft lines = Ok (rate, failed) ->
  exists st, mft_scan lines = Ok st /\ failed_sentence_ids st = failed
             /\ failure_rate (failed_sentences st) (total_sentences st) = Ok rate.
Proof.
  unfold evaluate_mft. destruct (mft_scan lines) as [st|e]; cbn [bind result_monad];
    [|discriminate].
  destruct (failure_rate _ _) as [r|e] eqn:F; cbn [bind result_monad ret];
    [|discriminate].
  intros H. inversion H; subst. exists st. auto.
Qed.

Lemma mft_step_total st line :
  is_blank line = true \/ (exists r, parse_row line = Ok r) ->
  exists st', mft_step st line = Ok st'.
Proof.
  intros H. unfold mft_step. destruct (is_blank line) eqn:B.
  - destruct (current_sentence_id st); eauto.
  - destruct H as [H|[r H]]; [discriminate|]. rewrite H. cbn [bind result_monad].
    destruct (match current_sentence_id st with
              | Some cur => String.eqb (sentence_id r) cur | None => false end).
    + destruct (negb _ && negb _); eauto.
    + eauto.
Qed.

Lemma mft_scan_total lines :
  (forall line, In line lines -> is_blank line = false ->
                exists r, parse_row line = Ok r) ->
  exists st, mft_scan lines = Ok st.
Proof.
  unfold mft_scan. generalize mft_init.
  induction lines as [|line lines IH]; intros st H; cbn [for_each].
  - eexists; reflexivity.
  - destruct (mft_step_total st line) as [st1 S].
    + destruct (is_blank line) eqn:B; auto. right. apply H; simpl; auto.
    + rewrite S. cbn [bind result_monad]. apply IH. intros l Hl. apply H. simpl; auto.
Qed.

Lemma failure_rate_zero_total failed :
  failure_rate failed 0 = Raise ZeroDivisionError.
Proof. reflexivity. Qed.

(** Reading *)

Section Reading.
Context {T : Type} (keep : row -> T).

Lemma read_step_blank d line :
  is_blank line = true -> read_step keep d line = Ok d.
Proof. intros B. unfold read_step. now rewrite B. Qed.

Lemma int_of_str_cases s :
  (exists z, int_of_str s = Ok z) \/ int_of_str s = Raise ValueError.
Proof.
  unfold int_of_str.
  destruct (match int_rstrip (int_lstrip s) with
            | String "-"%char r => option_map Z.opp (int_digits r 0 false)
            | String "+"%char r => int_digits r 0 false
            | _ => int_digits (int_rstrip (int_lstrip s)) 0 false end); eauto.
  destruct (count_digits (int_rstrip (int_lstrip s)) <=? max_str_digits)%N;
    eauto.
Qed.

Lemma read_step_raises d line e :
  read_step keep d line = Raise e -> e = ValueError.
Proof.
  unfold read_step. destruct (is_blank line); [discriminate|].
  destruct (parse_row_cases line) as [[r P]|P]; rewrite P; cbn [bind result_monad];
    [|congruence].
  destruct (int_of_str_cases (sentence_id r)) as [[z I]|I]; rewrite I;
    cbn [bind result_monad]; [|congruence].
  destruct (String.eqb (gold_label r) "_"); [discriminate|].
  unfold dict_mem.
  destruct (dict_get Z.eqb d z) eqn:G.
  - rewrite G. discriminate.
  - rewrite (dict_get_set_same Z.eqb Zeqb_eq). discriminate.
Qed.

Lemma read_step_bad d line :
  bad_sentence_id line -> read_step keep d line = Raise ValueError.
Proof.
  intros [B H]. unfold read_step. rewrite B.
  destruct (parse_row_cases line) as [[r P]|P]; rewrite P; cbn [bind result_monad];
    auto.
  rewrite (H r P). reflexivity.
Qed.

Lemma read_sentences_bad lines line :
  In line lines -> bad_sentence_id line ->
  read_sentences keep lines = Raise ValueError.
Proof.
  unfold read_sentences. generalize (@nil (Z * list T)).
  induction lines as [|x lines IH]; intros d Hin Hbad; [destruct Hin|].
  cbn [for_each]. destruct (read_step keep d x) as [d'|e] eqn:S;
    cbn [bind result_monad].
  - destruct Hin as [->|Hin].
    + rewrite read_step_bad in S by assumption. discriminate.
    + now apply IH.
  - apply read_step_raises in S. now subst.
Qed.

Lemma read_sentences_trailing_blank lines b :
  is_blank b = true ->
  read_sentences keep (lines ++ [b]) = read_sentences keep lines.
Proof.
  intros B. unfold read_sentences. rewrite for_each_app_result.
  destruct (for_each (read_step keep) lines []) as [d|e]; cbn [bind result_monad for_each];
    auto.
  rewrite read_step_blank by assumption. reflexivity.
Qed.

Lemma read_sentences_all_blank lines :
  (forall l, In l lines -> is_blank l = true) ->
  read_sentences keep lines = Ok [].
Proof.
  unfold read_sentences. generalize (@nil (Z * list T)).
  induction lines as [|x lines IH]; intros d H; cbn [for_each]; auto.
  rewrite read_step_blank by (apply H; simpl; auto).
  cbn [bind result_monad]. apply IH. intros l Hl. apply H. simpl; auto.
Qed.
End Reading.

Lemma mft_scan_all_blank lines :
  (forall l, In l lines -> is_blank l = true) -> mft_scan lines = Ok mft_init.
Proof.
  unfold mft_scan. induction lines as [|x lines IH]; intros H; cbn [for_each]; auto.
  unfold mft_step at 1. rewrite (H x) by (simpl; auto).
  cbn [current_sentence_id mft_init bind result_monad].
  apply IH. intros l Hl. apply H. simpl; auto.
Qed.

(** Batch *)

Lemma for_each_io_cons {A S} (body : S -> A -> io S) x xs st :
  for_each body (x :: xs) st
  = match body st x with
    | (out, Ok st') => let '(out', r) := for_each body xs st' in (out ++ out', r)
    | (out, Raise e) => (out, Raise e)
    end.
Proof. reflexivity. Qed.

Lemma for_each_io_abort {A S} (body : S -> A -> io S) pre x post :
  forall st out_pre st1 out e,
  for_each body pre st = (out_pre, Ok st1) ->
  body st1 x = (out, Raise e) ->
  for_each body (pre ++ x :: post) st = (out_pre ++ out, Raise e).
Proof.
  induction pre as [|y pre IH]; intros st out_pre st1 out e Hpre Hx.
  - cbn in Hpre. inversion Hpre; subst. cbn [app]. rewrite for_each_io_cons, Hx.
    reflexivity.
  - cbn [app]. rewrite for_each_io_cons in *.
    destruct (body st y) as [o [s|e']]; [|discriminate].
    destruct (for_each body pre s) as [o' r] eqn:F.
    inversion Hpre; subst.
    rewrite (IH s o' st1 out e F Hx). now rewrite app_assoc.
Qed.

Lemma for_each_io_ok {A S} (body : S -> A -> io S) xs :
  forall st out st', for_each body xs st = (out, Ok st') ->
  forall x, In x xs -> exists st0 o st1, body st0 x = (o, Ok st1).
Proof.
  induction xs as [|y xs IH]; intros st out st' H x Hin; [destruct Hin|].
  rewrite for_each_io_cons in H.
  destruct (body st y) as [o [s|e']] eqn:B; [|discriminate].
  destruct (for_each body xs s) as [o' r] eqn:F.
  inversion H; subst.
  destruct Hin as [->|Hin]; eauto.
Qed.

Lemma evaluate_names_abort fs output_dir pre f post out_pre out e :
  evaluate_names fs output_dir pre = (out_pre, Ok tt) ->
  endswith f ".tsv" = true ->
  evaluate_file fs (path_join output_dir f) = (out, Raise e) ->
  evaluate_names fs output_dir (pre ++ f :: post) = (out_pre ++ out, Raise e).
Proof.
  intros Hpre Hext Hf. unfold evaluate_names in *.
  eapply for_each_io_abort; eauto. cbn beta. now rewrite Hext.
Qed.

Lemma evaluate_model_ok fs output_dir out :
  evaluate_model fs tt output_dir = (out, Ok tt) ->
  exists names out',
    fs_listdir fs output_dir = Some names
    /\ evaluate_names fs output_dir
         (sorted String.leb
            (filter (fun f => negb (fs_isdir fs (path_join output_dir f))) names))
       = (out', Ok tt).
Proof.
  unfold evaluate_model, listdir, lift, print. cbn [bind io_monad].
  destruct (fs_listdir fs output_dir) as [names|]; [|discriminate].
  destruct (evaluate_names fs output_dir _) as [o [[]|e]] eqn:N; [|discriminate].
  intros _. eauto.
Qed.

Lemma main_ok_every_file fs out :
  main fs = (out, Ok tt) ->
  forall output_dir names f,
    In output_dir output_dirs ->
    fs_listdir fs output_dir = Some names ->
    In f names -> fs_isdir fs (path_join output_dir f) = false ->
    endswith f ".tsv" = true ->
    exists o, evaluate_file fs (path_join output_dir f) = (o, Ok tt).
Proof.
  intros H d names f Hd Hl Hf Hdir Hext. unfold main in H.
  destruct (for_each_io_ok _ _ _ _ _ H d Hd) as ([] & o & [] & Hm).
  apply evaluate_model_ok in Hm. destruct Hm as (names' & o' & Hl' & Hn).
  rewrite Hl in Hl'. inversion Hl'; subst names'.
  unfold evaluate_names in Hn.
  assert (Hin : In f (sorted String.leb
            (filter (fun f => negb (fs_isdir fs (path_join d f))) names))).
  { apply sorted_In. apply filter_In. split; auto. now rewrite Hdir. }
  destruct (for_each_io_ok _ _ _ _ _ Hn f Hin) as ([] & o1 & [] & Hb).
  cbn beta in Hb. rewrite Hext in Hb. eauto.
Qed.

Lemma evaluate_file_unknown fs file_path :
  contains "MFT" file_path = false -> contains "INV" file_path = false ->
  contains "DIR" file_path = false ->
  exists rest r, evaluate_file fs file_path = (P_unknown_type file_path :: rest, r).
Proof.
  intros H1 H2 H3. unfold evaluate_file. rewrite H1, H2, H3.
  cbn. eauto.
Qed.

(* ================================================================== *)
(** ** The pairing loop on an odd number of sentences *)

(** Whenever the number of retained sentences is odd, the pair scorers
    print the warning and raise [IndexError]. *)
Lemma odd_count_always_raises {T} (keep : row -> T)
  (verdict : list T -> list T -> bool) (lines : list string)
  (data : sentences T) :
  read_sentences keep lines = Ok data ->
  Nat.odd (List.length (sentence_ids_of data)) = true ->
  (sentences_data <- lift (read_sentences keep lines) ;;
   score_pairs verdict sentences_data) = ([P_uneven], Raise IndexError).
Proof.
  intros R O. rewrite R. unfold lift. cbn [bind io_monad].
  rewrite (score_pairs_odd verdict data O). reflexivity.
Qed.

(** C1.  An INV or DIR file with three retained sentences: the scorer
    prints the warning about the uneven count and then raises
    [IndexError] when it reaches the unpaired sentence; it neither drops
    that sentence nor returns a rate. *)
Theorem odd_sentence_count_raises :
  evaluate_inv three_sentences = ([P_uneven], Raise IndexError)
  /\ evaluate_dir three_sentences = ([P_uneven], Raise IndexError).
Proof. split; vm_compute; reflexivity. Qed.

(* ================================================================== *)
(** ** [evaluate_mft] *)

(** C2.  Where a sentence ends at a row with another id, [evaluate_mft]
    records its failure but does not count the sentence: after the two
    sentences of [mft_unseparated] the total is 1, and the rate is 100
    for one failure out of two. *)
Theorem mft_id_change_not_counted :
  mft_scan mft_unseparated = Ok (MftState (Some "2") true 1 1 ["1"])
  /\ evaluate_mft mft_unseparated = Ok (100, ["1"]).
Proof. split; vm_compute; reflexivity. Qed.

(** The two ways a sentence ends.  At a blank line the sentence is
    counted and, when flagged, recorded as failed. *)
Lemma mft_step_blank_line (st : mft_state) (line cur : string) :
  is_blank line = true -> current_sentence_id st = Some cur ->
  exists st',
    mft_step st line = Ok st'
    /\ total_sentences st' = total_sentences st + 1
    /\ failed_sentence_ids st'
       = (if sentence_labels_match st then failed_sentence_ids st
          else failed_sentence_ids st ++ [cur])
    /\ failed_sentences st'
       = (if sentence_labels_match st then failed_sentences st
          else failed_sentences st + 1).
Proof.
  intros B C. unfold mft_step, mft_record_failure. rewrite B, C.
  cbn [sentence_labels_match]. eexists. split; [reflexivity|].
  destruct (sentence_labels_match st); cbn; auto.
Qed.

(** At a row with another id the sentence is recorded as failed when
    flagged, and the count of sentences stays as it was. *)
Lemma mft_step_id_change (st : mft_state) (line cur : string) (r : row) :
  is_blank line = false -> parse_row line = Ok r ->
  current_sentence_id st = Some cur -> sentence_id r <> cur ->
  exists st',
    mft_step st line = Ok st'
    /\ total_sentences st' = total_sentences st
    /\ failed_sentence_ids st'
       = (if sentence_labels_match st then failed_sentence_ids st
          else failed_sentence_ids st ++ [cur])
    /\ failed_sentences st'
       = (if sentence_labels_match st then failed_sentences st
          else failed_sentences st + 1).
Proof.
  intros B P C N. unfold mft_step, mft_record_failure. rewrite B, P, C.
  cbn [bind result_monad]. apply String.eqb_neq in N. rewrite N.
  eexists. split; [reflexivity|].
  destruct (sentence_labels_match st); cbn; auto.
Qed.

(** With both sentences failing the rate is 200. *)
Lemma mft_rate_above_100 :
  evaluate_mft mft_unseparated_failing = Ok (200, ["1"; "2"]).
Proof. vm_compute; reflexivity. Qed.

(** C8.  An MFT file whose last sentence is not followed by a blank line
    loses that sentence: rate 0 and no failed id without the final blank
    line, rate 50 and the failed id with it. *)
Theorem mft_trailing_blank_matters :
  evaluate_mft mft_no_trailing_blank = Ok (0, [])
  /\ evaluate_mft (mft_no_trailing_blank ++ [""]) = Ok (50, ["2"]).
Proof. split; vm_compute; reflexivity. Qed.

(** The pair scorers skip blank lines, so a final blank line changes
    nothing for them. *)
Lemma trailing_blank_inv_dir (lines : list string) (b : string) :
  is_blank b = true ->
  evaluate_inv (lines ++ [b]) = evaluate_inv lines
  /\ evaluate_dir (lines ++ [b]) = evaluate_dir lines.
Proof.
  intros B. unfold evaluate_inv, evaluate_dir.
  now rewrite !read_sentences_trailing_blank.
Qed.

(** C9.  A sentence in which every token has its gold label equal to
    ["_"] or to its system label is not among the failed ids that
    [evaluate_mft] returns; a sentence all of whose gold labels are
    ["_"] is the special case. *)
Theorem mft_matching_sentence_not_failed (lines : list string) (rate : Z)
  (failed : list string) (s : string) :
  evaluate_mft lines = Ok (rate, failed) ->
  (forall line r,
     In line lines -> is_blank line = false -> parse_row line = Ok r ->
     sentence_id r = s ->
     gold_label r = "_" \/ gold_label r = system_label r) ->
  ~ In s failed.
Proof.
  intros E H Hin.
  destruct (evaluate_mft_ok lines rate failed E) as (st & Hscan & <- & _).
  destruct (mft_scan_flagged lines st s Hscan Hin)
    as (line & r & Hl & B & P & S & G1 & G2).
  destruct (H line r Hl B P S); contradiction.
Qed.

Lemma mft_matching_sentence_not_failed_witness :
  evaluate_mft mft_two_sentences = Ok (50, ["2"]) /\ ~ In "1" ["2"].
Proof.
  split; [vm_compute; reflexivity|].
  apply (mft_matching_sentence_not_failed mft_two_sentences 50 ["2"] "1").
  - vm_compute; reflexivity.
  - intros line r Hin B P S.
    destruct Hin as [<-|[<-|[<-|[<-|[<-|[]]]]]];
      vm_compute in B; try discriminate B;
      vm_compute in P; injection P as <-;
      vm_compute in S; try discriminate S; vm_compute; auto.
Defined.

(* ================================================================== *)
(** ** The failure rate *)

(** The example of the specification: one failure out of three. *)
Lemma rate_1_of_3 : failure_rate 1 3 = Ok 33.
Proof. vm_compute; reflexivity. Qed.

(** C5.  Fifty INV pairs of which twenty-nine fail: the rate returned is
    57, while the floor of 100 * 29 / 50 is 58.  The quotient 29 / 50 is
    the double just below 0.58, its product with 100 the double just
    below 58, and [int] truncates. *)
Theorem rate_29_of_50_is_57 :
  evaluate_inv inv_29_of_50 = ([], Ok (57, names_29))
  /\ List.length names_29 = 29%nat
  /\ failure_rate 29 50 = Ok 57
  /\ 100 * 29 / 50 = 58.
Proof. repeat split; vm_compute; reflexivity. Qed.

(** C7.  A file without a counted sentence (MFT) or without a retained
    sentence (INV, DIR), the empty file among them, makes the scorer
    raise [ZeroDivisionError] at the division. *)
Theorem empty_input_zero_division (lines : list string) :
  (forall st, mft_scan lines = Ok st -> total_sentences st = 0 ->
              evaluate_mft lines = Raise ZeroDivisionError)
  /\ (read_sentences inv_keep lines = Ok [] ->
      evaluate_inv lines = ([], Raise ZeroDivisionError))
  /\ (read_sentences dir_keep lines = Ok [] ->
      evaluate_dir lines = ([], Raise ZeroDivisionError))
  /\ ((forall l, In l lines -> is_blank l = true) ->
      evaluate_mft lines = Raise ZeroDivisionError
      /\ evaluate_inv lines = ([], Raise ZeroDivisionError)
      /\ evaluate_dir lines = ([], Raise ZeroDivisionError)).
Proof.
  assert (M : forall st, mft_scan lines = Ok st -> total_sentences st = 0 ->
                         evaluate_mft lines = Raise ZeroDivisionError).
  { intros st S Z0. unfold evaluate_mft. rewrite S. cbn [bind result_monad].
    rewrite Z0, failure_rate_zero_total. reflexivity. }
  assert (I : read_sentences inv_keep lines = Ok [] ->
              evaluate_inv lines = ([], Raise ZeroDivisionError)).
  { intros R. unfold evaluate_inv. rewrite R. reflexivity. }
  assert (D : read_sentences dir_keep lines = Ok [] ->
              evaluate_dir lines = ([], Raise ZeroDivisionError)).
  { intros R. unfold evaluate_dir. rewrite R. reflexivity. }
  repeat split; auto.
  - apply (M mft_init); [now apply mft_scan_all_blank | reflexivity].
  - apply I. now apply read_sentences_all_blank.
  - apply D. now apply read_sentences_all_blank.
Qed.

Lemma empty_input_zero_division_witness :
  evaluate_mft [] = Raise ZeroDivisionError
  /\ evaluate_inv [] = ([], Raise ZeroDivisionError)
  /\ evaluate_dir [] = ([], Raise ZeroDivisionError).
Proof.
  destruct (empty_input_zero_division []) as (M & I & D & _).
  split; [|split].
  - apply (M mft_init); reflexivity.
  - apply I; reflexivity.
  - apply D; reflexivity.
Defined.

(* ================================================================== *)
(** ** The verdict on a pair *)

(** C4, the case the specification's condition misses: the gold label
    ARG0 occurs twice in sentence 10, with system labels X and Y, and
    once in sentence 11, with Y.  The two maps agree on ARG0, yet the
    pair fails, on the first token of sentence 10. *)
Lemma inv_repeated_gold_fails :
  read_sentences inv_keep inv_repeated_gold
  = Ok [ (10, [("ARG0", "X"); ("ARG0", "Y")]); (11, [("ARG0", "Y")]) ]
  /\ evaluate_inv inv_repeated_gold = ([], Ok (100, ["10-11"]))
  /\ ~ (exists gold a b,
          dict_get String.eqb
            (dict_of String.eqb [("ARG0", "X"); ("ARG0", "Y")]) gold = Some a
          /\ dict_get String.eqb
               (dict_of String.eqb [("ARG0", "Y")]) gold = Some b
          /\ a <> b).
Proof.
  split; [vm_compute; reflexivity|].
  split; [vm_compute; reflexivity|].
  intros (gold & a & b & Ha & Hb & N).
  cbn in Ha, Hb. destruct (String.eqb gold "ARG0"); congruence.
Qed.

(** C4.  For an INV file with an even number of retained sentences, the
    scorer returns the names of the failing pairs in pairing order with
    the rate of their count; a pair (A, B) fails exactly when some
    retained token (gold, system) of A has its gold label in the map of
    B with another system label there; when no gold label repeats within
    A, that is the condition on the two maps. *)
Theorem inv_pair_verdict (lines : list string) (data : sentences inv_token) :
  read_sentences inv_keep lines = Ok data ->
  Nat.even (List.length (sentence_ids_of data)) = true ->
  evaluate_inv lines
  = lift (scored (List.length (failing_pairs inv_pair_failed data))
            (List.length (pairs_of (sentence_ids_of data)))
            (pair_names (failing_pairs inv_pair_failed data)))
  /\ (forall A B,
        inv_pair_failed A B = true <->
        exists gold system system2,
          In (gold, system) A
          /\ dict_get String.eqb (dict_of String.eqb B) gold = Some system2
          /\ system <> system2)
  /\ (forall A B,
        NoDup (map fst A) ->
        (inv_pair_failed A B = true <->
         exists gold a b,
           dict_get String.eqb (dict_of String.eqb A) gold = Some a
           /\ dict_get String.eqb (dict_of String.eqb B) gold = Some b
           /\ a <> b)).
Proof.
  intros R E. split; [|split].
  - unfold evaluate_inv. rewrite R. unfold lift at 1. cbn [bind io_monad].
    rewrite (score_pairs_even inv_pair_failed data E).
    unfold lift. destruct (scored _ _ _); reflexivity.
  - apply inv_pair_failed_tokens.
  - apply inv_pair_failed_maps.
Qed.

Lemma inv_pair_verdict_witness :
  evaluate_inv inv_pair_10_11 = lift (scored 1 1 ["10-11"]).
Proof.
  destruct (inv_pair_verdict inv_pair_10_11 inv_pair_10_11_data) as [H _].
  - vm_compute; reflexivity.
  - vm_compute; reflexivity.
  - exact H.
Defined.

(* ================================================================== *)
(** ** Lemmas on the layout of the files *)

Import Layout Samples.


(** *** [evaluate_mft] on sentences that end with a blank line *)

Lemma mft_rows_same_id (s : string) (rows : list string) :
  (forall l, In l rows -> is_blank l = false
             /\ exists r, parse_row l = Ok r /\ sentence_id r = s) ->
  forall flag t f ids,
  for_each mft_step rows (MftState (Some s) flag t f ids)
  = Ok (MftState (Some s) (flag && negb (existsb row_mismatch rows)) t f ids).
Proof.
  induction rows as [|l rows IH]; intros H flag t f ids.
  - cbn. now rewrite andb_true_r.
  - destruct (H l (or_introl eq_refl)) as (B & r & P & S).
    cbn [for_each]. unfold mft_step at 1. rewrite B, P.
    cbn [bind result_monad current_sentence_id].
    rewrite S, String.eqb_refl.
    cbn [existsb]. unfold row_mismatch at 1. rewrite P.
    destruct (negb (String.eqb (gold_label r) "_")
              && negb (String.eqb (gold_label r) (system_label r))) eqn:M.
    + cbn [total_sentences failed_sentences failed_sentence_ids current_sentence_id].
      rewrite IH by (intros; apply H; simpl; auto).
      cbn. now rewrite andb_false_r.
    + destruct (MftState (Some s) flag t f ids) eqn:E.
      inversion E; subst. rewrite IH by (intros; apply H; simpl; auto).
      cbn. reflexivity.
Qed.

Lemma mft_block (b : block) (cur : option string) t f ids :
  well_formed_block b ->
  for_each mft_step (block_lines b) (MftState cur true t f ids)
  = Ok (MftState (Some (b_id b)) true (t + 1)
          (if block_fails b then f + 1 else f)
          (if block_fails b then ids ++ [b_id b] else ids)).
Proof.
  intros (NE & BE & H). unfold block_lines.
  rewrite for_each_app_result.
  assert (R : for_each mft_step (b_rows b) (MftState cur true t f ids)
              = Ok (MftState (Some (b_id b)) (negb (block_fails b)) t f ids)).
  { destruct (b_rows b) as [|l rows] eqn:Rows; [contradiction|].
    destruct (H l (or_introl eq_refl)) as (B & r & P & S).
    assert (Same : (match cur with Some c => String.eqb (sentence_id r) c | None => false end) = true
                   -> cur = Some (b_id b)).
    { destruct cur as [c|]; [|discriminate]. intros E.
      apply String.eqb_eq in E. congruence. }
    destruct (match cur with Some c => String.eqb (sentence_id r) c | None => false end) eqn:E.
    - rewrite (Same eq_refl).
      rewrite (mft_rows_same_id (b_id b) (l :: rows)) by (intros; apply H; auto).
      unfold block_fails. rewrite Rows. reflexivity.
    - cbn [for_each]. unfold mft_step at 1. rewrite B, P.
      cbn [bind result_monad current_sentence_id]. rewrite E.
      assert (St1 : match cur with
                    | Some c => mft_record_failure (MftState cur true t f ids) c
                    | None => MftState cur true t f ids end
                    = MftState cur true t f ids).
      { destruct cur; reflexivity. }
      rewrite St1. cbn [total_sentences failed_sentences failed_sentence_ids].
      rewrite S.
      rewrite mft_rows_same_id by (intros; apply H; simpl; auto).
      unfold block_fails. rewrite Rows. cbn [existsb].
      unfold row_mismatch at 2. rewrite P.
      f_equal. f_equal.
      destruct (String.eqb (gold_label r) "_"), (String.eqb (gold_label r) (system_label r));
        cbn; auto. }
  rewrite R. cbn [bind result_monad for_each].
  unfold mft_step. rewrite BE. cbn [current_sentence_id].
  unfold mft_record_failure. cbn [sentence_labels_match].
  destruct (block_fails b); cbn; reflexivity.
Qed.

Lemma mft_blocks (bs : list block) : forall cur t f ids,
  Forall well_formed_block bs ->
  for_each mft_step (file_of_blocks bs) (MftState cur true t f ids)
  = Ok (MftState (last_id cur bs) true (t + Z.of_nat (List.length bs))
          (f + Z.of_nat (List.length (filter block_fails bs)))
          (ids ++ map b_id (filter block_fails bs))).
Proof.
  induction bs as [|b bs IH]; intros cur t f ids W.
  - cbn. rewrite !Z.add_0_r, app_nil_r. reflexivity.
  - inversion W as [|? ? Wb Wbs]; subst.
    cbn [file_of_blocks flat_map]. rewrite for_each_app_result.
    rewrite (mft_block b cur t f ids Wb). cbn [bind result_monad].
    fold (file_of_blocks bs). rewrite IH by assumption.
    f_equal. 
    assert (L : last_id (Some (b_id b)) bs = last_id cur (b :: bs)).
    { unfold last_id. cbn [rev]. destruct (rev bs); reflexivity. }
    rewrite L. cbn [filter]. destruct (block_fails b); cbn [List.length map];
      rewrite <- ?app_assoc; f_equal; lia.
Qed.

(** X1.  On a file made of sentences that each end with one blank line,
    every sentence having at least one row and all its rows carrying its
    id, [evaluate_mft] counts every sentence and returns the ids of the
    sentences with a mismatching row, in file order, with the rate of
    their count. *)
Theorem mft_scores_blocks (bs : list block) :
  Forall well_formed_block bs ->
  evaluate_mft (file_of_blocks bs)
  = scored (List.length (filter block_fails bs)) (List.length bs)
      (map b_id (filter block_fails bs)).
Proof.
  intros W. unfold evaluate_mft, mft_scan, mft_init.
  rewrite (mft_blocks bs None 0 0 [] W). reflexivity.
Qed.

(** *** The counters of [evaluate_mft] on any input *)

Lemma mft_counters_step seen_row st line st' :
  (current_sentence_id st = None <-> seen_row = false) ->
  failed_sentences st = Z.of_nat (List.length (failed_sentence_ids st)) ->
  mft_step st line = Ok st' ->
  (current_sentence_id st' = None
   <-> (if is_blank line then seen_row else true) = false)
  /\ failed_sentences st' = Z.of_nat (List.length (failed_sentence_ids st'))
  /\ total_sentences st'
     = total_sentences st
       + (if is_blank line then (if seen_row then 1 else 0) else 0).
Proof.
  intros C F S. unfold mft_step in S. destruct (is_blank line) eqn:B.
  - destruct (current_sentence_id st) as [cur|] eqn:Cur.
    + inversion S; subst; clear S. unfold mft_record_failure.
      cbn [sentence_labels_match total_sentences failed_sentences
           failed_sentence_ids current_sentence_id].
      assert (seen_row = true).
      { destruct seen_row; auto. destruct C as [_ C]. discriminate (C eq_refl). }
      subst seen_row.
      destruct (sentence_labels_match st);
        cbn [sentence_labels_match total_sentences failed_sentences
             failed_sentence_ids current_sentence_id].
      * rewrite ?Cur. repeat split; auto; discriminate.
      * rewrite ?Cur, length_app, Nat2Z.inj_add, F. cbn.
        repeat split; auto; discriminate.
    + inversion S; subst; clear S.
      assert (seen_row = false) by (now apply C). subst seen_row.
      rewrite ?Cur, Z.add_0_r. repeat split; auto.
  - destruct (parse_row line) as [r|e]; cbn [bind result_monad] in S;
      [|discriminate].
    destruct (match current_sentence_id st with
              | Some cur => String.eqb (sentence_id r) cur
              | None => false end) eqn:Same.
    + destruct (current_sentence_id st) as [cur|] eqn:Cur; [|discriminate].
      destruct (negb _ && negb _); inversion S; subst; clear S;
        cbn [sentence_labels_match total_sentences failed_sentences
             failed_sentence_ids current_sentence_id];
        rewrite ?Cur, Z.add_0_r; repeat split; auto; discriminate.
    + inversion S; subst; clear S.
      cbn [sentence_labels_match total_sentences failed_sentences
           failed_sentence_ids current_sentence_id].
      rewrite Z.add_0_r.
      destruct (current_sentence_id st) as [cur|]; unfold mft_record_failure;
        [destruct (sentence_labels_match st)|];
        cbn [sentence_labels_match total_sentences failed_sentences
             failed_sentence_ids current_sentence_id];
        rewrite ?length_app, ?Nat2Z.inj_add, ?F; cbn;
        repeat split; auto; discriminate.
Qed.

Lemma mft_counters_loop lines : forall seen_row st st',
  (current_sentence_id st = None <-> seen_row = false) ->
  failed_sentences st = Z.of_nat (List.length (failed_sentence_ids st)) ->
  for_each mft_step lines st = Ok st' ->
  failed_sentences st' = Z.of_nat (List.length (failed_sentence_ids st'))
  /\ total_sentences st'
     = total_sentences st + Z.of_nat (counted_blanks seen_row lines).
Proof.
  induction lines as [|l lines IH]; intros seen_row st st' C F H.
  - inversion H; subst. cbn. rewrite Z.add_0_r. auto.
  - cbn [for_each] in H. destruct (mft_step st l) as [st1|e] eqn:S;
      cbn [bind result_monad] in H; [|discriminate].
    destruct (mft_counters_step seen_row st l st1 C F S) as (C1 & F1 & T1).
    cbn [counted_blanks]. destruct (is_blank l).
    + destruct (IH seen_row st1 st' C1 F1 H) as (F' & T').
      split; auto. rewrite T', T1. destruct seen_row; cbn [Nat.add]; lia.
    + destruct (IH true st1 st' C1 F1 H) as (F' & T').
      split; auto. rewrite T', T1. lia.
Qed.

(** X2.  On any file that [evaluate_mft] reads to the end, the total is
    the number of blank lines that come after the first row, whatever
    the sentences are, and the failure counter is the number of ids
    recorded. *)
Theorem mft_counts_blank_lines (lines : list string) (st : mft_state) :
  mft_scan lines = Ok st ->
  total_sentences st = Z.of_nat (counted_blanks false lines)
  /\ failed_sentences st = Z.of_nat (List.length (failed_sentence_ids st)).
Proof.
  intros H.
  destruct (mft_counters_loop lines false mft_init st) as (F & T); auto.
  cbn. tauto.
Qed.

(** *** The reading loop of [evaluate_inv] and [evaluate_dir] *)

Lemma sentence_of_set_same {T} (d : sentences T) k v :
  sentence_of (dict_set Z.eqb d k v) k = v.
Proof. unfold sentence_of. now rewrite (dict_get_set_same Z.eqb Zeqb_eq). Qed.

Lemma sentence_of_set_other {T} (d : sentences T) k k' v :
  k' <> k -> sentence_of (dict_set Z.eqb d k v) k' = sentence_of d k'.
Proof.
  intros N. unfold sentence_of.
  now rewrite (dict_get_set_other Z.eqb Zeqb_eq).
Qed.

Lemma dict_set_keys {T} (d : sentences T) k v x :
  In x (dict_keys (dict_set Z.eqb d k v)) <-> x = k \/ In x (dict_keys d).
Proof.
  unfold dict_keys. induction d as [|[k0 v0] d IH]; cbn [dict_set map In fst].
  - intuition.
  - destruct (Z.eqb k k0) eqn:E; cbn [map In fst].
    + apply Z.eqb_eq in E. subst. intuition.
    + rewrite IH. intuition.
Qed.

Lemma dict_get_absent {T} (d : sentences T) k :
  dict_get Z.eqb d k = None -> ~ In k (dict_keys d).
Proof.
  intros G H. now apply (dict_get_key Z.eqb Zeqb_eq) in H.
Qed.

Section ReadSpec.
Context {T : Type} (keep : row -> T).

Lemma read_step_spec (d d' : sentences T) (line : string) :
  read_step keep d line = Ok d' ->
  NoDup (dict_keys d) ->
  (forall k, sentence_of d' k = sentence_of d k ++ retained keep k line)
  /\ NoDup (dict_keys d')
  /\ (forall k, In k (dict_keys d') <->
                In k (dict_keys d) \/ retained keep k line <> []).
Proof.
  intros S ND. unfold read_step in S.
  destruct (is_blank line) eqn:B.
  { assert (R : forall k, retained keep k line = [])
      by (intros k; unfold retained; now rewrite B).
    inversion S; subst. repeat split; auto.
    - intros k. now rewrite R, app_nil_r.
    - intros [H|H]; auto. now rewrite R in H. }
  destruct (parse_row line) as [r|e] eqn:P; cbn [bind result_monad] in S;
    [|discriminate].
  destruct (int_of_str (sentence_id r)) as [z|e] eqn:I;
    cbn [bind result_monad] in S; [|discriminate].
  destruct (String.eqb (gold_label r) "_") eqn:Gd.
  { assert (R : forall k, retained keep k line = [])
      by (intros k; unfold retained; rewrite B, P, I, Gd; now rewrite andb_false_r).
    inversion S; subst. repeat split; auto.
    - intros k. now rewrite R, app_nil_r.
    - intros [H|H]; auto. now rewrite R in H. }
  assert (R : forall k, retained keep k line
                        = if Z.eqb z k then [keep r] else []).
  { intros k. unfold retained. rewrite B, P, I, Gd. cbn [negb].
    now rewrite andb_true_r. }
  assert (Sid : forall k, retained keep k line <> [] <-> k = z).
  { intros k. rewrite R. destruct (Z.eqb z k) eqn:E.
    - apply Z.eqb_eq in E. split; [auto | discriminate].
    - apply Z.eqb_neq in E. split; [congruence | intros ->; congruence]. }
  unfold dict_mem in S.
  destruct (dict_get Z.eqb d z) as [toks|] eqn:G.
  - rewrite G in S. inversion S; subst; clear S. repeat split.
    + intros k. rewrite R. destruct (Z.eqb z k) eqn:E.
      * apply Z.eqb_eq in E. subst k. rewrite sentence_of_set_same.
        unfold sentence_of. now rewrite G.
      * apply Z.eqb_neq in E. rewrite sentence_of_set_other by congruence.
        now rewrite app_nil_r.
    + now apply (dict_set_keys_NoDup Z.eqb Zeqb_eq).
    + intros H. apply dict_set_keys in H. destruct H as [->|H]; auto.
      right. now apply Sid.
    + intros [H|H]; apply dict_set_keys; auto. left. now apply Sid.
  - rewrite (dict_get_set_same Z.eqb Zeqb_eq) in S. inversion S; subst; clear S.
    repeat split.
    + intros k. rewrite R. destruct (Z.eqb z k) eqn:E.
      * apply Z.eqb_eq in E. subst k. rewrite sentence_of_set_same.
        unfold sentence_of. now rewrite G.
      * apply Z.eqb_neq in E. rewrite !sentence_of_set_other by congruence.
        now rewrite app_nil_r.
    + now apply (dict_set_keys_NoDup Z.eqb Zeqb_eq),
                (dict_set_keys_NoDup Z.eqb Zeqb_eq).
    + intros H. rewrite !dict_set_keys in H.
      destruct H as [->|[->|H]]; auto; right; now apply Sid.
    + intros [H|H]; rewrite !dict_set_keys; auto. left. now apply Sid.
Qed.

Lemma read_loop_spec (lines : list string) : forall (d d' : sentences T),
  for_each (read_step keep) lines d = Ok d' ->
  NoDup (dict_keys d) ->
  (forall k, sentence_of d' k = sentence_of d k ++ retained_of keep lines k)
  /\ NoDup (dict_keys d')
  /\ (forall k, In k (dict_keys d') <->
                In k (dict_keys d) \/ retained_of keep lines k <> []).
Proof.
  unfold retained_of.
  induction lines as [|l lines IH]; intros d d' H ND.
  - inversion H; subst. cbn. repeat split; auto.
    + intros k. now rewrite app_nil_r.
    + intuition.
  - cbn [for_each] in H. destruct (read_step keep d l) as [d1|e] eqn:S;
      cbn [bind result_monad] in H; [|discriminate].
    destruct (read_step_spec d d1 l S ND) as (A1 & N1 & K1).
    destruct (IH d1 d' H N1) as (A2 & N2 & K2).
    cbn [flat_map]. repeat split; auto.
    + intros k. now rewrite A2, A1, app_assoc.
    + intros Hk. apply K2 in Hk. destruct Hk as [Hk|Hk].
      * apply K1 in Hk. destruct Hk as [Hk|Hk]; auto.
        right. destruct (retained keep k l); [congruence | discriminate].
      * right. destruct (retained keep k l); auto. discriminate.
    + intros [Hk|Hk]; apply K2.
      * left. apply K1. auto.
      * destruct (retained keep k l) eqn:R.
        -- right. exact Hk.
        -- left. apply K1. right. rewrite R. discriminate.
Qed.

Lemma read_groups (lines : list string) (data : sentences T) :
  read_sentences keep lines = Ok data ->
  (forall k, sentence_of data k = retained_of keep lines k)
  /\ NoDup (dict_keys data)
  /\ (forall k, In k (dict_keys data) <-> retained_of keep lines k <> []).
Proof.
  intros H. destruct (read_loop_spec lines [] data H) as (A & N & K).
  - constructor.
  - repeat split; auto.
    + intros Hk. apply K in Hk. destruct Hk as [[]|Hk]; auto.
    + intros Hk. apply K. auto.
Qed.
End ReadSpec.

(** *** The sorted ids *)

Lemma insert_sorted_HdRel y x ys :
  HdRel Z.lt y ys -> y < x -> HdRel Z.lt y (insert_sorted Z.leb x ys).
Proof.
  intros H L. destruct ys as [|z zs]; cbn.
  - now constructor.
  - destruct (Z.leb x z); constructor; auto. now inversion H.
Qed.

Lemma insert_sorted_strict x xs :
  Sorted Z.lt xs -> ~ In x xs -> Sorted Z.lt (insert_sorted Z.leb x xs).
Proof.
  induction xs as [|y ys IH]; intros S N; cbn.
  - repeat constructor.
  - inversion S as [|? ? S' H]; subst.
    destruct (Z.leb x y) eqn:E.
    + apply Z.leb_le in E. constructor; auto. constructor.
      assert (x <> y) by (intros ->; apply N; simpl; auto). lia.
    + apply Z.leb_gt in E. constructor.
      * apply IH; auto. intros Hin. apply N. simpl; auto.
      * now apply insert_sorted_HdRel.
Qed.

Lemma sorted_strict xs : NoDup xs -> Sorted Z.lt (sorted Z.leb xs).
Proof.
  induction xs as [|x xs IH]; intros ND.
  - constructor.
  - change (sorted Z.leb (x :: xs))
      with (insert_sorted Z.leb x (sorted Z.leb xs)).
    inversion ND; subst. apply insert_sorted_strict; auto.
    now rewrite sorted_In.
Qed.

Lemma strict_sorted_unique (l1 : list Z) : forall l2,
  Sorted Z.lt l1 -> Sorted Z.lt l2 ->
  (forall x, In x l1 <-> In x l2) -> l1 = l2.
Proof.
  induction l1 as [|a l1 IH]; intros l2 S1 S2 E.
  - destruct l2 as [|b l2]; auto. exfalso. apply (E b). simpl; auto.
  - destruct l2 as [|b l2]; [exfalso; apply (E a); simpl; auto|].
    apply Sorted_StronglySorted in S1; [|intros ? ? ?; apply Z.lt_trans].
    apply Sorted_StronglySorted in S2; [|intros ? ? ?; apply Z.lt_trans].
    inversion S1 as [|? ? T1 F1]; subst. inversion S2 as [|? ? T2 F2]; subst.
    rewrite Forall_forall in F1, F2.
    assert (a = b).
    { destruct (proj1 (E a) (or_introl eq_refl)) as [->|Ha]; auto.
      destruct (proj2 (E b) (or_introl eq_refl)) as [->|Hb]; auto.
      apply F2 in Ha. apply F1 in Hb. lia. }
    subst b. f_equal. apply IH.
    + now apply StronglySorted_Sorted.
    + now apply StronglySorted_Sorted.
    + intros x. split; intros Hx.
      * destruct (proj1 (E x) (or_intror Hx)) as [->|H]; auto.
        apply F1 in Hx. lia.
      * destruct (proj2 (E x) (or_intror Hx)) as [->|H]; auto.
        apply F2 in Hx. lia.
Qed.

Lemma ids_strict {T} (keep : row -> T)
  (lines : list string) (data : sentences T) :
  read_sentences keep lines = Ok data ->
  Sorted Z.lt (sentence_ids_of data)
  /\ (forall k, In k (sentence_ids_of data) <-> retained_of keep lines k <> []).
Proof.
  intros H. destruct (read_groups keep lines data H) as (A & N & K).
  split.
  - now apply sorted_strict.
  - intros k. unfold sentence_ids_of. rewrite sorted_In. apply K.
Qed.

(** *** The order of the sentences in the file *)

Lemma score_pairs_same {T} (verdict : list T -> list T -> bool)
  (d1 d2 : sentences T) :
  sentence_ids_of d1 = sentence_ids_of d2 ->
  (forall k, sentence_of d1 k = sentence_of d2 k) ->
  score_pairs verdict d1 = score_pairs verdict d2.
Proof.
  intros I S.
  assert (F : failing_pairs verdict d1 = failing_pairs verdict d2).
  { unfold failing_pairs. rewrite I. apply filter_ext. intros p.
    unfold pair_fails. now rewrite !S. }
  destruct (Nat.even (List.length (sentence_ids_of d1))) eqn:E.
  - rewrite (score_pairs_even verdict d1 E).
    rewrite I in E. rewrite (score_pairs_even verdict d2 E).
    now rewrite F, I.
  - assert (O : Nat.odd (List.length (sentence_ids_of d1)) = true)
      by (unfold Nat.odd; now rewrite E).
    rewrite (score_pairs_odd verdict d1 O).
    rewrite I in O. now rewrite (score_pairs_odd verdict d2 O).
Qed.

Lemma read_same_groups {T} (keep : row -> T) (lines1 lines2 : list string)
  (d1 d2 : sentences T) (verdict : list T -> list T -> bool) :
  read_sentences keep lines1 = Ok d1 ->
  read_sentences keep lines2 = Ok d2 ->
  (forall k, retained_of keep lines1 k = retained_of keep lines2 k) ->
  score_pairs verdict d1 = score_pairs verdict d2.
Proof.
  intros R1 R2 E.
  destruct (read_groups keep lines1 d1 R1) as (A1 & _ & _).
  destruct (read_groups keep lines2 d2 R2) as (A2 & _ & _).
  destruct (ids_strict keep lines1 d1 R1) as (S1 & K1).
  destruct (ids_strict keep lines2 d2 R2) as (S2 & K2).
  apply score_pairs_same.
  - apply strict_sorted_unique; auto.
    intros x. rewrite K1, K2, E. reflexivity.
  - intros k. now rewrite A1, A2, E.
Qed.

(** X5.  Two files that hold, for every integer id, the same retained
    tokens in the same order get the same result from [evaluate_inv] and
    from [evaluate_dir]: the order of the sentences in the file and the
    rows that are not retained play no part. *)
Theorem pair_scores_ignore_file_order (lines1 lines2 : list string) :
  (forall d1 d2,
     read_sentences inv_keep lines1 = Ok d1 ->
     read_sentences inv_keep lines2 = Ok d2 ->
     (forall k, retained_of inv_keep lines1 k = retained_of inv_keep lines2 k) ->
     evaluate_inv lines1 = evaluate_inv lines2)
  /\ (forall d1 d2,
        read_sentences dir_keep lines1 = Ok d1 ->
        read_sentences dir_keep lines2 = Ok d2 ->
        (forall k, retained_of dir_keep lines1 k = retained_of dir_keep lines2 k) ->
        evaluate_dir lines1 = evaluate_dir lines2).
Proof.
  split; intros d1 d2 R1 R2 E.
  - unfold evaluate_inv. rewrite R1, R2. unfold lift. cbn [bind io_monad].
    now rewrite (read_same_groups inv_keep lines1 lines2 d1 d2 inv_pair_failed R1 R2 E).
  - unfold evaluate_dir. rewrite R1, R2. unfold lift. cbn [bind io_monad].
    now rewrite (read_same_groups dir_keep lines1 lines2 d1 d2 dir_pair_failed R1 R2 E).
Qed.

(** *** Verdicts *)

(** X6.  An INV pair whose sentences have no gold label in common
    passes. *)
Theorem inv_no_common_gold_passes (A B : list inv_token) :
  (forall gold, In gold (map fst A) -> ~ In gold (map fst B)) ->
  inv_pair_failed A B = false.
Proof.
  intros H. destruct (inv_pair_failed A B) eqn:E; auto.
  apply inv_pair_failed_tokens in E. destruct E as (g & s & s2 & Ha & Hb & _).
  exfalso. apply (H g).
  - change g with (fst (g, s)). now apply in_map.
  - apply (dict_get_In String.eqb Seqb_eq) in Hb.
    apply (dict_of_In String.eqb Seqb_eq) in Hb.
    change g with (fst (g, s2)). now apply in_map.
Qed.

(** X7.  The DIR verdict does not depend on which sentence of the pair
    comes first. *)
Theorem dir_verdict_symmetric (A B : list dir_token) :
  dir_pair_failed A B = dir_pair_failed B A.
Proof.
  assert (H : forall A B, dir_pair_failed A B = true -> dir_pair_failed B A = true).
  { intros X Y E. apply dir_pair_failed_true in E.
    destruct E as (t & g & g2 & s & Ha & Hb).
    apply dir_pair_failed_true. exists t, g2, g, s. auto. }
  destruct (dir_pair_failed A B) eqn:E1, (dir_pair_failed B A) eqn:E2; auto.
  - apply H in E1. congruence.
  - apply H in E2. congruence.
Qed.

(** *** The rate at its two ends *)

Lemma failure_rate_none_failed (total : Z) :
  total <> 0 -> failure_rate 0 total = Ok 0.
Proof.
  intros N. unfold failure_rate, true_div.
  apply Z.eqb_neq in N. rewrite N. cbn [Z.eqb bind result_monad].
  destruct (xorb (0 <? 0) (total <? 0)); reflexivity.
Qed.

Lemma div_core_same (p : positive) :
  SFdiv_core_binary prec emax (Zpos p) 0 (Zpos p) 0
  = (9007199254740992, -53, loc_Exact).
Proof.
  unfold SFdiv_core_binary. cbv zeta.
  rewrite !Z.add_0_r, !Z.sub_diag.
  change (Z.min (fexp prec emax 0) 0) with (-53).
  change (0 - -53) with 53.
  cbv iota beta.
  rewrite Z.shiftl_mul_pow2 by lia.
  change (2 ^ 53) with 9007199254740992.
  destruct (Z.div_eucl (Zpos p * 9007199254740992) (Zpos p)) as [q r] eqn:E.
  assert (Hq : q = (Zpos p * 9007199254740992) / Zpos p)
    by (unfold Z.div; now rewrite E).
  assert (Hr : r = (Zpos p * 9007199254740992) mod Zpos p)
    by (unfold Z.modulo; now rewrite E).
  rewrite Z.mul_comm in Hq, Hr.
  rewrite Z.div_mul in Hq by discriminate.
  rewrite Z.mod_mul in Hr by discriminate.
  subst q r. unfold new_location.
  destruct (Z.even (Zpos p)); reflexivity.
Qed.

Lemma failure_rate_all_failed (total : Z) :
  0 < total -> failure_rate total total = Ok 100.
Proof.
  intros P. destruct total as [|p|p]; try lia.
  unfold failure_rate, true_div.
  change (Zpos p =? 0) with false. cbv iota.
  change (Zpos p <? 0) with false. cbn [xorb Z.abs].
  rewrite div_core_same. vm_compute. reflexivity.
Qed.

Lemma pairs_of_length (ids : list Z) :
  List.length (pairs_of ids) = Nat.div2 (List.length ids).
Proof.
  assert (G : forall n (l : list Z), (List.length l <= n)%nat ->
              List.length (pairs_of l) = Nat.div2 (List.length l)).
  { induction n as [|n IH]; intros l L.
    - destruct l; [reflexivity | simpl in L; lia].
    - destruct l as [|a [|b l]]; try reflexivity.
      cbn [pairs_of List.length Nat.div2]. f_equal. apply IH.
      simpl in L. lia. }
  apply (G (List.length ids)). lia.
Qed.

Section Ends.
Context {T : Type} (verdict : list T -> list T -> bool) (d : sentences T).

Lemma score_pairs_counts :
  Nat.even (List.length (sentence_ids_of d)) = true ->
  exists names,
    score_pairs verdict d
    = lift (scored (List.length names)
              (Nat.div2 (List.length (sentence_ids_of d))) names)
    /\ (List.length names <= Nat.div2 (List.length (sentence_ids_of d)))%nat.
Proof.
  intros E. exists (pair_names (failing_pairs verdict d)). split.
  - rewrite (score_pairs_even verdict d E). unfold pair_names.
    now rewrite length_map, pairs_of_length.
  - unfold pair_names, failing_pairs. rewrite length_map, <- pairs_of_length.
    apply filter_length_le.
Qed.

Lemma score_pairs_none_failed :
  Nat.even (List.length (sentence_ids_of d)) = true ->
  sentence_ids_of d <> [] ->
  (forall p, In p (pairs_of (sentence_ids_of d)) -> pair_fails verdict d p = false) ->
  score_pairs verdict d = ([], Ok (0, [])).
Proof.
  intros E NE H. rewrite (score_pairs_even verdict d E).
  assert (F : failing_pairs verdict d = []).
  { unfold failing_pairs.
    induction (pairs_of (sentence_ids_of d)) as [|p ps IH]; auto.
    cbn [filter]. rewrite (H p) by (simpl; auto). apply IH.
    intros q Hq. apply H. simpl; auto. }
  rewrite F. unfold scored, lift. cbn [List.length pair_names map].
  rewrite failure_rate_none_failed; [reflexivity|].
  rewrite pairs_of_length.
  destruct (sentence_ids_of d) as [|a [|b l]];
    try congruence; try discriminate;
    try (cbn [List.length Nat.div2];
         generalize (Nat.div2 (List.length l)); intros; lia).
Qed.

Lemma score_pairs_all_failed :
  Nat.even (List.length (sentence_ids_of d)) = true ->
  sentence_ids_of d <> [] ->
  (forall p, In p (pairs_of (sentence_ids_of d)) -> pair_fails verdict d p = true) ->
  score_pairs verdict d
  = ([], Ok (100, pair_names (pairs_of (sentence_ids_of d)))).
Proof.
  intros E NE H. rewrite (score_pairs_even verdict d E).
  assert (F : failing_pairs verdict d = pairs_of (sentence_ids_of d)).
  { unfold failing_pairs.
    induction (pairs_of (sentence_ids_of d)) as [|p ps IH]; auto.
    cbn [filter]. rewrite (H p) by (simpl; auto). f_equal. apply IH.
    intros q Hq. apply H. simpl; auto. }
  rewrite F. unfold scored, lift.
  rewrite failure_rate_all_failed; [reflexivity|].
  rewrite pairs_of_length.
  destruct (sentence_ids_of d) as [|a [|b l]];
    try congruence; try discriminate;
    try (cbn [List.length Nat.div2];
         generalize (Nat.div2 (List.length l)); intros; lia).
Qed.
End Ends.

(* ================================================================== *)
(** ** Further properties of the scorers *)

Lemma well_formed_example : Forall well_formed_block mft_blocks_example.
Proof.
  assert (W : forall b, In b mft_blocks_example -> well_formed_block b).
  { intros b Hb. cbn in Hb. repeat (destruct Hb as [<-|Hb]); try contradiction;
      (split; [discriminate | split; [reflexivity|]]);
      intros l Hl; cbn in Hl;
      repeat (destruct Hl as [<-|Hl]); try contradiction;
      (split; [vm_compute; reflexivity
              | eexists; split; vm_compute; reflexivity]). }
  apply Forall_forall. exact W.
Qed.

Lemma mft_scores_blocks_witness :
  evaluate_mft (file_of_blocks mft_blocks_example) = scored 1 2 ["2"].
Proof.
  apply (mft_scores_blocks mft_blocks_example). exact well_formed_example.
Defined.

Lemma mft_counts_blank_lines_witness :
  total_sentences (MftState (Some "2") true 3 1 ["2"])
  = Z.of_nat (counted_blanks false mft_double_blank)
  /\ failed_sentences (MftState (Some "2") true 3 1 ["2"])
     = Z.of_nat (List.length (failed_sentence_ids
                                (MftState (Some "2") true 3 1 ["2"]))).
Proof.
  apply (mft_counts_blank_lines mft_double_blank). vm_compute; reflexivity.
Defined.

(** X3.  After the reading loop of [evaluate_inv] and [evaluate_dir],
    the list stored under an id holds the retained tokens of all the
    rows with that id, in file order, wherever in the file they are; no
    id is stored twice, and an id is stored exactly when it has a
    retained token. *)
Theorem read_sentences_groups_by_id {T} (keep : row -> T)
  (lines : list string) (data : sentences T) :
  read_sentences keep lines = Ok data ->
  (forall k, sentence_of data k = retained_of keep lines k)
  /\ NoDup (dict_keys data)
  /\ (forall k, In k (dict_keys data) <-> retained_of keep lines k <> []).
Proof. apply read_groups. Qed.

Lemma read_sentences_groups_by_id_witness :
  (forall k, sentence_of inv_pair_11_10_data k
             = retained_of inv_keep inv_pair_11_10 k)
  /\ NoDup (dict_keys inv_pair_11_10_data)
  /\ (forall k, In k (dict_keys inv_pair_11_10_data)
                <-> retained_of inv_keep inv_pair_11_10 k <> []).
Proof.
  apply (read_sentences_groups_by_id inv_keep inv_pair_11_10).
  vm_compute; reflexivity.
Defined.

(** X4.  The ids that the pairing loop goes through are in strictly
    increasing numeric order, and they are the ids that have a retained
    token. *)
Theorem sentence_ids_strictly_increasing {T} (keep : row -> T)
  (lines : list string) (data : sentences T) :
  read_sentences keep lines = Ok data ->
  Sorted Z.lt (sentence_ids_of data)
  /\ (forall k, In k (sentence_ids_of data)
                <-> retained_of keep lines k <> []).
Proof. apply ids_strict. Qed.

Lemma sentence_ids_strictly_increasing_witness :
  Sorted Z.lt (sentence_ids_of inv_pair_11_10_data)
  /\ (forall k, In k (sentence_ids_of inv_pair_11_10_data)
                <-> retained_of inv_keep inv_pair_11_10 k <> []).
Proof.
  apply (sentence_ids_strictly_increasing inv_keep inv_pair_11_10).
  vm_compute; reflexivity.
Defined.

Lemma retained_row {T} (keep : row -> T) (k z : Z) (line : string) (r : row) :
  is_blank line = false -> parse_row line = Ok r ->
  int_of_str (sentence_id r) = Ok z ->
  String.eqb (gold_label r) "_" = false ->
  retained keep k line = if Z.eqb z k then [keep r] else [].
Proof.
  intros B P I G. unfold retained. rewrite B, P, I, G. cbn [negb].
  now rewrite andb_true_r.
Qed.

Lemma same_groups_example (k : Z) :
  retained_of inv_keep inv_pair_10_11 k = retained_of inv_keep inv_pair_11_10 k.
Proof.
  unfold retained_of, inv_pair_10_11, inv_pair_11_10. cbn [flat_map].
  rewrite (retained_row inv_keep k 10 (tsv "10" "1" "ran" "ARG0" "ARG0")
             (Row "10" "1" "ran" "ARG0" "ARG0"))
    by (vm_compute; reflexivity).
  rewrite (retained_row inv_keep k 11 (tsv "11" "1" "ran" "ARG0" "ARG1")
             (Row "11" "1" "ran" "ARG0" "ARG1"))
    by (vm_compute; reflexivity).
  change (retained inv_keep k "") with (@nil inv_token).
  destruct (Z.eqb_spec 10 k), (Z.eqb_spec 11 k); try reflexivity; lia.
Qed.

Lemma pair_scores_ignore_file_order_witness :
  evaluate_inv inv_pair_10_11 = evaluate_inv inv_pair_11_10.
Proof.
  destruct (pair_scores_ignore_file_order inv_pair_10_11 inv_pair_11_10)
    as [I _].
  apply (I inv_pair_10_11_data inv_pair_11_10_data).
  - vm_compute; reflexivity.
  - vm_compute; reflexivity.
  - exact same_groups_example.
Defined.

Lemma inv_no_common_gold_passes_witness :
  inv_pair_failed [("ARG0", "ARG0")] [("ARG1", "ARG0")] = false.
Proof.
  apply inv_no_common_gold_passes.
  intros gold [<-|[]] [H|[]]. discriminate H.
Defined.

(** X8.  For every positive total the rate is exactly 0 when nothing
    failed and exactly 100 when everything failed: the floating-point
    quotient and product are exact at both ends. *)
Theorem failure_rate_ends (total : Z) :
  0 < total ->
  failure_rate 0 total = Ok 0 /\ failure_rate total total = Ok 100.
Proof.
  intros P. split.
  - apply failure_rate_none_failed. lia.
  - now apply failure_rate_all_failed.
Qed.

Lemma failure_rate_ends_witness :
  failure_rate 0 7 = Ok 0 /\ failure_rate 7 7 = Ok 100.
Proof. apply (failure_rate_ends 7). reflexivity. Defined.

Lemma score_after_read {T} (keep : row -> T)
  (verdict : list T -> list T -> bool) (lines : list string)
  (data : sentences T) :
  read_sentences keep lines = Ok data ->
  (sentences_data <- lift (read_sentences keep lines) ;;
   score_pairs verdict sentences_data) = score_pairs verdict data.
Proof.
  intros R. rewrite R. unfold lift. cbn [bind io_monad].
  destruct (score_pairs verdict data). reflexivity.
Qed.

(** X9.  With an even number 2n of retained sentences, [evaluate_inv]
    and [evaluate_dir] compute the rate of the number of names they
    return out of n pairs, and return at most n names. *)
Theorem pair_scorers_counts (lines : list string) :
  (forall data,
     read_sentences inv_keep lines = Ok data ->
     Nat.even (List.length (sentence_ids_of data)) = true ->
     exists names,
       evaluate_inv lines
       = lift (scored (List.length names)
                 (Nat.div2 (List.length (sentence_ids_of data))) names)
       /\ (List.length names
           <= Nat.div2 (List.length (sentence_ids_of data)))%nat)
  /\ (forall data,
        read_sentences dir_keep lines = Ok data ->
        Nat.even (List.length (sentence_ids_of data)) = true ->
        exists names,
          evaluate_dir lines
          = lift (scored (List.length names)
                    (Nat.div2 (List.length (sentence_ids_of data))) names)
          /\ (List.length names
              <= Nat.div2 (List.length (sentence_ids_of data)))%nat).
Proof.
  split; intros data R E.
  - unfold evaluate_inv. rewrite (score_after_read _ _ _ _ R).
    now apply score_pairs_counts.
  - unfold evaluate_dir. rewrite (score_after_read _ _ _ _ R).
    now apply score_pairs_counts.
Qed.

Lemma pair_scorers_counts_witness :
  exists names,
    evaluate_inv inv_pair_10_11
    = lift (scored (List.length names)
              (Nat.div2 (List.length (sentence_ids_of inv_pair_10_11_data)))
              names)
    /\ (List.length names
        <= Nat.div2 (List.length (sentence_ids_of inv_pair_10_11_data)))%nat.
Proof.
  destruct (pair_scorers_counts inv_pair_10_11) as [I _].
  apply (I inv_pair_10_11_data); vm_compute; reflexivity.
Defined.

(** X10.  With an even, non-zero number of retained sentences: when no
    pair fails the pair scorers return rate 0 and no name, and when
    every pair fails they return rate 100 and the names of all pairs. *)
Theorem pair_scorers_ends (lines : list string) :
  (forall data,
     read_sentences inv_keep lines = Ok data ->
     Nat.even (List.length (sentence_ids_of data)) = true ->
     sentence_ids_of data <> [] ->
     ((forall p, In p (pairs_of (sentence_ids_of data)) ->
                 pair_fails inv_pair_failed data p = false) ->
      evaluate_inv lines = ([], Ok (0, [])))
     /\ ((forall p, In p (pairs_of (sentence_ids_of data)) ->
                    pair_fails inv_pair_failed data p = true) ->
         evaluate_inv lines
         = ([], Ok (100, pair_names (pairs_of (sentence_ids_of data))))))
  /\ (forall data,
        read_sentences dir_keep lines = Ok data ->
        Nat.even (List.length (sentence_ids_of data)) = true ->
        sentence_ids_of data <> [] ->
        ((forall p, In p (pairs_of (sentence_ids_of data)) ->
                    pair_fails dir_pair_failed data p = false) ->
         evaluate_dir lines = ([], Ok (0, [])))
        /\ ((forall p, In p (pairs_of (sentence_ids_of data)) ->
                       pair_fails dir_pair_failed data p = true) ->
            evaluate_dir lines
            = ([], Ok (100, pair_names (pairs_of (sentence_ids_of data)))))).
Proof.
  split; intros data R E NE; split; intros H.
  - unfold evaluate_inv. rewrite (score_after_read _ _ _ _ R).
    now apply score_pairs_none_failed.
  - unfold evaluate_inv. rewrite (score_after_read _ _ _ _ R).
    now apply score_pairs_all_failed.
  - unfold evaluate_dir. rewrite (score_after_read _ _ _ _ R).
    now apply score_pairs_none_failed.
  - unfold evaluate_dir. rewrite (score_after_read _ _ _ _ R).
    now apply score_pairs_all_failed.
Qed.

Lemma pair_scorers_ends_witness :
  evaluate_inv inv_pair_10_11 = ([], Ok (100, ["10-11"]))
  /\ evaluate_dir dir_pair_changed = ([], Ok (0, [])).
Proof.
  destruct (pair_scorers_ends inv_pair_10_11) as [I _].
  destruct (pair_scorers_ends dir_pair_changed) as [_ D].
  split.
  - destruct (I inv_pair_10_11_data
                  ltac:(vm_compute; reflexivity) ltac:(vm_compute; reflexivity)
                  ltac:(discriminate)) as [_ A].
    apply A. intros p [<-|[]]. vm_compute; reflexivity.
  - destruct (D dir_pair_changed_data
                  ltac:(vm_compute; reflexivity) ltac:(vm_compute; reflexivity)
                  ltac:(discriminate)) as [N _].
    apply N. intros p [<-|[]]. vm_compute; reflexivity.
Defined.

(* ================================================================== *)
(** ** Lemmas on [prediction.py] *)

Import Prediction PredictionLayout Text PredictionSamples.


(** *** [determine_label] *)

Lemma max_from_spec {A} (key : A -> nat) (xs : list A) : forall best,
  (max_from key best xs = best \/ In (max_from key best xs) xs)
  /\ (key best <= key (max_from key best xs))%nat
  /\ (forall x, In x xs -> (key x <= key (max_from key best xs))%nat).
Proof.
  induction xs as [|y ys IH]; intros best; cbn [max_from].
  - repeat split; auto. intros x [].
  - destruct (Nat.ltb (key best) (key y)) eqn:E.
    + apply Nat.ltb_lt in E. destruct (IH y) as (M & B & F). repeat split.
      * destruct M as [->|M]; right; simpl; auto.
      * lia.
      * intros x [<-|Hx]; auto.
    + apply Nat.ltb_ge in E. destruct (IH best) as (M & B & F). repeat split.
      * destruct M as [M|M]; [left|right]; simpl; auto.
      * auto.
      * intros x [<-|Hx]; auto. lia.
Qed.

Lemma count_zero_absent x xs : ~ In x xs -> count x xs = 0%nat.
Proof.
  unfold count. induction xs as [|y ys IH]; intros N; cbn [filter]; auto.
  destruct (String.eqb x y) eqn:E.
  - apply String.eqb_eq in E. subst. exfalso. apply N. simpl; auto.
  - apply IH. intros H. apply N. simpl; auto.
Qed.

Lemma count_pos_present x xs : In x xs -> (0 < count x xs)%nat.
Proof.
  unfold count. induction xs as [|y ys IH]; intros H; [destruct H|].
  cbn [filter]. destruct (String.eqb x y) eqn:E.
  - cbn. lia.
  - destruct H as [->|H]; auto. rewrite String.eqb_refl in E. discriminate.
Qed.

Section DetermineLabel.
Context (set_order : list string -> list string).
Hypothesis set_order_like : set_like set_order.

Lemma determine_label_most_frequent (labels : list string) :
  labels <> [] ->
  exists l,
    determine_label set_order labels = Ok l
    /\ In l labels
    /\ forall x, (count x labels <= count l labels)%nat.
Proof.
  intros NE. unfold determine_label, py_max.
  destruct (set_order labels) as [|y ys] eqn:S.
  - exfalso. destruct labels as [|a l]; [congruence|].
    assert (H : In a (set_order (a :: l))) by (apply set_order_like; simpl; auto).
    rewrite S in H. destruct H.
  - eexists. split; [reflexivity|].
    destruct (max_from_spec (fun x => count x labels) ys y) as (M & B & F).
    assert (Hin : In (max_from (fun x => count x labels) y ys) labels).
    { apply set_order_like. rewrite S. destruct M as [->|M]; simpl; auto. }
    split; auto. intros x.
    destruct (in_dec string_dec x labels) as [Hx|Hx].
    + apply set_order_like in Hx. rewrite S in Hx.
      destruct Hx as [<-|Hx]; auto.
    + rewrite (count_zero_absent x labels Hx). lia.
Qed.

Lemma determine_label_empty :
  determine_label set_order [] = Raise ValueError.
Proof.
  unfold determine_label, py_max.
  destruct (set_order []) as [|y ys] eqn:S; auto.
  exfalso. assert (H : In y (@nil string)).
  { apply set_order_like. rewrite S. simpl; auto. }
  destruct H.
Qed.

Lemma determine_label_unique_mode (labels : list string) (m : string) :
  In m labels ->
  (forall x, x <> m -> (count x labels < count m labels)%nat) ->
  determine_label set_order labels = Ok m.
Proof.
  intros Hm U.
  destruct (determine_label_most_frequent labels) as (l & E & Hl & F).
  - intros ->. destruct Hm.
  - rewrite E. f_equal.
    destruct (string_dec l m) as [->|N]; auto.
    specialize (U l N). specialize (F m). lia.
Qed.
End DetermineLabel.

(** *** [read_sentences_from_file] *)

Lemma reader_flush_idem st : reader_flush (reader_flush st) = reader_flush st.
Proof.
  unfold reader_flush. destruct (current_sentence_tokens st) eqn:C.
  - now rewrite C.
  - reflexivity.
Qed.

Lemma read_sentences_from_file_result lines :
  read_sentences_from_file lines
  = (st <- for_each reader_step lines reader_init ;; ret (reader_result st)).
Proof.
  unfold read_sentences_from_file.
  destruct (for_each reader_step lines reader_init) as [st|e];
    cbn [bind result_monad ret]; auto.
  unfold reader_result, reader_flush.
  destruct (current_sentence_tokens st); reflexivity.
Qed.

Lemma reader_trailing_blank lines b :
  is_blank b = true ->
  read_sentences_from_file (lines ++ [b]) = read_sentences_from_file lines.
Proof.
  intros B. rewrite !read_sentences_from_file_result, for_each_app_result.
  destruct (for_each reader_step lines reader_init) as [st|e];
    cbn [bind result_monad ret for_each]; auto.
  unfold reader_step. rewrite B. cbn [bind result_monad ret].
  unfold reader_result. now rewrite reader_flush_idem.
Qed.

Lemma rows_of_app a b : rows_of (a ++ b) = rows_of a ++ rows_of b.
Proof. unfold rows_of. apply filter_app. Qed.

Lemma Forall2_snoc {A B} (P : A -> B -> Prop) xs ys x y :
  Forall2 P xs ys -> P x y -> Forall2 P (xs ++ [x]) (ys ++ [y]).
Proof.
  intros H Hxy. apply Forall2_app; auto.
Qed.

Lemma reader_flush_inv seen st :
  reader_inv seen st -> reader_inv seen (reader_flush st).
Proof.
  intros (T & G & F & L). unfold reader_flush.
  destruct (current_sentence_tokens st) as [|t ts] eqn:C; [repeat split; auto; now rewrite ?C|].
  repeat split; cbn [sentences_read gold_list current_sentence_tokens current_sentence_gold].
  - rewrite concat_app. cbn [List.concat]. now rewrite !app_nil_r.
  - rewrite concat_app. cbn [List.concat]. now rewrite !app_nil_r.
  - apply Forall2_snoc; auto. split; [auto | discriminate].
Qed.

Lemma reader_step_inv seen st line st' :
  reader_inv seen st -> reader_step st line = Ok st' ->
  reader_inv (seen ++ [line]) st'.
Proof.
  intros I S. unfold reader_step in S.
  assert (R : rows_of (seen ++ [line])
              = rows_of seen ++ (if is_blank line then [] else [line])).
  { rewrite rows_of_app. unfold rows_of. cbn [filter].
    destruct (is_blank line); reflexivity. }
  destruct (is_blank line) eqn:B.
  - inversion S; subst. apply reader_flush_inv.
    unfold reader_inv in *. rewrite R, app_nil_r. exact I.
  - destruct (parse_token_gold line) as [[t g]|e] eqn:P;
      cbn [bind result_monad fst snd] in S; [|discriminate].
    inversion S; subst; clear S. destruct I as (T & G & F & L).
    unfold reader_inv. rewrite R.
    cbn [sentences_read gold_list current_sentence_tokens
         current_sentence_gold].
    rewrite !map_app. cbn [map]. unfold row_token at 2, row_gold at 2.
    rewrite P. cbn [fst snd].
    rewrite !app_assoc, T, G, !length_app, L. repeat split; auto.
Qed.

Lemma reader_loop_inv lines : forall seen st st',
  reader_inv seen st -> for_each reader_step lines st = Ok st' ->
  reader_inv (seen ++ lines) st'.
Proof.
  induction lines as [|l lines IH]; intros seen st st' I H.
  - inversion H; subst. now rewrite app_nil_r.
  - cbn [for_each] in H. destruct (reader_step st l) as [st1|e] eqn:S;
      cbn [bind result_monad] in H; [|discriminate].
    replace (seen ++ l :: lines) with ((seen ++ [l]) ++ lines)
      by (rewrite <- app_assoc; reflexivity).
    eapply IH; eauto. eapply reader_step_inv; eauto.
Qed.

Lemma reader_keeps_every_token (lines : list string)
  (sentences golds : list (list string)) :
  read_sentences_from_file lines = Ok (sentences, golds) ->
  List.concat sentences = map row_token (rows_of lines)
  /\ List.concat golds = map row_gold (rows_of lines)
  /\ Forall2 (fun s g => List.length s = List.length g /\ s <> [])
       sentences golds.
Proof.
  rewrite read_sentences_from_file_result.
  destruct (for_each reader_step lines reader_init) as [st|e] eqn:E;
    cbn [bind result_monad ret]; [|discriminate].
  intros H. inversion H; subst; clear H.
  assert (I0 : reader_inv [] reader_init).
  { repeat split; cbn; auto. }
  pose proof (reader_loop_inv lines [] reader_init st I0 E) as I.
  cbn [app] in I. apply reader_flush_inv in I.
  destruct I as (T & G & F & L).
  assert (C : current_sentence_tokens (reader_flush st) = []).
  { unfold reader_flush. destruct (current_sentence_tokens st) eqn:C; auto. }
  assert (Cg : current_sentence_gold (reader_flush st) = []).
  { rewrite C in L. destruct (current_sentence_gold (reader_flush st)); auto.
    discriminate. }
  rewrite C, app_nil_r in T. rewrite Cg, app_nil_r in G.
  unfold reader_result. auto.
Qed.

Lemma reader_rows (rows : list string) : forall S G ct cg,
  (forall l, In l rows ->
     is_blank l = false /\ exists tg, parse_token_gold l = Ok tg) ->
  for_each reader_step rows (ReaderState S G ct cg)
  = Ok (ReaderState S G (ct ++ map row_token rows) (cg ++ map row_gold rows)).
Proof.
  induction rows as [|l rows IH]; intros S G ct cg H.
  - cbn. now rewrite !app_nil_r.
  - destruct (H l (or_introl eq_refl)) as (B & [t g] & P).
    cbn [for_each]. unfold reader_step at 1. rewrite B, P.
    cbn [bind result_monad fst snd sentences_read gold_list
         current_sentence_tokens current_sentence_gold].
    rewrite IH by (intros; apply H; simpl; auto).
    cbn [map]. unfold row_token at 2, row_gold at 2. rewrite P.
    cbn [fst snd]. now rewrite <- !app_assoc.
Qed.

Lemma reader_blocks (bs : list block) : forall S G,
  Forall readable_block bs ->
  for_each reader_step (file_of_blocks bs) (ReaderState S G [] [])
  = Ok (ReaderState (S ++ map (fun b => map row_token (b_rows b)) bs)
          (G ++ map (fun b => map row_gold (b_rows b)) bs) [] []).
Proof.
  induction bs as [|b bs IH]; intros S G W.
  - cbn. now rewrite !app_nil_r.
  - inversion W as [|? ? (NE & BE & H) Wbs]; subst.
    cbn [file_of_blocks flat_map]. unfold block_lines at 1.
    rewrite !for_each_app_result, reader_rows by assumption.
    cbn [bind result_monad for_each app].
    unfold reader_step at 1. rewrite BE. cbn [bind result_monad].
    unfold reader_flush.
    cbn [current_sentence_tokens current_sentence_gold sentences_read gold_list
         app].
    destruct (map row_token (b_rows b)) eqn:M.
    { destruct (b_rows b); [contradiction | discriminate]. }
    rewrite <- M. fold (file_of_blocks bs). cbn [ret result_monad].
    rewrite IH by assumption.
    cbn [map]. now rewrite <- !app_assoc.
Qed.

Lemma reader_on_blocks (bs : list block) :
  Forall readable_block bs ->
  read_sentences_from_file (file_of_blocks bs)
  = Ok (map (fun b => map row_token (b_rows b)) bs,
        map (fun b => map row_gold (b_rows b)) bs).
Proof.
  intros W. rewrite read_sentences_from_file_result.
  unfold reader_init. rewrite (reader_blocks bs [] [] W). reflexivity.
Qed.

Lemma parse_token_gold_of_row (line : string) (r : row) :
  parse_row line = Ok r ->
  parse_token_gold line = Ok (token r, gold_label r).
Proof.
  unfold parse_row, parse_token_gold.
  destruct (split tab (strip line)) as [|a [|b [|c [|d [|e [|f l]]]]]];
    try discriminate.
  intros H. inversion H; subst. reflexivity.
Qed.

Lemma parse_token_gold_fields (line : string) :
  (4 <= fields line)%nat <-> exists tg, parse_token_gold line = Ok tg.
Proof.
  unfold fields, parse_token_gold.
  destruct (split tab (strip line)) as [|a [|b [|c [|d l]]]]; cbn; split;
    try lia; try (intros [tg H]; discriminate); eauto.
Qed.

Lemma parse_token_gold_cases (line : string) :
  (exists tg, parse_token_gold line = Ok tg)
  \/ parse_token_gold line = Raise ValueError.
Proof.
  unfold parse_token_gold.
  destruct (firstn 2 (skipn 2 (split tab (strip line)))) as [|a [|b [|c l]]];
    eauto.
Qed.

Lemma reader_step_raises st line e :
  reader_step st line = Raise e -> e = ValueError.
Proof.
  unfold reader_step. destruct (is_blank line); [discriminate|].
  destruct (parse_token_gold_cases line) as [[tg P]|P]; rewrite P;
    cbn [bind result_monad]; congruence.
Qed.

Lemma reader_loop_total lines : forall st,
  (forall l, In l lines -> is_blank l = false -> (4 <= fields l)%nat) ->
  exists st', for_each reader_step lines st = Ok st'.
Proof.
  induction lines as [|l lines IH]; intros st H; cbn [for_each].
  - eexists; reflexivity.
  - unfold reader_step at 1. destruct (is_blank l) eqn:B.
    + cbn [bind result_monad]. apply IH. intros; apply H; simpl; auto.
    + destruct (proj1 (parse_token_gold_fields l)) as [tg P].
      { apply H; simpl; auto. }
      rewrite P. cbn [bind result_monad]. apply IH.
      intros; apply H; simpl; auto.
Qed.

Lemma reader_loop_short lines : forall st l,
  In l lines -> is_blank l = false -> (fields l < 4)%nat ->
  for_each reader_step lines st = Raise ValueError.
Proof.
  induction lines as [|x lines IH]; intros st l Hin B F; [destruct Hin|].
  cbn [for_each]. destruct (reader_step st x) as [st1|e] eqn:S;
    cbn [bind result_monad].
  - destruct Hin as [->|Hin]; [|eapply IH; eauto].
    unfold reader_step in S. rewrite B in S.
    destruct (parse_token_gold l) as [tg|e] eqn:P; [|discriminate].
    assert (4 <= fields l)%nat by (apply parse_token_gold_fields; eauto). lia.
  - apply reader_step_raises in S. now subst.
Qed.

Lemma reader_fields (lines : list string) :
  ((forall l, In l lines -> is_blank l = false -> (4 <= fields l)%nat) ->
   exists res, read_sentences_from_file lines = Ok res)
  /\ (forall l, In l lines -> is_blank l = false -> (fields l < 4)%nat ->
      read_sentences_from_file lines = Raise ValueError).
Proof.
  split.
  - intros H. rewrite read_sentences_from_file_result.
    destruct (reader_loop_total lines reader_init H) as [st E].
    rewrite E. eexists; reflexivity.
  - intros l Hin B F. rewrite read_sentences_from_file_result.
    now rewrite (reader_loop_short lines reader_init l Hin B F).
Qed.


Lemma plain_clean s : plain s = true -> clean s = true.
Proof.
  induction s as [|c r IH]; cbn; auto.
  intros H. apply andb_prop in H. destruct H as [H1 H2].
  rewrite IH by assumption. rewrite andb_true_r.
  destruct (Ascii.eqb c tab) eqn:E; auto.
  apply Ascii.eqb_eq in E. subst c. discriminate H1.
Qed.

Lemma split_clean s : clean s = true -> split tab s = [s].
Proof.
  induction s as [|c r IH]; cbn; auto.
  intros H. apply andb_prop in H. destruct H as [H1 H2].
  apply negb_true_iff in H1. rewrite H1, IH by assumption. reflexivity.
Qed.

Lemma split_app a b :
  clean a = true ->
  split tab (a ++ String tab b)%string = a :: split tab b.
Proof.
  induction a as [|c r IH]; cbn [clean append split].
  - intros _. now rewrite Ascii.eqb_refl.
  - intros H. apply andb_prop in H. destruct H as [H1 H2].
    apply negb_true_iff in H1. rewrite H1, IH by assumption. reflexivity.
Qed.

Lemma rstrip_app_keep a b :
  rstrip b <> "" -> rstrip (a ++ b)%string = (a ++ rstrip b)%string.
Proof.
  intros N. induction a as [|c r IH]; cbn [append rstrip]; auto.
  rewrite IH. destruct (r ++ rstrip b)%string eqn:E; auto.
  destruct r; cbn in E; [contradiction | discriminate].
Qed.

Lemma rstrip_app_space s c :
  isspace c = true -> rstrip (s ++ String c "")%string = rstrip s.
Proof.
  intros W. induction s as [|x r IH]; cbn [append rstrip].
  - now rewrite W.
  - now rewrite IH.
Qed.

Lemma lstrip_nonspace c r : isspace c = false -> lstrip (String c r) = String c r.
Proof. intros H. cbn. now rewrite H. Qed.

Lemma uint_plain (d : Decimal.uint) : plain (NilEmpty.string_of_uint d) = true.
Proof. induction d; cbn; auto. Qed.

Lemma str_of_int_plain z : plain (str_of_int z) = true /\ str_of_int z <> "".
Proof.
  unfold str_of_int. destruct (Z.to_int z) as [d|d]; cbn.
  - destruct d; cbn; split; try discriminate; auto using uint_plain.
  - split; [|discriminate]. destruct d; cbn; auto using uint_plain.
Qed.

Lemma plain_head s :
  plain s = true -> s <> "" -> exists c r, s = String c r /\ isspace c = false.
Proof.
  destruct s as [|c r]; [congruence|]. cbn. intros H _.
  apply andb_prop in H. destruct H as [H _]. apply negb_true_iff in H. eauto.
Qed.

Lemma format_row_parses (sid tid : Z) (tok gold sys : string) :
  clean tok = true -> clean gold = true -> tidy sys ->
  parse_row (format_row sid tid tok gold sys)
  = Ok (Row (str_of_int sid) (str_of_int tid) tok gold sys)
  /\ is_blank (format_row sid tid tok gold sys) = false.
Proof.
  intros Ct Cg (Cs & Rs & Ns).
  destruct (str_of_int_plain sid) as (Ps & Es).
  destruct (str_of_int_plain tid) as (Pt & Et).
  destruct (plain_head _ Ps Es) as (c & r & Hs & Hc).
  assert (St : strip (format_row sid tid tok gold sys)
               = (str_of_int sid ++ String tab (str_of_int tid ++ String tab
                   (tok ++ String tab (gold ++ String tab sys))))%string).
  { unfold strip, format_row. rewrite Hs. cbn [append].
    rewrite lstrip_nonspace by assumption.
    change (String c (r ++ String tab (str_of_int tid ++ String tab
              (tok ++ String tab (gold ++ String tab (sys ++ newline))))))%string
      with (String c r ++ String tab (str_of_int tid ++ String tab
              (tok ++ String tab (gold ++ String tab (sys ++ newline)))))%string.
    assert (E : rstrip (sys ++ newline)%string = sys).
    { unfold newline. rewrite rstrip_app_space by reflexivity. exact Rs. }
    assert (K : forall a x, rstrip x <> "" ->
                rstrip (a ++ String tab x)%string
                = (a ++ String tab (rstrip x))%string).
    { intros a x Nx.
      change (a ++ String tab x)%string with (a ++ (String tab "" ++ x))%string.
      rewrite rstrip_app_keep.
      - rewrite rstrip_app_keep by assumption. reflexivity.
      - rewrite rstrip_app_keep by assumption. discriminate. }
    assert (N4 : rstrip (sys ++ newline)%string <> "") by (rewrite E; exact Ns).
    assert (E3 : rstrip (gold ++ String tab (sys ++ newline))%string
                 = (gold ++ String tab sys)%string)
      by (rewrite K by assumption; now rewrite E).
    assert (N3 : rstrip (gold ++ String tab (sys ++ newline))%string <> "").
    { rewrite E3. destruct gold; discriminate. }
    assert (E2 : rstrip (tok ++ String tab (gold ++ String tab (sys ++ newline)))%string
                 = (tok ++ String tab (gold ++ String tab sys))%string)
      by (rewrite K by assumption; now rewrite E3).
    assert (N2 : rstrip (tok ++ String tab (gold ++ String tab (sys ++ newline)))%string <> "").
    { rewrite E2. destruct tok; discriminate. }
    assert (E1 : rstrip (str_of_int tid ++ String tab
                           (tok ++ String tab (gold ++ String tab (sys ++ newline))))%string
                 = (str_of_int tid ++ String tab
                      (tok ++ String tab (gold ++ String tab sys)))%string)
      by (rewrite K by assumption; now rewrite E2).
    assert (N1 : rstrip (str_of_int tid ++ String tab
                           (tok ++ String tab (gold ++ String tab (sys ++ newline))))%string <> "").
    { rewrite E1. destruct (str_of_int tid); discriminate. }
    rewrite K by assumption. now rewrite E1. }
  split.
  - unfold parse_row. rewrite St.
    rewrite !split_app by auto using plain_clean.
    rewrite split_clean by assumption. reflexivity.
  - unfold is_blank. rewrite St, Hs. reflexivity.
Qed.


(* ================================================================== *)
(** ** Properties of [prediction.py] *)

Lemma first_seen_set_like : set_like first_seen.
Proof. intros xs x. unfold first_seen. apply nodup_In. Qed.

Lemma last_seen_set_like : set_like last_seen.
Proof.
  intros xs x. unfold last_seen. rewrite <- in_rev. apply nodup_In.
Qed.

(** With two labels equally frequent the result depends on the order in
    which the set is iterated. *)
Lemma determine_label_tie_depends_on_order :
  determine_label first_seen ["A"; "B"; "B"; "A"] = Ok "B"
  /\ determine_label last_seen ["A"; "B"; "B"; "A"] = Ok "A".
Proof. split; vm_compute; reflexivity. Qed.

(** X11.  Whatever the order in which the set is iterated,
    [determine_label] returns one of the given labels that no other
    label outnumbers; on an empty list it raises [ValueError]. *)
Theorem determine_label_returns_a_mode
  (set_order : list string -> list string) (labels : list string) :
  set_like set_order ->
  (labels <> [] ->
   exists l,
     determine_label set_order labels = Ok l
     /\ In l labels
     /\ forall x, (count x labels <= count l labels)%nat)
  /\ determine_label set_order [] = Raise ValueError.
Proof.
  intros S. split.
  - now apply determine_label_most_frequent.
  - now apply determine_label_empty.
Qed.

Lemma determine_label_returns_a_mode_witness :
  exists l,
    determine_label first_seen ["A"; "B"; "B"] = Ok l
    /\ In l ["A"; "B"; "B"]
    /\ forall x, (count x ["A"; "B"; "B"] <= count l ["A"; "B"; "B"])%nat.
Proof.
  destruct (determine_label_returns_a_mode first_seen ["A"; "B"; "B"]
              first_seen_set_like) as [H _].
  apply H. discriminate.
Defined.

(** X12.  When one label is strictly more frequent than every other,
    [determine_label] returns it, whatever the order in which the set is
    iterated. *)
Theorem determine_label_strict_majority
  (set_order : list string -> list string) (labels : list string)
  (m : string) :
  set_like set_order ->
  In m labels ->
  (forall x, x <> m -> (count x labels < count m labels)%nat) ->
  determine_label set_order labels = Ok m.
Proof. intros S. now apply determine_label_unique_mode. Qed.

Lemma determine_label_strict_majority_witness :
  determine_label last_seen ["A"; "B"; "B"] = Ok "B".
Proof.
  apply determine_label_strict_majority.
  - exact last_seen_set_like.
  - simpl; auto.
  - intros x N. unfold count. cbn [filter].
    destruct (String.eqb_spec x "A"), (String.eqb_spec x "B");
      cbn; try lia; congruence.
Defined.

(** X13.  For [read_sentences_from_file] the blank line after the last
    sentence is optional: with or without it the result is the same. *)
Theorem reader_trailing_blank_optional (lines : list string) (b : string) :
  is_blank b = true ->
  read_sentences_from_file (lines ++ [b]) = read_sentences_from_file lines.
Proof. apply reader_trailing_blank. Qed.

Lemma reader_trailing_blank_optional_witness :
  read_sentences_from_file (mft_no_trailing_blank ++ [""])
  = read_sentences_from_file mft_no_trailing_blank.
Proof. apply reader_trailing_blank_optional. reflexivity. Defined.

(** X14.  Whatever the blank lines of the file, the sentences that
    [read_sentences_from_file] returns hold, in order, the tokens of all
    the rows, and the gold lists their gold labels; no sentence is
    empty, and every sentence has as many gold labels as tokens. *)
Theorem reader_loses_nothing (lines : list string)
  (sentences golds : list (list string)) :
  read_sentences_from_file lines = Ok (sentences, golds) ->
  List.concat sentences = map row_token (rows_of lines)
  /\ List.concat golds = map row_gold (rows_of lines)
  /\ Forall2 (fun s g => List.length s = List.length g /\ s <> [])
       sentences golds.
Proof. apply reader_keeps_every_token. Qed.

Lemma reader_loses_nothing_witness :
  List.concat [["She"; "ran"]; ["He"]]
  = map row_token (rows_of mft_double_blank_rows)
  /\ List.concat [["ARG0"; "_"]; ["ARG1"]]
     = map row_gold (rows_of mft_double_blank_rows)
  /\ Forall2 (fun s g => List.length s = List.length g /\ s <> [])
       [["She"; "ran"]; ["He"]] [["ARG0"; "_"]; ["ARG1"]].
Proof.
  apply (reader_loses_nothing mft_double_blank_rows). vm_compute; reflexivity.
Defined.

Lemma readable_example : Forall readable_block mft_blocks_example.
Proof.
  apply Forall_forall. intros b Hb. cbn in Hb.
  repeat (destruct Hb as [<-|Hb]); try contradiction;
    (split; [discriminate | split; [reflexivity|]]);
    intros l Hl; cbn in Hl;
    repeat (destruct Hl as [<-|Hl]); try contradiction;
    (split; [vm_compute; reflexivity | eexists; vm_compute; reflexivity]).
Qed.

(** X15.  On a file made of sentences that each end with a blank line,
    every row having at least four fields, [read_sentences_from_file]
    returns one token list and one gold list per sentence, made of the
    third and the fourth field of its rows. *)
Theorem reader_reads_blocks (bs : list block) :
  Forall readable_block bs ->
  read_sentences_from_file (file_of_blocks bs)
  = Ok (map (fun b => map row_token (b_rows b)) bs,
        map (fun b => map row_gold (b_rows b)) bs).
Proof. apply reader_on_blocks. Qed.

Lemma reader_reads_blocks_witness :
  read_sentences_from_file (file_of_blocks mft_blocks_example)
  = Ok ([["She"; "ran"]; ["He"]], [["ARG0"; "_"]; ["ARG1"]]).
Proof. apply (reader_reads_blocks mft_blocks_example readable_example). Defined.

(** X16.  [read_sentences_from_file] returns a result when every row
    has at least four tab-separated fields, so it reads the four-column
    input files and the five-column output files alike; one row with
    fewer fields makes it raise [ValueError]. *)
Theorem reader_needs_four_fields (lines : list string) :
  ((forall l, In l lines -> is_blank l = false -> (4 <= fields l)%nat) ->
   exists res, read_sentences_from_file lines = Ok res)
  /\ (forall l, In l lines -> is_blank l = false -> (fields l < 4)%nat ->
      read_sentences_from_file lines = Raise ValueError).
Proof. apply reader_fields. Qed.

Lemma reader_needs_four_fields_witness :
  (exists res, read_sentences_from_file mft_two_sentences = Ok res)
  /\ read_sentences_from_file short_row_file = Raise ValueError.
Proof.
  destruct (reader_needs_four_fields mft_two_sentences) as [T _].
  destruct (reader_needs_four_fields short_row_file) as [_ S].
  split.
  - apply T. intros l Hl B. cbn in Hl.
    repeat (destruct Hl as [<-|Hl]); try contradiction;
      vm_compute in B; try discriminate B; vm_compute; lia.
  - apply (S "She"); [left; reflexivity | reflexivity | vm_compute; lia].
Defined.

(* ================================================================== *)
(** ** Lemmas on [bert_predictions] *)

Import Written.

(** *** The labels of the words *)

Lemma list_assign_length {A} (xs : list A) : forall i v ys,
  list_assign xs i v = Ok ys -> List.length ys = List.length xs.
Proof.
  induction xs as [|x xs IH]; intros i v ys H; cbn in H; [discriminate|].
  destruct i as [|j].
  - inversion H; subst. reflexivity.
  - destruct (list_assign xs j v) as [r|e] eqn:E; cbn in H; [|discriminate].
    inversion H; subst. cbn. f_equal. eauto.
Qed.

Lemma list_assign_In {A} (xs : list A) : forall i v ys y,
  list_assign xs i v = Ok ys -> In y ys -> y = v \/ In y xs.
Proof.
  induction xs as [|x xs IH]; intros i v ys y H Hy; cbn in H; [discriminate|].
  destruct i as [|j].
  - inversion H; subst. destruct Hy as [<-|Hy]; cbn; auto.
  - destruct (list_assign xs j v) as [r|e] eqn:E; cbn in H; [|discriminate].
    inversion H; subst. destruct Hy as [<-|Hy]; cbn; auto.
    destruct (IH _ _ _ _ E Hy); auto.
Qed.

Lemma list_assign_at {A} (done : list A) (x v : A) (rest : list A) :
  list_assign (done ++ x :: rest) (List.length done) v
  = Ok (done ++ v :: rest).
Proof.
  induction done as [|d done IH]; cbn; auto.
  rewrite IH. reflexivity.
Qed.

Lemma list_assign_beyond {A} (done : list A) (v : A) :
  list_assign done (List.length done) v = Raise IndexError.
Proof.
  induction done as [|d done IH]; cbn; auto.
  rewrite IH. reflexivity.
Qed.

Section Words.
Context (set_order : list string -> list string).
Hypothesis set_order_like : set_like set_order.
Context (index_to_label : dict Z string).

Lemma close_word_inv n st wl :
  word_inv index_to_label n st -> close_word set_order st = Ok wl ->
  List.length wl = n
  /\ forall l, In (Some l) wl ->
       exists k, dict_get Z.eqb index_to_label k = Some l.
Proof.
  intros (L & T & W) H. unfold close_word in H.
  destruct (determine_label set_order (subtoken_labels st)) as [l|e] eqn:D;
    cbn [bind result_monad] in H; [|discriminate].
  split.
  - rewrite (list_assign_length _ _ _ _ H). exact L.
  - intros l' Hl'. destruct (list_assign_In _ _ _ _ _ H Hl') as [E|E].
    + inversion E; subst l'. apply T.
      destruct (subtoken_labels st) as [|a r] eqn:S.
      * rewrite determine_label_empty in D by assumption. discriminate.
      * destruct (determine_label_most_frequent set_order set_order_like (a :: r))
          as (m & Em & Hm & _); [discriminate|].
        congruence.
    + auto.
Qed.

Lemma word_step_inv n st p st' :
  word_inv index_to_label n st ->
  word_step set_order index_to_label st p = Ok st' ->
  word_inv index_to_label n st'.
Proof.
  intros I H. destruct p as [[start end_] pred]. unfold word_step in H.
  destruct (Z.eqb start end_ && Z.eqb end_ 0).
  - inversion H; subst. exact I.
  - destruct (dict_get Z.eqb index_to_label pred) as [label|] eqn:G;
      cbn [bind result_monad] in H; [|discriminate].
    destruct (Z.eqb start 0 && nonempty (subtoken_labels st)).
    + destruct (close_word set_order st) as [wl|e] eqn:C;
        cbn [bind result_monad] in H; [|discriminate].
      inversion H; subst; clear H.
      destruct (close_word_inv n st wl I C) as (L & W).
      repeat split; cbn; auto.
      intros l [<-|[]]. eauto.
    + cbn [bind result_monad] in H. inversion H; subst; clear H.
      destruct I as (L & T & W). repeat split; cbn; auto.
      intros l Hl. apply in_app_or in Hl. destruct Hl as [Hl|[<-|[]]]; eauto.
Qed.

Lemma word_loop_inv n preds : forall st st',
  word_inv index_to_label n st ->
  for_each (word_step set_order index_to_label) preds st = Ok st' ->
  word_inv index_to_label n st'.
Proof.
  induction preds as [|p preds IH]; intros st st' I H; cbn [for_each] in H.
  - inversion H; subst. exact I.
  - destruct (word_step set_order index_to_label st p) as [st1|e] eqn:S;
      cbn [bind result_monad] in H; [|discriminate].
    eapply IH; [|exact H]. eapply word_step_inv; eauto.
Qed.

Lemma label_words_last sentence preds :
  label_words set_order index_to_label sentence preds
  = (st <- for_each (word_step set_order index_to_label) preds
             (WordState (repeat None (List.length sentence)) 0 []) ;;
     last_word set_order st).
Proof. reflexivity. Qed.

Lemma label_words_shape sentence preds wl :
  label_words set_order index_to_label sentence preds = Ok wl ->
  List.length wl = List.length sentence
  /\ forall l, In (Some l) wl ->
       exists k, dict_get Z.eqb index_to_label k = Some l.
Proof.
  unfold label_words. intros H.
  destruct (for_each (word_step set_order index_to_label) preds
              (WordState (repeat None (List.length sentence)) 0 []))
    as [st|e] eqn:F; cbn [bind result_monad] in H; [|discriminate].
  assert (I0 : word_inv index_to_label (List.length sentence)
                 (WordState (repeat None (List.length sentence)) 0 [])).
  { repeat split; cbn.
    - apply repeat_length.
    - intros l [].
    - intros l Hl. apply repeat_spec in Hl. discriminate. }
  pose proof (word_loop_inv _ _ _ _ I0 F) as I.
  destruct (nonempty (subtoken_labels st)).
  - eapply close_word_inv; eauto.
  - inversion H; subst. destruct I as (L & _ & W). auto.
Qed.

(** Special tokens are skipped. *)
Lemma word_loop_skips_special preds : forall st,
  for_each (word_step set_order index_to_label) preds st
  = for_each (word_step set_order index_to_label)
      (filter (fun p => negb (special p)) preds) st.
Proof.
  induction preds as [|p preds IH]; intros st; cbn [filter for_each]; auto.
  destruct (special p) eqn:S; cbn [negb for_each].
  - assert (E : word_step set_order index_to_label st p = Ok st).
    { destruct p as [[start end_] pred]. unfold word_step.
      cbn in S. rewrite S. reflexivity. }
    rewrite E. cbn [bind result_monad]. apply IH.
  - destruct (word_step set_order index_to_label st p); cbn [bind result_monad]; auto.
Qed.

(** The sub-tokens of a word after its first one are appended. *)
Lemma word_rest rest : forall ls wl i sub,
  Forall (fun p => word_start p = false) rest ->
  labels_of index_to_label rest ls ->
  for_each (word_step set_order index_to_label) rest (WordState wl i sub)
  = Ok (WordState wl i (sub ++ ls)).
Proof.
  induction rest as [|p rest IH]; intros ls wl i sub F L.
  - inversion L; subst. cbn. now rewrite app_nil_r.
  - inversion L as [|? l ? ls' Hp Hrest]; subst.
    inversion F as [|? ? Fp Frest]; subst.
    cbn [for_each].
    assert (E : word_step set_order index_to_label (WordState wl i sub) p
                = Ok (WordState wl i (sub ++ [l]))).
    { destruct p as [[start end_] pred]. unfold word_step.
      cbn in Fp, Hp. rewrite Fp, Hp.
      destruct (Z.eqb start end_ && Z.eqb end_ 0) eqn:Sp.
      - apply andb_prop in Sp. destruct Sp as [S1 S2].
        apply Z.eqb_eq in S1, S2. subst. discriminate Fp.
      - reflexivity. }
    rewrite E. cbn [bind result_monad].
    rewrite (IH ls' wl i (sub ++ [l]) Frest Hrest).
    now rewrite <- app_assoc.
Qed.

(** The first sub-token of a word closes the word before it. *)
Lemma word_first p l wl i sub :
  word_start p = true -> special p = false ->
  dict_get Z.eqb index_to_label (predicted p) = Some l ->
  word_step set_order index_to_label (WordState wl i sub) p
  = if nonempty sub
    then wl' <- close_word set_order (WordState wl i sub) ;;
         Ok (WordState wl' (S i) [l])
    else Ok (WordState wl i [l]).
Proof.
  intros W S G. destruct p as [[start end_] pred]. unfold word_step.
  cbn in W, S, G. rewrite S, G, W. cbn [bind result_monad andb].
  cbn [subtoken_labels]. destruct sub as [|a r]; cbn [nonempty].
  - reflexivity.
  - destruct (close_word set_order (WordState wl i (a :: r))); reflexivity.
Qed.

Lemma word_whole w ls wl i sub :
  word_preds w -> labels_of index_to_label w ls ->
  ls <> []
  /\ for_each (word_step set_order index_to_label) w (WordState wl i sub)
     = if nonempty sub
       then wl' <- close_word set_order (WordState wl i sub) ;;
            Ok (WordState wl' (S i) ls)
       else Ok (WordState wl i ls).
Proof.
  intros W L. destruct w as [|p rest]; [destruct W|].
  destruct W as (Ws & Sp & Fr).
  inversion L as [|? l ? ls' Hp Hrest]; subst.
  split; [discriminate|].
  cbn [for_each]. rewrite (word_first p l wl i sub Ws Sp Hp).
  destruct (nonempty sub).
  - destruct (close_word set_order (WordState wl i sub)) as [wl'|e];
      cbn [bind result_monad]; auto.
    now rewrite (word_rest rest ls' wl' (S i) [l] Fr Hrest).
  - cbn [bind result_monad].
    now rewrite (word_rest rest ls' wl i [l] Fr Hrest).
Qed.

Lemma close_word_at (done : list (option string)) m sub l :
  determine_label set_order sub = Ok l ->
  close_word set_order (WordState (done ++ repeat None m) (List.length done) sub)
  = match m with
    | O => Raise IndexError
    | S m' => Ok ((done ++ [Some l]) ++ repeat None m')
    end.
Proof.
  intros D. unfold close_word. cbn [subtoken_labels word_labels current_word_index].
  rewrite D. cbn [bind result_monad]. destruct m as [|m']; cbn [repeat].
  - rewrite app_nil_r. apply list_assign_beyond.
  - rewrite list_assign_at. now rewrite <- app_assoc.
Qed.

Lemma words_loop ws : forall lss labels done m sub l0,
  Forall word_preds ws ->
  Forall2 (labels_of index_to_label) ws lss ->
  Forall2 (fun ls l => determine_label set_order ls = Ok l) lss labels ->
  sub <> [] -> determine_label set_order sub = Ok l0 ->
  (st <- for_each (word_step set_order index_to_label) (List.concat ws)
           (WordState (done ++ repeat None m) (List.length done) sub) ;;
   last_word set_order st)
  = if Nat.ltb (List.length ws) m
    then Ok (done ++ map Some (l0 :: labels)
               ++ repeat None (m - S (List.length ws)))
    else Raise IndexError.
Proof.
  induction ws as [|w ws IH]; intros lss labels done m sub l0 W L D N D0.
  - inversion L; subst. inversion D; subst.
    cbn [List.concat for_each ret bind result_monad List.length map].
    unfold last_word. cbn [subtoken_labels].
    destruct sub as [|a r]; [congruence|]. cbn [nonempty].
    rewrite (close_word_at done m (a :: r) l0 D0).
    destruct m as [|m']; cbn [Nat.ltb Nat.leb]; auto.
    rewrite <- app_assoc. cbn [app map Nat.sub]. rewrite ?Nat.sub_0_r.
    reflexivity.
  - inversion W as [|? ? Ww Wws]; subst.
    inversion L as [|? ls ? lss' Lw Lws]; subst.
    inversion D as [|? l ? labels' Dl Dls]; subst.
    cbn [List.concat]. rewrite for_each_app_result.
    destruct (word_whole w ls (done ++ repeat None m) (List.length done) sub Ww Lw)
      as (Nls & E).
    rewrite E. destruct sub as [|a r]; [congruence|]. cbn [nonempty].
    rewrite (close_word_at done m (a :: r) l0 D0).
    destruct m as [|m']; cbn [bind result_monad].
    + reflexivity.
    + assert (Len : List.length (done ++ [Some l0]) = S (List.length done)).
      { rewrite length_app. cbn. lia. }
      rewrite <- Len.
      pose proof (IH lss' labels' (done ++ [Some l0]) m' ls l Wws Lws Dls Nls Dl)
        as H.
      cbn [bind result_monad] in H. rewrite H.
      cbn [List.length]. 
      change (Nat.ltb (S (List.length ws)) (S m')) with (Nat.ltb (List.length ws) m').
      destruct (Nat.ltb (List.length ws) m'); auto.
      f_equal. rewrite <- app_assoc. cbn [app map Nat.sub]. reflexivity.
Qed.

Lemma label_words_words sentence preds ws lss labels :
  words_of preds ws ->
  Forall2 (labels_of index_to_label) ws lss ->
  Forall2 (fun ls l => determine_label set_order ls = Ok l) lss labels ->
  label_words set_order index_to_label sentence preds
  = if Nat.leb (List.length ws) (List.length sentence)
    then Ok (map Some labels
               ++ repeat None (List.length sentence - List.length ws))
    else Raise IndexError.
Proof.
  intros (P & W) L D. rewrite label_words_last, word_loop_skips_special, P.
  destruct ws as [|w ws].
  - inversion L; subst. inversion D; subst.
    cbn [List.concat for_each ret bind result_monad List.length map Nat.leb app].
    unfold last_word. cbn. now rewrite Nat.sub_0_r.
  - inversion W as [|? ? Ww Wws]; subst.
    inversion L as [|? ls ? lss' Lw Lws]; subst.
    inversion D as [|? l ? labels' Dl Dls]; subst.
    cbn [List.concat]. rewrite for_each_app_result.
    destruct (word_whole w ls (repeat None (List.length sentence)) 0 [] Ww Lw)
      as (Nls & E).
    rewrite E. cbn [nonempty bind result_monad].
    pose proof (words_loop ws lss' labels' [] (List.length sentence) ls l
                  Wws Lws Dls Nls Dl) as H.
    cbn [app List.length bind result_monad] in H. rewrite H. cbn [List.length].
    reflexivity.
Qed.

(** The labels of the sub-tokens of a word have a most frequent one. *)
Lemma words_have_labels ws : forall lss,
  Forall word_preds ws ->
  Forall2 (labels_of index_to_label) ws lss ->
  exists labels,
    Forall2 (fun ls l => determine_label set_order ls = Ok l
                         /\ In l ls
                         /\ forall x, (count x ls <= count l ls)%nat)
      lss labels.
Proof.
  induction ws as [|w ws IH]; intros lss W L.
  - inversion L; subst. exists []. constructor.
  - inversion W as [|? ? Ww Wws]; subst.
    inversion L as [|? ls ? lss' Lw Lws]; subst.
    destruct (IH lss' Wws Lws) as (labels & F).
    destruct w as [|p rest]; [destruct Ww|].
    inversion Lw as [|? l0 ? ls' Hp Hrest]; subst.
    destruct (determine_label_most_frequent set_order set_order_like (l0 :: ls'))
      as (l & E & Hl & M); [discriminate|].
    exists (l :: labels). constructor; auto.
Qed.

End Words.

(** *** The rows and the lines of the file *)

Lemma string_app_assoc (a b c : string) :
  ((a ++ b) ++ c = a ++ (b ++ c))%string.
Proof. induction a as [|x a IH]; cbn; congruence. Qed.

Lemma string_app_nil_r (a : string) : (a ++ "" = a)%string.
Proof. induction a as [|x a IH]; cbn; congruence. Qed.

Lemma every_app p (a b : string) :
  every p (a ++ b)%string = every p a && every p b.
Proof.
  induction a as [|x a IH]; cbn [append every andb]; auto.
  rewrite IH. now rewrite andb_assoc.
Qed.

Lemma clean_every s : clean s = every (fun c => negb (Ascii.eqb c tab)) s.
Proof. induction s as [|c r IH]; cbn; congruence. Qed.

Lemma plain_one_line s : plain s = true -> one_line s = true.
Proof.
  unfold one_line. induction s as [|c r IH]; cbn [plain every]; auto.
  intros H. apply andb_prop in H. destruct H as [H1 H2].
  rewrite IH by assumption. rewrite andb_true_r.
  unfold line_break, line_feed, carriage_return.
  destruct (Ascii.eqb c "010") eqn:E1.
  - apply Ascii.eqb_eq in E1. subst c. discriminate H1.
  - destruct (Ascii.eqb c "013") eqn:E2; auto.
    apply Ascii.eqb_eq in E2. subst c. discriminate H1.
Qed.

(** Taking pieces out of a text adds no character to it. *)
Lemma replace_from_every p old s : forall skip,
  every p s = true -> every p (replace_from old "" skip s) = true.
Proof.
  induction s as [|c r IH]; intros skip H; cbn [replace_from]; auto.
  cbn [every] in H. apply andb_prop in H. destruct H as [H1 H2].
  destruct skip as [|k]; auto.
  destruct (String.prefix old (String c r)).
  - cbn [append]. auto.
  - cbn [every]. rewrite H1. cbn [andb]. auto.
Qed.

Lemma shown_every p tok : every p tok = true -> every p (shown tok) = true.
Proof.
  intros H. unfold shown. destruct (contains "[PRED]" tok); auto.
  unfold str_replace. now apply replace_from_every.
Qed.

Lemma shown_field tok : field tok -> field (shown tok).
Proof.
  unfold field, one_line. rewrite !clean_every. intros (C & L).
  split; now apply shown_every.
Qed.

Lemma format_row_tsv sid tid tok gold sys :
  format_row sid tid tok gold sys
  = (tsv (str_of_int sid) (str_of_int tid) tok gold sys ++ newline)%string.
Proof.
  unfold format_row, tsv.
  repeat (rewrite string_app_assoc; cbn [append]). reflexivity.
Qed.

Lemma format_row_whole sid tid tok gold sys :
  one_line tok = true -> one_line gold = true -> one_line sys = true ->
  whole_line (format_row sid tid tok gold sys).
Proof.
  intros Lt Lg Ls. exists (tsv (str_of_int sid) (str_of_int tid) tok gold sys).
  split; [apply format_row_tsv|].
  pose proof (plain_one_line _ (proj1 (str_of_int_plain sid))) as Li.
  pose proof (plain_one_line _ (proj1 (str_of_int_plain tid))) as Lj.
  unfold one_line in *. unfold tsv.
  repeat (rewrite every_app; cbn [every]).
  rewrite Li, Lj, Lt, Lg, Ls. reflexivity.
Qed.

Lemma newline_whole : whole_line newline.
Proof. exists "". split; reflexivity. Qed.

Lemma lines_from_line body : forall cur rest,
  one_line body = true ->
  lines_from cur (body ++ newline ++ rest)%string
  = (cur ++ body ++ newline)%string :: lines_from "" rest.
Proof.
  unfold one_line.
  induction body as [|c r IH]; intros cur rest H; cbn [append].
  - reflexivity.
  - cbn [every] in H. apply andb_prop in H. destruct H as [H1 H2].
    apply negb_true_iff in H1. unfold line_break in H1.
    apply orb_false_iff in H1. destruct H1 as [F1 F2].
    cbn [lines_from]. rewrite F1, F2.
    change (newline ++ rest)%string with (String line_feed rest).
    change (String line_feed rest) with (newline ++ rest)%string.
    rewrite (IH (cur ++ String c "")%string rest H2).
    f_equal. rewrite string_app_assoc. reflexivity.
Qed.

Lemma concat_nil_cons x xs :
  String.concat "" (x :: xs) = (x ++ String.concat "" xs)%string.
Proof.
  destruct xs as [|y ys]; cbn [String.concat].
  - now rewrite string_app_nil_r.
  - reflexivity.
Qed.

(** A file written line by line is read back line by line. *)
Lemma file_lines_written (out : list string) :
  Forall whole_line out -> file_lines (file_text out) = out.
Proof.
  unfold file_lines, file_text. induction out as [|l out IH]; intros H.
  - reflexivity.
  - inversion H as [|? ? (body & -> & B) Hout]; subst.
    rewrite concat_nil_cons, string_app_assoc.
    rewrite (lines_from_line body "" _ B). cbn [append].
    now rewrite IH.
Qed.

Lemma none_label_text : label_text "None".
Proof. repeat split; cbn; congruence. Qed.

(** *** The rows of one sentence *)

Lemma write_rows_rows sid items : forall tid r,
  Forall row_item items -> In r (write_rows sid tid items) ->
  is_blank r = false
  /\ (exists x, parse_row r = Ok x /\ sentence_id x = str_of_int sid)
  /\ whole_line r.
Proof.
  induction items as [|[tok [sl gl]] items IH]; intros tid r F H;
    cbn [write_rows] in H; [destruct H|].
  inversion F as [|? ? Hit Frest]; subst.
  destruct Hit as (Ft & Fg & (Ts & Ls)).
  destruct (String.eqb tok "[SEP]"); [destruct H|].
  fold (shown tok) in H. destruct H as [<-|H]; [|eauto].
  destruct (shown_field tok Ft) as (Ct & Lt). destruct Fg as (Cg & Lg).
  destruct (format_row_parses sid (tid + 1) (shown tok) gl (str_of_label sl)
              Ct Cg Ts) as (P & B).
  repeat split; auto.
  - eexists. split; [exact P|reflexivity].
  - now apply format_row_whole.
Qed.

Lemma write_rows_fail sid items : forall tid,
  Forall row_item items ->
  existsb row_mismatch (write_rows sid tid items) = sentence_fails items.
Proof.
  unfold sentence_fails.
  induction items as [|[tok [sl gl]] items IH]; intros tid F;
    cbn [write_rows before_sep]; auto.
  inversion F as [|? ? Hit Frest]; subst.
  destruct Hit as (Ft & Fg & (Ts & Ls)).
  destruct (String.eqb tok "[SEP]"); auto.
  fold (shown tok). cbn [existsb]. rewrite IH by assumption. f_equal.
  destruct (shown_field tok Ft) as (Ct & Lt). destruct Fg as (Cg & Lg).
  destruct (format_row_parses sid (tid + 1) (shown tok) gl (str_of_label sl)
              Ct Cg Ts) as (P & B).
  unfold row_mismatch. rewrite P. reflexivity.
Qed.

Lemma write_rows_some sid tid tok x items :
  tok <> "[SEP]" -> write_rows sid tid ((tok, x) :: items) <> [].
Proof.
  intros N. destruct x as [sl gl]. cbn [write_rows].
  destruct (String.eqb tok "[SEP]") eqn:E; [|discriminate].
  apply String.eqb_eq in E. contradiction.
Qed.

(** *** The blocks of the file *)

(** A sentence whose rows can be read back: every item can be written
    as a row and the first one is not a ["[SEP]"] token. *)
Lemma blocks_from_ok itemss : forall sid,
  Forall (fun items => Forall row_item items
                       /\ exists tok x rest, items = (tok, x) :: rest
                                             /\ tok <> "[SEP]") itemss ->
  Forall well_formed_block (blocks_from sid itemss)
  /\ Forall whole_line (file_of_blocks (blocks_from sid itemss))
  /\ map b_id (filter block_fails (blocks_from sid itemss))
     = map str_of_int (failing_from sid itemss)
  /\ List.length (blocks_from sid itemss) = List.length itemss.
Proof.
  induction itemss as [|items itemss IH]; intros sid F.
  - cbn. repeat split; constructor.
  - inversion F as [|? ? (R & tok & x & rest & -> & N) Frest]; subst.
    destruct (IH (sid + 1) Frest) as (W & L & B & Len).
    cbn [blocks_from]. repeat split.
    + constructor; auto. unfold well_formed_block. cbn [b_rows b_end b_id].
      split; [now apply write_rows_some|]. split; [reflexivity|].
      intros l Hl. destruct (write_rows_rows sid _ 0 l R Hl) as (Bl & P & _).
      auto.
    + cbn [file_of_blocks flat_map]. fold (file_of_blocks (blocks_from (sid + 1) itemss)).
      apply Forall_app. split; auto.
      unfold block_lines. cbn [b_rows b_end]. apply Forall_app. split.
      * apply Forall_forall. intros r Hr.
        now destruct (write_rows_rows sid _ 0 r R Hr) as (_ & _ & Wl).
      * constructor; [apply newline_whole|constructor].
    + cbn [filter failing_from]. unfold block_fails at 1. cbn [b_rows].
      rewrite (write_rows_fail sid _ 0 R).
      destruct (sentence_fails ((tok, x) :: rest)); cbn [map app b_id];
        now rewrite B.
    + cbn [List.length]. now rewrite Len.
Qed.

Lemma evaluate_mft_blocks (bs : list block) :
  Forall well_formed_block bs ->
  evaluate_mft (file_of_blocks bs)
  = scored (List.length (filter block_fails bs)) (List.length bs)
      (map b_id (filter block_fails bs)).
Proof.
  intros W. unfold evaluate_mft, mft_scan, mft_init.
  rewrite (mft_blocks bs None 0 0 [] W). reflexivity.
Qed.

(** *** The loop over the sentences *)

Import PredictionTables.

Lemma for_each_written_cons {A S} (body : S -> A -> written S) x xs st :
  for_each body (x :: xs) st
  = match body st x with
    | (out, Ok st') =>
        let '(out', r) := for_each body xs st' in ((out ++ out')%list, r)
    | (out, Raise e) => (out, Raise e)
    end.
Proof. reflexivity. Qed.

Lemma for_each_written_app {A S} (body : S -> A -> written S) xs ys :
  forall st out st',
  for_each body xs st = (out, Ok st') ->
  for_each body (xs ++ ys) st
  = (let '(out', r) := for_each body ys st' in ((out ++ out')%list, r)).
Proof.
  induction xs as [|x xs IH]; intros st out st' H.
  - cbn in H. inversion H; subst. cbn [app].
    destruct (for_each body ys st'). reflexivity.
  - cbn [app]. rewrite for_each_written_cons in *.
    destruct (body st x) as [o [s|e]]; [|discriminate].
    destruct (for_each body xs s) as [o' r] eqn:F.
    inversion H; subst. rewrite (IH s o' st' F).
    destruct (for_each body ys st'). now rewrite app_assoc.
Qed.

Section Sentences.
Context (set_order : list string -> list string).
Context (predict : list string -> list prediction).
Context (index_to_label : dict Z string).

Lemma write_sentence_eq sid s g :
  write_sentence set_order predict index_to_label sid (s, g)
  = match label_words set_order index_to_label s (predict s) with
    | Ok labels =>
        (write_rows sid 0 (triples s labels g) ++ [newline], Ok (sid + 1))
    | Raise e => ([], Raise e)
    end.
Proof.
  unfold write_sentence, computed, emit, triples.
  destruct (label_words set_order index_to_label s (predict s)); cbn; auto.
Qed.

Lemma bert_loop sgs : forall sid out k,
  for_each (write_sentence set_order predict index_to_label) sgs sid
  = (out, Ok k) ->
  exists labelss,
    Forall2 (fun sg labels =>
               label_words set_order index_to_label (fst sg) (predict (fst sg))
               = Ok labels) sgs labelss
    /\ out = file_of_blocks (blocks_from sid (sentence_items sgs labelss))
    /\ k = sid + Z.of_nat (List.length sgs).
Proof.
  induction sgs as [|[s g] sgs IH]; intros sid out k H.
  - cbn in H. inversion H; subst. exists [].
    split; [constructor|]. split; [reflexivity|cbn; lia].
  - rewrite for_each_written_cons, write_sentence_eq in H.
    destruct (label_words set_order index_to_label s (predict s))
      as [labels|e] eqn:Lw; [|discriminate].
    destruct (for_each (write_sentence set_order predict index_to_label)
                sgs (sid + 1)) as [o' r] eqn:F.
    inversion H; subst; clear H.
    destruct (IH (sid + 1) o' k F) as (labelss & F2 & -> & ->).
    exists (labels :: labelss). split; [|split].
    + constructor; auto.
    + unfold sentence_items. cbn [combine map blocks_from fst snd].
      cbn [file_of_blocks flat_map]. unfold block_lines at 1.
      cbn [b_rows b_end]. reflexivity.
    + cbn [List.length]. lia.
Qed.

(** An exception in a sentence leaves what was written before it. *)
Lemma bert_loop_raises pre s g post sid out k e :
  for_each (write_sentence set_order predict index_to_label) pre sid
  = (out, Ok k) ->
  label_words set_order index_to_label s (predict s) = Raise e ->
  for_each (write_sentence set_order predict index_to_label)
    (pre ++ (s, g) :: post) sid
  = (out, Raise e).
Proof.
  intros P R. rewrite (for_each_written_app _ pre _ sid out k P).
  rewrite for_each_written_cons, write_sentence_eq, R.
  now rewrite app_nil_r.
Qed.

Hypothesis set_order_like : set_like set_order.
Hypothesis table_texts : label_table index_to_label.

Lemma triples_row_items s : forall labels g,
  Forall field s -> Forall field g ->
  (forall l, In l labels -> label_text (str_of_label l)) ->
  Forall row_item (triples s labels g).
Proof.
  unfold triples.
  induction s as [|tok s IH]; intros labels g Fs Fg Fl; cbn [combine];
    [constructor|].
  destruct labels as [|l labels]; cbn [combine]; [constructor|].
  destruct g as [|gl g]; cbn [combine]; [constructor|].
  inversion Fs; subst. inversion Fg; subst.
  constructor.
  - cbn. split; [assumption|]. split; [assumption|]. apply Fl. cbn; auto.
  - apply IH; auto. intros l' Hl'. apply Fl. cbn; auto.
Qed.

Lemma labels_texts s preds labels :
  label_words set_order index_to_label s preds = Ok labels ->
  forall l, In l labels -> label_text (str_of_label l).
Proof.
  intros H l Hl.
  destruct (label_words_shape set_order set_order_like index_to_label
              s preds labels H) as (_ & T).
  destruct l as [x|]; cbn [str_of_label].
  - destruct (T x Hl) as (k & G). eapply table_texts; eauto.
  - exact none_label_text.
Qed.

Lemma sentence_items_ok sgs labelss :
  Forall2 (fun sg labels =>
             label_words set_order index_to_label (fst sg) (predict (fst sg))
             = Ok labels) sgs labelss ->
  Forall (fun sg => writable (fst sg) (snd sg)) sgs ->
  Forall (fun items => Forall row_item items
                       /\ exists tok x rest, items = (tok, x) :: rest
                                             /\ tok <> "[SEP]")
    (sentence_items sgs labelss).
Proof.
  unfold sentence_items.
  induction 1 as [|[s g] labels sgs labelss Lw F2 IH]; intros W;
    cbn [combine map]; [constructor|].
  inversion W as [|? ? (Fs & Fg & Hd) Wrest]; subst.
  cbn [fst snd] in *. constructor; auto. split.
  - apply triples_row_items; auto. eapply labels_texts; eauto.
  - destruct (label_words_shape set_order set_order_like index_to_label
                s (predict s) labels Lw) as (Len & _).
    destruct s as [|tok s]; [destruct Hd|].
    destruct g as [|gl g]; [destruct Hd|].
    destruct labels as [|l labels]; [discriminate|].
    exists tok, (l, gl), (triples s labels g). split; [reflexivity|exact Hd].
Qed.

Lemma bert_file_scored sgs out k :
  Forall (fun sg => writable (fst sg) (snd sg)) sgs ->
  for_each (write_sentence set_order predict index_to_label) sgs 1
  = (out, Ok k) ->
  exists labelss,
    Forall2 (fun sg labels =>
               label_words set_order index_to_label (fst sg) (predict (fst sg))
               = Ok labels) sgs labelss
    /\ evaluate_mft (file_lines (file_text out))
       = scored (List.length (failing_from 1 (sentence_items sgs labelss)))
           (List.length sgs)
           (map str_of_int (failing_from 1 (sentence_items sgs labelss))).
Proof.
  intros W H. destruct (bert_loop sgs 1 out k H) as (labelss & F2 & -> & _).
  exists labelss. split; auto.
  destruct (blocks_from_ok (sentence_items sgs labelss) 1
              (sentence_items_ok sgs labelss F2 W)) as (Wf & Wl & B & Len).
  rewrite (file_lines_written _ Wl), (evaluate_mft_blocks _ Wf).
  rewrite <- (length_map b_id), B, length_map, Len.
  f_equal. unfold sentence_items. rewrite length_map.
  rewrite length_combine. rewrite (Forall2_length F2). apply Nat.min_id.
Qed.

End Sentences.

Lemma combine_app_same {A B} (a : list A) : forall (c : list B) b d,
  List.length a = List.length c ->
  combine (a ++ b) (c ++ d) = combine a c ++ combine b d.
Proof.
  induction a as [|x a IH]; intros [|y c] b d L; cbn in L; try discriminate.
  - reflexivity.
  - cbn. f_equal. apply IH. lia.
Qed.

Lemma table_get_In {V} (d : dict Z V) : forall k v,
  dict_get Z.eqb d k = Some v -> In (k, v) d.
Proof.
  induction d as [|[k' v'] d IH]; intros k v H; cbn in H; [discriminate|].
  destruct (Z.eqb k k') eqn:E.
  - apply Z.eqb_eq in E. inversion H; subst. cbn; auto.
  - cbn; auto.
Qed.

Lemma label_textb_text s : label_textb s = true -> label_text s.
Proof.
  unfold label_textb, label_text, tidy. intros H.
  apply andb_prop in H. destruct H as [H L].
  apply andb_prop in H. destruct H as [H N].
  apply andb_prop in H. destruct H as [C R].
  apply String.eqb_eq in R. apply negb_true_iff in N.
  apply String.eqb_neq in N. auto.
Qed.

(** The labels of [main] can all be written at the end of a row. *)
Lemma main_label_table : label_table index_to_label.
Proof.
  intros k l G. apply table_get_In in G. apply label_textb_text.
  assert (F : forallb (fun kv => label_textb (snd kv)) index_to_label = true)
    by (vm_compute; reflexivity).
  rewrite forallb_forall in F. exact (F (k, l) G).
Qed.

Lemma sample_writable :
  Forall (fun sg => writable (fst sg) (snd sg))
    (combine sample_sentences sample_golds).
Proof.
  repeat constructor; cbn; congruence.
Qed.

(** *** From the input file to the scores *)

Lemma lstrip_app a b :
  lstrip (a ++ b)%string
  = match lstrip a with
    | EmptyString => lstrip b
    | x => (x ++ b)%string
    end.
Proof.
  induction a as [|c r IH]; cbn [append lstrip].
  - reflexivity.
  - destruct (isspace c); auto.
Qed.

Lemma strip_line_feed s : strip (s ++ newline)%string = strip s.
Proof.
  unfold strip. rewrite lstrip_app. destruct (lstrip s) as [|c r] eqn:E.
  - reflexivity.
  - unfold newline. now rewrite rstrip_app_space.
Qed.

Lemma every_lstrip p s : every p s = true -> every p (lstrip s) = true.
Proof.
  induction s as [|c r IH]; cbn [lstrip]; auto.
  intros H. destruct (isspace c); auto.
  cbn [every] in H. apply andb_prop in H. now apply IH.
Qed.

Lemma every_rstrip p s : every p s = true -> every p (rstrip s) = true.
Proof.
  induction s as [|c r IH]; cbn [rstrip]; auto.
  intros H. cbn [every] in H. apply andb_prop in H. destruct H as [H1 H2].
  specialize (IH H2). destruct (rstrip r) as [|c' r'].
  - destruct (isspace c); cbn [every]; auto. now rewrite H1.
  - cbn [every] in *. now rewrite H1, IH.
Qed.

Lemma every_strip p s : every p s = true -> every p (strip s) = true.
Proof. intros H. unfold strip. now apply every_rstrip, every_lstrip. Qed.

Lemma every_split p sep s :
  every p s = true -> Forall (fun x => every p x = true) (split sep s).
Proof.
  induction s as [|c r IH]; cbn [split]; intros H.
  - repeat constructor.
  - cbn [every] in H. apply andb_prop in H. destruct H as [H1 H2].
    specialize (IH H2). destruct (Ascii.eqb c sep).
    + constructor; auto.
    + destruct (split sep r) as [|f fs].
      * repeat constructor. cbn. now rewrite H1.
      * inversion IH; subst. constructor; auto. cbn [every].
        rewrite H1. assumption.
Qed.

Lemma split_parts_clean s : Forall (fun x => clean x = true) (split tab s).
Proof.
  induction s as [|c r IH]; cbn [split].
  - repeat constructor.
  - destruct (Ascii.eqb c tab) eqn:E.
    + constructor; auto.
    + destruct (split tab r) as [|f fs].
      * repeat constructor. cbn. now rewrite E.
      * inversion IH; subst. constructor; auto. cbn [clean].
        rewrite E. assumption.
Qed.

(** The lines of a file hold no line break but the one at their end. *)
Lemma lines_from_one_line s : forall cur,
  one_line cur = true ->
  Forall (fun l => one_line (strip l) = true) (lines_from cur s).
Proof.
  assert (N : forall cur, one_line cur = true ->
                one_line (strip (cur ++ newline)%string) = true).
  { intros cur H. rewrite strip_line_feed. now apply every_strip. }
  induction s as [|c r IH]; intros cur H; cbn [lines_from].
  - destruct cur; repeat constructor. now apply every_strip.
  - destruct (Ascii.eqb c line_feed) eqn:E1.
    + constructor; auto.
    + destruct (Ascii.eqb c carriage_return) eqn:E2.
      * constructor; auto.
        destruct r as [|c' r']; [constructor|].
        destruct (Ascii.eqb c' line_feed) eqn:E3; [|now apply IH].
        specialize (IH "" eq_refl). cbn [lines_from] in IH.
        rewrite E3 in IH. inversion IH; subst. assumption.
      * apply IH. unfold one_line in *. rewrite every_app, H.
        cbn. unfold line_break. now rewrite E1, E2.
Qed.

Lemma file_lines_one_line text :
  Forall (fun l => one_line (strip l) = true) (file_lines text).
Proof. now apply lines_from_one_line. Qed.

Lemma empty_field : field "".
Proof. split; reflexivity. Qed.

Lemma row_fields line :
  one_line (strip line) = true ->
  field (row_token line) /\ field (row_gold line).
Proof.
  intros L. unfold row_token, row_gold, parse_token_gold.
  pose proof (split_parts_clean (strip line)) as C.
  pose proof (every_split _ tab _ L) as O.
  destruct (split tab (strip line)) as [|a [|b [|c [|d rest]]]];
    cbn [skipn firstn fst snd]; try (split; exact empty_field).
  repeat match goal with
         | H : Forall _ (_ :: _) |- _ => inversion H; subst; clear H
         end.
  split; split; assumption.
Qed.

Lemma read_fields lines sentences golds :
  Forall (fun l => one_line (strip l) = true) lines ->
  read_sentences_from_file lines = Ok (sentences, golds) ->
  Forall2 (fun s g => List.length s = List.length g /\ s <> [])
    sentences golds
  /\ Forall (Forall field) sentences /\ Forall (Forall field) golds.
Proof.
  intros L H.
  destruct (reader_keeps_every_token lines sentences golds H) as (T & G & F).
  assert (R : forall l, In l (rows_of lines) -> one_line (strip l) = true).
  { intros l Hl. unfold rows_of in Hl. apply filter_In in Hl.
    rewrite Forall_forall in L. now apply L. }
  split; [exact F|]. split.
  - apply Forall_forall. intros s Hs. apply Forall_forall. intros tok Ht.
    assert (I : In tok (List.concat sentences)).
    { apply in_concat. eauto. }
    rewrite T in I. apply in_map_iff in I. destruct I as (l & <- & Hl).
    now apply row_fields, R.
  - apply Forall_forall. intros g Hg. apply Forall_forall. intros x Hx.
    assert (I : In x (List.concat golds)).
    { apply in_concat. eauto. }
    rewrite G in I. apply in_map_iff in I. destruct I as (l & <- & Hl).
    now apply row_fields, R.
Qed.

Lemma read_writable sentences : forall golds,
  Forall2 (fun s g => List.length s = List.length g /\ s <> [])
    sentences golds ->
  Forall (Forall field) sentences -> Forall (Forall field) golds ->
  Forall (fun s => hd "" s <> "[SEP]") sentences ->
  Forall (fun sg => writable (fst sg) (snd sg)) (combine sentences golds)
  /\ List.length (combine sentences golds) = List.length sentences.
Proof.
  induction sentences as [|s sentences IH]; intros golds F Fs Fg Hd.
  - inversion F; subst. split; constructor.
  - inversion F as [|? g ? golds' (Len & Ne) F']; subst.
    inversion Fs; subst. inversion Fg; subst. inversion Hd; subst.
    destruct (IH golds') as (W & L); auto.
    cbn [combine List.length]. split; [|now rewrite L].
    constructor; auto. cbn [fst snd]. repeat split; auto.
    destruct s as [|tok s]; [congruence|].
    destruct g as [|gl g]; [discriminate|]. assumption.
Qed.

Lemma failing_from_range itemss : forall sid,
  Forall (fun i => sid <= i <= sid + Z.of_nat (List.length itemss) - 1)
    (failing_from sid itemss).
Proof.
  induction itemss as [|items itemss IH]; intros sid; cbn [failing_from].
  - constructor.
  - apply Forall_app. split.
    + destruct (sentence_fails items); repeat constructor; cbn [List.length]; lia.
    + eapply Forall_impl; [|apply IH]. cbn beta. intros i H.
      cbn [List.length]. lia.
Qed.

(** *** The properties of [bert_predictions] *)

(** X18.  When the sub-tokens given for a sentence are those of the
    words [ws], special tokens aside, and their predicted indices are
    keys of [index_to_label], every word gets a most frequent label of
    its sub-tokens, in order, and the tokens of the sentence that are
    left keep [None]; with more words than the sentence has tokens,
    [IndexError] is raised. *)
Theorem words_get_their_most_frequent_label
  (set_order : list string -> list string) (index_to_label : dict Z string)
  (sentence : list string) (preds : list prediction)
  (ws : list (list prediction)) (lss : list (list string)) :
  set_like set_order ->
  words_of preds ws ->
  Forall2 (labels_of index_to_label) ws lss ->
  exists labels,
    Forall2 (fun ls l => In l ls /\ forall x, (count x ls <= count l ls)%nat)
      lss labels
    /\ label_words set_order index_to_label sentence preds
       = if Nat.leb (List.length ws) (List.length sentence)
         then Ok (map Some labels
                    ++ repeat None (List.length sentence - List.length ws))
         else Raise IndexError.
Proof.
  intros S W L.
  destruct (words_have_labels set_order S index_to_label ws lss (proj2 W) L)
    as (labels & F).
  exists labels. split.
  - eapply Forall2_impl; [|exact F]. cbn. intros ls l (_ & H). exact H.
  - apply (label_words_words set_order index_to_label sentence preds ws lss);
      auto.
    eapply Forall2_impl; [|exact F]. cbn. intros ls l (H & _). exact H.
Qed.

Lemma words_get_their_most_frequent_label_witness :
  exists labels,
    Forall2 (fun ls l => In l ls /\ forall x, (count x ls <= count l ls)%nat)
      [["ARG0"]; ["ARGM-MNR"; "ARGM-ADV"]] labels
    /\ label_words first_seen index_to_label ["She"; "slowly"; "today"]
         (sample_predict ["She"; "slowly"])
       = if Nat.leb 2 3 then Ok (map Some labels ++ repeat None (3 - 2))
         else Raise IndexError.
Proof.
  apply (words_get_their_most_frequent_label first_seen index_to_label
           ["She"; "slowly"; "today"] (sample_predict ["She"; "slowly"])
           [[(0, 3, 0)]; [(0, 4, 19); (4, 6, 9)]]
           [["ARG0"]; ["ARGM-MNR"; "ARGM-ADV"]]
           first_seen_set_like
           ltac:(split; [vm_compute; reflexivity | repeat constructor])
           ltac:(repeat constructor)).
Defined.

(** X19.  Whatever sub-tokens are given, when [label_words] returns, the
    list has one entry for every token of the sentence, and every entry
    is [None] or a value of [index_to_label]. *)
Theorem word_labels_one_per_token
  (set_order : list string -> list string) (index_to_label : dict Z string)
  (sentence : list string) (preds : list prediction)
  (labels : list (option string)) :
  set_like set_order ->
  label_words set_order index_to_label sentence preds = Ok labels ->
  List.length labels = List.length sentence
  /\ forall l, In (Some l) labels ->
       exists k, dict_get Z.eqb index_to_label k = Some l.
Proof. intros S. now apply label_words_shape. Qed.

Lemma word_labels_one_per_token_witness :
  List.length [Some "ARG0"; Some "ARGM-MNR"; None]
  = List.length ["She"; "slowly"; "today"]
  /\ forall l, In (Some l) [Some "ARG0"; Some "ARGM-MNR"; None] ->
       exists k, dict_get Z.eqb index_to_label k = Some l.
Proof.
  apply (word_labels_one_per_token first_seen index_to_label
           ["She"; "slowly"; "today"] (sample_predict ["She"; "slowly"])
           [Some "ARG0"; Some "ARGM-MNR"; None]
           first_seen_set_like ltac:(vm_compute; reflexivity)).
Defined.

(** X20.  The file that [bert_predictions] writes, read back by
    [evaluate_mft]: when the run ends without an exception, the labels
    of [index_to_label] can stand at the end of a row, and every
    sentence written has tokens and gold labels without tab or line
    break and begins with a token other than ["[SEP]"], the total is the
    number of sentences written and the failed ids are the positions,
    counted from 1, of the sentences that have, before their ["[SEP]"],
    a token whose gold label is not ["_"] and differs from its word
    label. *)
Theorem predictions_scored_by_mft
  (set_order : list string -> list string)
  (predict : list string -> list prediction)
  (index_to_label : dict Z string)
  (sentence_list gold_list : list (list string)) (out : list string) (k : Z) :
  set_like set_order ->
  label_table index_to_label ->
  Forall (fun sg => writable (fst sg) (snd sg))
    (combine sentence_list gold_list) ->
  bert_predictions set_order predict index_to_label sentence_list gold_list
  = (out, Ok k) ->
  exists labelss,
    Forall2 (fun sg labels =>
               label_words set_order index_to_label (fst sg) (predict (fst sg))
               = Ok labels) (combine sentence_list gold_list) labelss
    /\ evaluate_mft (file_lines (file_text out))
       = scored
           (List.length
              (failing_from 1
                 (sentence_items (combine sentence_list gold_list) labelss)))
           (List.length (combine sentence_list gold_list))
           (map str_of_int
              (failing_from 1
                 (sentence_items (combine sentence_list gold_list) labelss))).
Proof.
  intros S T W H.
  exact (bert_file_scored set_order predict index_to_label S T _ out k W H).
Qed.

Lemma predictions_scored_by_mft_witness :
  exists labelss,
    Forall2 (fun sg labels =>
               label_words first_seen index_to_label (fst sg)
                 (sample_predict (fst sg)) = Ok labels)
      (combine sample_sentences sample_golds) labelss
    /\ evaluate_mft
         (file_lines
            (file_text
               (fst (bert_predictions first_seen sample_predict index_to_label
                       sample_sentences sample_golds))))
       = scored
           (List.length
              (failing_from 1
                 (sentence_items (combine sample_sentences sample_golds)
                    labelss)))
           (List.length (combine sample_sentences sample_golds))
           (map str_of_int
              (failing_from 1
                 (sentence_items (combine sample_sentences sample_golds)
                    labelss))).
Proof.
  apply (predictions_scored_by_mft first_seen sample_predict index_to_label
           sample_sentences sample_golds _ 3
           first_seen_set_like main_label_table sample_writable
           ltac:(vm_compute; reflexivity)).
Defined.

(** X21.  An exception while the words of a sentence are labelled ends
    [bert_predictions] with that exception: the file holds what the run
    on the sentences before it writes, and nothing of this sentence or
    of those after it. *)
Theorem exception_keeps_earlier_sentences
  (set_order : list string -> list string)
  (predict : list string -> list prediction)
  (index_to_label : dict Z string)
  (sentences_before golds_before : list (list string))
  (sentence gold_labels : list string)
  (sentences_after golds_after : list (list string))
  (out : list string) (k : Z) (e : exn) :
  List.length sentences_before = List.length golds_before ->
  bert_predictions set_order predict index_to_label
    sentences_before golds_before = (out, Ok k) ->
  label_words set_order index_to_label sentence (predict sentence) = Raise e ->
  bert_predictions set_order predict index_to_label
    (sentences_before ++ sentence :: sentences_after)
    (golds_before ++ gold_labels :: golds_after)
  = (out, Raise e).
Proof.
  intros L P R. unfold bert_predictions in *.
  rewrite (combine_app_same _ _ _ _ L). cbn [combine].
  eapply bert_loop_raises; eauto.
Qed.

Lemma exception_keeps_earlier_sentences_witness :
  bert_predictions first_seen sample_predict index_to_label
    (sample_sentences ++ ["zzz"] :: [["He"]])
    (sample_golds ++ ["_"] :: [["_"]])
  = (fst (bert_predictions first_seen sample_predict index_to_label
            sample_sentences sample_golds), Raise KeyError).
Proof.
  apply (exception_keeps_earlier_sentences first_seen sample_predict
           index_to_label sample_sentences sample_golds ["zzz"] ["_"]
           [["He"]] [["_"]] _ 3 KeyError
           ltac:(reflexivity) ltac:(vm_compute; reflexivity)
           ltac:(vm_compute; reflexivity)).
Defined.

(** X22.  From the input file to the score: when the sentences that
    [read_sentences_from_file] reads from a file are written by
    [bert_predictions] without an exception, no sentence beginning with
    a ["[SEP]"] token and the labels of [index_to_label] being texts
    that can stand at the end of a row, [evaluate_mft] on the file
    written counts exactly the sentences read, and every failed id is
    the position of a sentence, written in decimal. *)
Theorem pipeline_counts_every_sentence
  (set_order : list string -> list string)
  (predict : list string -> list prediction)
  (index_to_label : dict Z string) (text : string)
  (sentence_list gold_list : list (list string))
  (out : list string) (k : Z) :
  set_like set_order ->
  label_table index_to_label ->
  read_sentences_from_file (file_lines text) = Ok (sentence_list, gold_list) ->
  Forall (fun s => hd "" s <> "[SEP]") sentence_list ->
  bert_predictions set_order predict index_to_label sentence_list gold_list
  = (out, Ok k) ->
  exists failed : list Z,
    evaluate_mft (file_lines (file_text out))
    = scored (List.length failed) (List.length sentence_list)
        (map str_of_int failed)
    /\ Forall (fun i => 1 <= i <= Z.of_nat (List.length sentence_list)) failed.
Proof.
  intros S T R Hd B.
  destruct (read_fields _ _ _ (file_lines_one_line text) R) as (F & Fs & Fg).
  destruct (read_writable _ _ F Fs Fg Hd) as (W & L).
  destruct (bert_file_scored set_order predict index_to_label S T _ out k W B)
    as (labelss & F2 & E).
  exists (failing_from 1 (sentence_items (combine sentence_list gold_list) labelss)).
  rewrite L in E. split; [exact E|].
  pose proof (failing_from_range
                (sentence_items (combine sentence_list gold_list) labelss) 1)
    as Rg.
  assert (Len : List.length
                  (sentence_items (combine sentence_list gold_list) labelss)
                = List.length sentence_list).
  { unfold sentence_items. rewrite length_map, length_combine.
    rewrite <- (Forall2_length F2), Nat.min_id. exact L. }
  rewrite Len in Rg. eapply Forall_impl; [|exact Rg].
  cbn beta. intros i H. lia.
Qed.

Lemma pipeline_counts_every_sentence_witness :
  exists failed : list Z,
    evaluate_mft
      (file_lines
         (file_text
            (fst (bert_predictions first_seen sample_predict index_to_label
                    (fst sample_read) (snd sample_read)))))
    = scored (List.length failed) (List.length (fst sample_read))
        (map str_of_int failed)
    /\ Forall (fun i => 1 <= i <= Z.of_nat (List.length (fst sample_read)))
         failed.
Proof.
  apply (pipeline_counts_every_sentence first_seen sample_predict
           index_to_label sample_input (fst sample_read) (snd sample_read)
           _ 3 first_seen_set_like main_label_table
           ltac:(vm_compute; reflexivity)
           ltac:(repeat constructor; cbn; congruence)
           ltac:(vm_compute; reflexivity)).
Defined.

Import PredictionFiles.

(** *** [str.replace] and the names of the output files *)

Lemma prefix_nil x : String.prefix "" x = true.
Proof. destruct x; reflexivity. Qed.

Lemma prefix_cons c o d x :
  String.prefix (String c o) (String d x) = true
  <-> c = d /\ String.prefix o x = true.
Proof.
  cbn [String.prefix]. destruct (ascii_dec c d) as [->|N].
  - tauto.
  - split; [discriminate|]. intros [E _]. contradiction.
Qed.

Lemma prefix_app_l o : forall x z,
  String.prefix o x = true -> String.prefix o (x ++ z)%string = true.
Proof.
  induction o as [|c o IH]; intros x z H; [apply prefix_nil|].
  destruct x as [|d x]; [discriminate|]. cbn [append].
  apply prefix_cons in H. apply prefix_cons. destruct H; auto.
Qed.

Lemma prefix_app_same o z : String.prefix o (o ++ z)%string = true.
Proof.
  induction o as [|c o IH]; [apply prefix_nil|]. cbn [append].
  apply prefix_cons. auto.
Qed.

Lemma prefix_length o : forall x,
  String.prefix o x = true -> (String.length o <= String.length x)%nat.
Proof.
  induction o as [|c o IH]; intros x H; cbn [String.length]; [lia|].
  destruct x as [|d x]; [discriminate|]. apply prefix_cons in H.
  destruct H as [_ H]. apply IH in H. cbn [String.length]. lia.
Qed.

(** The characters of a match are skipped. *)
Lemma replace_from_skip old new x : forall z,
  replace_from old new (String.length x) (x ++ z)%string
  = replace_from old new 0 z.
Proof.
  induction x as [|c x IH]; intros z; cbn [String.length append].
  - reflexivity.
  - cbn [replace_from]. apply IH.
Qed.

Lemma replace_from_nil old new k : replace_from old new k "" = "".
Proof. reflexivity. Qed.

(** Replacing goes through a text piece by piece where no occurrence
    lies across the pieces. *)
Lemma replace_from_app old new z :
  barrier old z ->
  forall a k, (k <= String.length a)%nat ->
  replace_from old new k (a ++ z)%string
  = (replace_from old new k a ++ replace_from old new 0 z)%string.
Proof.
  intros B. induction a as [|c r IH]; intros k L.
  - cbn [String.length] in L. assert (k = 0)%nat by lia. subst k.
    reflexivity.
  - cbn [append]. destruct k as [|k]; cbn [replace_from].
    + destruct (String.prefix old (String c r)) eqn:P.
      * assert (Q : String.prefix old (String c (r ++ z)) = true).
        { now apply (prefix_app_l old (String c r) z). }
        rewrite Q. apply prefix_length in P. cbn [String.length] in P.
        rewrite IH by lia. now rewrite string_app_assoc.
      * destruct (String.prefix old (String c (r ++ z))) eqn:Q.
        -- apply (B (String c r)) in Q; [congruence|discriminate].
        -- cbn [append]. f_equal. apply IH. lia.
    + apply IH. cbn [String.length] in L. lia.
Qed.

(** A character that [old] does not have stops every occurrence. *)
Lemma prefix_stops m o : forall x w,
  char_in m o = false ->
  String.prefix o (x ++ String m w)%string = true ->
  String.prefix o x = true.
Proof.
  induction o as [|c o IH]; intros x w N H; [apply prefix_nil|].
  cbn [char_in] in N. apply orb_false_iff in N. destruct N as [N1 N2].
  destruct x as [|d x]; cbn [append] in H; apply prefix_cons in H;
    destruct H as [E H].
  - subst c. now rewrite Ascii.eqb_refl in N1.
  - apply prefix_cons. split; auto. eapply IH; eauto.
Qed.

Lemma barrier_char old m w : char_in m old = false -> barrier old (String m w).
Proof. intros N x _ H. eapply prefix_stops; eauto. Qed.

(** The first character of [old], found nowhere else in it, begins
    every occurrence. *)
Lemma barrier_old c t b :
  char_in c t = false -> barrier (String c t) (String c t ++ b)%string.
Proof.
  intros N x Nx H. destruct x as [|d x]; [congruence|].
  cbn [append] in H. apply prefix_cons in H. destruct H as [-> H].
  apply prefix_cons. split; auto. eapply prefix_stops; eauto.
Qed.

Lemma replace_from_old c t new b :
  replace_from (String c t) new 0 (String c t ++ b)%string
  = (new ++ replace_from (String c t) new 0 b)%string.
Proof.
  cbn [append replace_from].
  change (String c (t ++ b)) with (String c t ++ b)%string.
  rewrite prefix_app_same. cbn [String.length Nat.sub].
  rewrite Nat.sub_0_r. now rewrite replace_from_skip.
Qed.

(** A mark that shares no character with [old] is copied. *)
Lemma replace_from_mark old new mark : forall v,
  old <> "" -> apart mark old = true ->
  replace_from old new 0 (mark ++ v)%string
  = (mark ++ replace_from old new 0 v)%string.
Proof.
  intros v No. induction mark as [|m mark IH]; intros A; [reflexivity|].
  cbn [apart] in A. apply andb_prop in A. destruct A as [A1 A2].
  apply negb_true_iff in A1. cbn [append replace_from].
  destruct (String.prefix old (String m (mark ++ v))) eqn:P.
  - destruct old as [|c o]; [congruence|].
    apply prefix_cons in P. destruct P as [-> _].
    cbn [char_in] in A1. now rewrite Ascii.eqb_refl in A1.
  - f_equal. now apply IH.
Qed.

Lemma substring_all s : String.substring 0 (String.length s) s = s.
Proof. induction s as [|c s IH]; cbn; congruence. Qed.

Lemma substring_app_skip a : forall n b,
  String.substring (String.length a) n (a ++ b)%string
  = String.substring 0 n b.
Proof. induction a as [|c a IH]; intros n b; cbn; auto. Qed.

Lemma string_length_app a b :
  String.length (a ++ b)%string = (String.length a + String.length b)%nat.
Proof. induction a as [|c a IH]; cbn; congruence. Qed.

Lemma endswith_app a b : endswith (a ++ b)%string b = true.
Proof.
  unfold endswith. rewrite string_length_app.
  replace (String.length a + String.length b - String.length b)%nat
    with (String.length a) by lia.
  rewrite substring_app_skip, substring_all, String.eqb_refl.
  rewrite andb_true_r. apply Nat.leb_le. lia.
Qed.

Lemma substring_split s : forall m,
  (m <= String.length s)%nat ->
  s = (String.substring 0 m s
       ++ String.substring m (String.length s - m) s)%string.
Proof.
  induction s as [|c s IH]; intros m L.
  - cbn in L. assert (m = 0)%nat by lia. subst. reflexivity.
  - destruct m as [|m].
    + cbn [String.substring append Nat.sub String.length].
      now rewrite substring_all.
    + cbn [String.length] in L. cbn [String.substring String.length Nat.sub append].
      f_equal. apply IH. lia.
Qed.

Lemma endswith_split s suffix :
  endswith s suffix = true -> exists a, s = (a ++ suffix)%string.
Proof.
  unfold endswith. intros H. apply andb_prop in H. destruct H as [L E].
  apply Nat.leb_le in L. apply String.eqb_eq in E.
  exists (String.substring 0 (String.length s - String.length suffix) s).
  pose proof (substring_split s (String.length s - String.length suffix)
                ltac:(lia)) as S.
  replace (String.length s - (String.length s - String.length suffix))%nat
    with (String.length suffix) in S by lia.
  rewrite E in S. exact S.
Qed.

Lemma contains_split mark : forall s,
  contains mark s = true ->
  exists u v, s = (u ++ mark ++ v)%string.
Proof.
  assert (P : forall o x, String.prefix o x = true ->
                exists v, x = (o ++ v)%string).
  { induction o as [|c o IH]; intros x H.
    - exists x. reflexivity.
    - destruct x as [|d x]; [discriminate|]. apply prefix_cons in H.
      destruct H as [-> H]. destruct (IH x H) as (v & ->).
      exists v. reflexivity. }
  induction s as [|c s IH]; intros H; cbn [contains] in H.
  - destruct (String.prefix mark "") eqn:E; [|discriminate].
    destruct (P _ _ E) as (v & ->). exists "", v. reflexivity.
  - destruct (String.prefix mark (String c s)) eqn:E.
    + destruct (P _ _ E) as (v & ->). exists "", v. reflexivity.
    + destruct (IH H) as (u & v & ->). exists (String c u), v. reflexivity.
Qed.

Lemma contains_app mark : forall u v,
  contains mark (u ++ mark ++ v)%string = true.
Proof.
  induction u as [|c u IH]; intros v; cbn [append].
  - destruct (mark ++ v)%string eqn:E; cbn [contains];
      rewrite <- E, prefix_app_same; reflexivity.
  - cbn [contains]. rewrite IH. now destruct (String.prefix _ _).
Qed.

Lemma replace_keeps_mark old new mark s :
  old <> "" -> mark <> "" -> apart mark old = true ->
  contains mark s = true ->
  contains mark (replace_from old new 0 s) = true.
Proof.
  intros No Nm A C. destruct (contains_split mark s C) as (u & v & ->).
  destruct mark as [|m mark]; [congruence|].
  assert (Am : char_in m old = false).
  { cbn [apart] in A. apply andb_prop in A. destruct A as [A _].
    now apply negb_true_iff in A. }
  cbn [append].
  rewrite (replace_from_app old new (String m (mark ++ v))
             (barrier_char old m _ Am) u 0) by lia.
  change (String m (mark ++ v)) with (String m mark ++ v)%string.
  rewrite (replace_from_mark old new (String m mark) v No A).
  apply contains_app.
Qed.

Lemma replace_ends_with_new c t new a :
  char_in c t = false ->
  replace_from (String c t) new 0 (a ++ String c t)%string
  = (replace_from (String c t) new 0 a ++ new)%string.
Proof.
  intros N.
  pose proof (replace_from_app (String c t) new (String c t ++ "")
                (barrier_old c t "" N) a 0) as H.
  rewrite string_app_nil_r in H. rewrite H by lia.
  pose proof (replace_from_old c t new "") as R.
  rewrite string_app_nil_r in R. rewrite R. cbn [replace_from].
  now rewrite string_app_nil_r.
Qed.

Lemma endswith_app_more a b suffix :
  endswith b suffix = true -> endswith (a ++ b)%string suffix = true.
Proof.
  intros H. destruct (endswith_split b suffix H) as (x & ->).
  rewrite <- string_app_assoc. apply endswith_app.
Qed.

(** X23.  The file names of [run_model_predictions]: for an input file
    that is predicted, one whose name ends with [".conllu"], the name
    of the output file ends with ["_predictions.tsv"], so with the
    [".tsv"] by which [main] of [evaluation.py] chooses the files to
    score, and it still holds every one of the marks ["MFT"], ["INV"]
    and ["DIR"] that the input name holds. *)
Theorem output_file_is_scored (filename : string) :
  predicted_file filename = true ->
  endswith (output_file_name filename) "_predictions.tsv" = true
  /\ endswith (output_file_name filename) ".tsv" = true
  /\ forall mark, In mark type_marks ->
       contains mark filename = true ->
       contains mark (output_file_name filename) = true.
Proof.
  unfold predicted_file, output_file_name, str_replace. intros H.
  destruct (endswith_split _ _ H) as (a & ->).
  rewrite (replace_ends_with_new "." "conllu" "_predictions.tsv" a eq_refl).
  split; [apply endswith_app|]. split.
  - apply endswith_app_more. reflexivity.
  - intros mark M C.
    rewrite <- (replace_ends_with_new "." "conllu" "_predictions.tsv" a eq_refl).
    apply replace_keeps_mark; auto; try discriminate;
      cbn in M; intuition (subst; try discriminate; reflexivity).
Qed.

Lemma output_file_is_scored_witness :
  endswith (output_file_name "negation_MFT_M1.conllu") "_predictions.tsv" = true
  /\ endswith (output_file_name "negation_MFT_M1.conllu") ".tsv" = true
  /\ forall mark, In mark type_marks ->
       contains mark "negation_MFT_M1.conllu" = true ->
       contains mark (output_file_name "negation_MFT_M1.conllu") = true.
Proof.
  apply (output_file_is_scored "negation_MFT_M1.conllu"
           ltac:(vm_compute; reflexivity)).
Defined.

Lemma replace_nothing old new : forall s,
  contains old s = false -> replace_from old new 0 s = s.
Proof.
  induction s as [|c s IH]; intros H; [reflexivity|].
  cbn [contains] in H. cbn [replace_from].
  destruct (String.prefix old (String c s)); [discriminate|].
  f_equal. now apply IH.
Qed.

(** X24.  A token that carries the mark ["[PRED] "] in front, and
    nowhere else, is written without it, in a row of its own. *)
Theorem marked_token_written_without_mark
  (sentence_id token_id : Z) (tok gold_label : string)
  (system_label : option string) :
  contains "[PRED] " tok = false ->
  write_rows sentence_id token_id
    [(("[PRED] " ++ tok)%string, (system_label, gold_label))]
  = [format_row sentence_id (token_id + 1) tok gold_label
       (str_of_label system_label)].
Proof.
  intros H.
  assert (A : String.eqb ("[PRED] " ++ tok)%string "[SEP]" = false)
    by reflexivity.
  assert (B : contains "[PRED]" ("[PRED] " ++ tok)%string = true)
    by reflexivity.
  cbn [write_rows]. rewrite A, B.
  unfold str_replace.
  change ("[PRED] " ++ tok)%string with (String "[" "PRED] " ++ tok)%string.
  rewrite (replace_from_old "[" "PRED] " "" tok).
  cbn [append]. rewrite (replace_nothing _ _ _ H). reflexivity.
Qed.

Lemma marked_token_written_without_mark_witness :
  write_rows 3 0 [("[PRED] ran", (Some "_", "_"))]
  = [format_row 3 (0 + 1) "ran" "_" (str_of_label (Some "_"))].
Proof.
  apply (marked_token_written_without_mark 3 0 "ran" "_" (Some "_")
           ltac:(vm_compute; reflexivity)).
Defined.

(* ================================================================== *)
(** ** The verdict of [evaluate_dir] and the rows of the file *)

Import PairRows Ids Batches.

Lemma retained_map {T} (keep : row -> T) (k : Z) (line : string) :
  retained keep k line = map keep (retained (fun r => r) k line).
Proof.
  unfold retained. destruct (is_blank line); [reflexivity|].
  destruct (parse_row line) as [r|e]; [|reflexivity].
  destruct (int_of_str (sentence_id r)) as [z|e]; [|reflexivity].
  destruct (Z.eqb z k && negb (String.eqb (gold_label r) "_")); reflexivity.
Qed.

Lemma retained_of_map {T} (keep : row -> T) (lines : list string) (k : Z) :
  retained_of keep lines k = map keep (retained_rows lines k).
Proof.
  unfold retained_rows, retained_of.
  induction lines as [|line lines IH]; cbn [flat_map map]; auto.
  now rewrite map_app, IH, <- retained_map.
Qed.

(** In the map of a sentence the last row with a token text wins. *)
Lemma dict_of_last_row (rows : list row) (tok : string) :
  dict_get String.eqb
    (dict_of String.eqb
       (map (fun r => (token r, (gold_label r, system_label r))) rows)) tok
  = option_map (fun r => (gold_label r, system_label r)) (last_row rows tok).
Proof.
  unfold last_row. induction rows as [|x rows IH] using rev_ind.
  - reflexivity.
  - rewrite map_app, rev_unit. cbn [map find].
    unfold dict_of. rewrite fold_left_app. cbn [fold_left fst snd].
    fold (dict_of String.eqb
            (map (fun r => (token r, (gold_label r, system_label r))) rows)).
    destruct (String.eqb (token x) tok) eqn:E.
    + apply String.eqb_eq in E. subst tok.
      now rewrite (dict_get_set_same String.eqb Seqb_eq).
    + rewrite (dict_get_set_other String.eqb Seqb_eq).
      * exact IH.
      * intros ->. now rewrite String.eqb_refl in E.
Qed.

Lemma last_row_token rows tok r : last_row rows tok = Some r -> token r = tok.
Proof.
  unfold last_row. intros H. apply find_some in H. destruct H as [_ H].
  now apply String.eqb_eq.
Qed.

Lemma last_row_In rows tok r : last_row rows tok = Some r -> In r rows.
Proof.
  unfold last_row. intros H. apply find_some in H. destruct H as [H _].
  now apply in_rev.
Qed.

Lemma dir_pair_rows (lines : list string) (data : sentences dir_token) a b :
  read_sentences dir_keep lines = Ok data ->
  pair_fails dir_pair_failed data (a, b) = true <-> unchanged_token lines a b.
Proof.
  intros R. destruct (read_groups dir_keep lines data R) as (G & _ & _).
  unfold pair_fails. cbn [fst snd]. rewrite !G, !retained_of_map.
  rewrite dir_pair_failed_true. unfold dir_keep, unchanged_token.
  split.
  - intros (tok & gA & gB & s & HA & HB).
    rewrite dict_of_last_row in HA, HB.
    destruct (last_row (retained_rows lines a) tok) as [ra|] eqn:LA;
      [|discriminate].
    destruct (last_row (retained_rows lines b) tok) as [rb|] eqn:LB;
      [|discriminate].
    cbn [option_map] in HA, HB. exists tok, ra, rb.
    repeat split; congruence.
  - intros (tok & ra & rb & LA & LB & S).
    exists tok, (gold_label ra), (gold_label rb), (system_label ra).
    rewrite !dict_of_last_row, LA, LB. cbn [option_map].
    split; congruence.
Qed.

Lemma dir_pair_no_common (lines : list string) (data : sentences dir_token)
  a b :
  read_sentences dir_keep lines = Ok data ->
  (forall tok, In tok (map token (retained_rows lines a)) ->
               ~ In tok (map token (retained_rows lines b))) ->
  pair_fails dir_pair_failed data (a, b) = false.
Proof.
  intros R N. destruct (pair_fails dir_pair_failed data (a, b)) eqn:E; auto.
  apply (dir_pair_rows lines data a b R) in E.
  destruct E as (tok & ra & rb & LA & LB & _). exfalso. apply (N tok).
  - rewrite <- (last_row_token _ _ _ LA). apply in_map.
    eapply last_row_In; eauto.
  - rewrite <- (last_row_token _ _ _ LB). apply in_map.
    eapply last_row_In; eauto.
Qed.

(** C6.  For a DIR file with an even number of retained sentences, the
    scorer returns the names of the failing pairs in pairing order with
    the rate of their count.  The sentences that are paired are the ids
    with a retained row, and a pair (a, b) fails exactly when some token
    text has, in the last retained row that carries it in sentence a
    and in the last one that carries it in sentence b, the same system
    label: the two maps of the source, token text to gold and system
    label, the last write winning.  A pair whose retained rows have no
    token text in common passes. *)
Theorem dir_pair_verdict (lines : list string) (data : sentences dir_token) :
  read_sentences dir_keep lines = Ok data ->
  Nat.even (List.length (sentence_ids_of data)) = true ->
  evaluate_dir lines
  = lift (scored (List.length (failing_pairs dir_pair_failed data))
            (List.length (pairs_of (sentence_ids_of data)))
            (pair_names (failing_pairs dir_pair_failed data)))
  /\ (forall k, In k (sentence_ids_of data) <-> retained_rows lines k <> [])
  /\ (forall a b,
        In (a, b) (failing_pairs dir_pair_failed data) <->
        In (a, b) (pairs_of (sentence_ids_of data))
        /\ unchanged_token lines a b)
  /\ (forall a b,
        (forall tok, In tok (map token (retained_rows lines a)) ->
                     ~ In tok (map token (retained_rows lines b))) ->
        ~ In (a, b) (failing_pairs dir_pair_failed data))
  /\ (forall A B,
        dir_pair_failed A B = true <->
        exists tok goldA goldB system,
          dict_get String.eqb (dict_of String.eqb A) tok
          = Some (goldA, system)
          /\ dict_get String.eqb (dict_of String.eqb B) tok
             = Some (goldB, system))
  /\ (forall A B,
        (forall tok, In tok (map fst A) -> ~ In tok (map fst B)) ->
        dir_pair_failed A B = false).
Proof.
  intros R E. split; [|split; [|split; [|split; [|split]]]].
  - unfold evaluate_dir. rewrite R. unfold lift at 1. cbn [bind io_monad].
    rewrite (score_pairs_even dir_pair_failed data E).
    unfold lift. destruct (scored _ _ _); reflexivity.
  - intros k. destruct (ids_strict dir_keep lines data R) as (_ & I).
    rewrite I, retained_of_map. split.
    + intros H C. apply H. now rewrite C.
    + intros H C. apply H. now destruct (retained_rows lines k).
  - intros a b. unfold failing_pairs. rewrite filter_In.
    now rewrite (dir_pair_rows lines data a b R).
  - intros a b N H. unfold failing_pairs in H. apply filter_In in H.
    destruct H as [_ H].
    rewrite (dir_pair_no_common lines data a b R N) in H. discriminate.
  - apply dir_pair_failed_true.
  - apply dir_no_common_token.
Qed.

Lemma dir_pair_verdict_witness :
  evaluate_dir dir_four_pairs = lift (scored 1 4 ["0-1"])
  /\ (In (0, 1) (failing_pairs dir_pair_failed dir_four_pairs_data) <->
      In (0, 1) (pairs_of (sentence_ids_of dir_four_pairs_data))
      /\ unchanged_token dir_four_pairs 0 1).
Proof.
  destruct (dir_pair_verdict dir_four_pairs dir_four_pairs_data)
    as (H & _ & P & _).
  - vm_compute; reflexivity.
  - vm_compute; reflexivity.
  - split; [exact H | apply P].
Defined.

(* ================================================================== *)
(** ** Sentence ids *)

Lemma int_of_str_rejects :
  int_of_str separator_id = Raise ValueError
  /\ strip separator_id = "7"
  /\ int_of_str (nines 4301) = Raise ValueError
  /\ (exists z, int_of_str (nines 4300) = Ok z)
  /\ int_of_str " 1_0 " = Ok 10
  /\ int_of_str "s-1" = Raise ValueError.
Proof.
  repeat split; try (vm_compute; reflexivity).
  destruct (int_of_str (nines 4300)) as [z|e] eqn:E; [eauto|].
  vm_compute in E. discriminate E.
Qed.

Lemma eqb_injective (f : string -> string) a b :
  (forall x y, f x = f y -> x = y) ->
  String.eqb (f a) (f b) = String.eqb a b.
Proof.
  intros I. destruct (String.eqb_spec a b) as [->|N].
  - apply String.eqb_refl.
  - apply String.eqb_neq. intros H. apply N. now apply I.
Qed.

Lemma mft_record_failure_renamed f st cur :
  mft_record_failure (renamed_state f st) (f cur)
  = renamed_state f (mft_record_failure st cur).
Proof.
  destruct st as [c flag t fl ids].
  unfold mft_record_failure, renamed_state. cbn.
  destruct flag; cbn; [reflexivity|]. now rewrite map_app.
Qed.

(** [evaluate_mft] looks at an id only to compare it with another. *)
Lemma mft_step_renamed f st line line' :
  (forall x y, f x = f y -> x = y) ->
  renamed f line line' ->
  exists st1,
    mft_step st line = Ok st1
    /\ mft_step (renamed_state f st) line' = Ok (renamed_state f st1).
Proof.
  intros I H. unfold renamed in H. unfold mft_step.
  destruct st as [cur flag t fl ids].
  destruct (is_blank line) eqn:B.
  - rewrite H. cbn. destruct cur as [c|]; cbn.
    + eexists. split; [reflexivity|].
      unfold mft_record_failure, renamed_state. cbn.
      destruct flag; cbn; [reflexivity|]. now rewrite map_app.
    + eexists. split; reflexivity.
  - destruct H as (B' & r & P & P'). rewrite B', P, P'.
    cbn [bind result_monad renamed_state current_sentence_id option_map
         sentence_labels_match total_sentences failed_sentences
         failed_sentence_ids with_id sentence_id gold_label system_label].
    destruct cur as [c|]; cbn [option_map].
    + rewrite (eqb_injective f (sentence_id r) c I).
      destruct (String.eqb (sentence_id r) c).
      * destruct (negb (String.eqb (gold_label r) "_")
                  && negb (String.eqb (gold_label r) (system_label r)));
          eexists; split; reflexivity.
      * eexists. split; [reflexivity|].
        change (MftState (Some (f c)) flag t fl (map f ids))
          with (renamed_state f (MftState (Some c) flag t fl ids)).
        rewrite mft_record_failure_renamed. reflexivity.
    + eexists. split; reflexivity.
Qed.

Lemma mft_loop_renamed f lines : forall lines' st,
  (forall x y, f x = f y -> x = y) ->
  Forall2 (renamed f) lines lines' ->
  exists st1,
    for_each mft_step lines st = Ok st1
    /\ for_each mft_step lines' (renamed_state f st)
       = Ok (renamed_state f st1).
Proof.
  induction lines as [|l lines IH]; intros lines' st I F;
    inversion F as [|? l' ? lines1 Hl Hrest]; subst; cbn [for_each].
  - eexists. split; reflexivity.
  - destruct (mft_step_renamed f st l l' I Hl) as (st1 & S & S').
    rewrite S, S'. cbn [bind result_monad]. now apply IH.
Qed.

Lemma evaluate_mft_renamed f lines lines' :
  (forall x y, f x = f y -> x = y) ->
  Forall2 (renamed f) lines lines' ->
  evaluate_mft lines' = renamed_result f (evaluate_mft lines).
Proof.
  intros I F. unfold evaluate_mft, mft_scan.
  destruct (mft_loop_renamed f lines lines' mft_init I F) as (st & S & S').
  change (renamed_state f mft_init) with mft_init in S'.
  rewrite S, S'. cbn [bind result_monad renamed_state total_sentences
                       failed_sentences failed_sentence_ids].
  destruct (failure_rate (failed_sentences st) (total_sentences st));
    reflexivity.
Qed.

Lemma tagged_injective x y : tagged x = tagged y -> x = y.
Proof. unfold tagged. cbn. intros H. now inversion H. Qed.

Lemma tagged_renamed :
  Forall2 (renamed tagged) mft_two_sentences mft_tagged_sentences.
Proof.
  unfold mft_two_sentences, mft_tagged_sentences.
  repeat (apply Forall2_cons;
          [ vm_compute;
            first [ reflexivity
                  | split; [reflexivity|]; eexists; split; reflexivity ] | ]).
  apply Forall2_nil.
Qed.

(** C10.  The pair scorers call [int] on the sentence id of every row
    they read, so a file with a row whose id [int] rejects makes
    [evaluate_inv] and [evaluate_dir] raise [ValueError] and return
    nothing.  [evaluate_mft] never parses an id: it goes through every
    file whose rows have their five fields, and it only compares ids
    with each other, so giving the sentences other ids, numbers or not,
    by a renaming that keeps different ids different, leaves the rate as
    it is and renames the failed ids. *)
Theorem sentence_id_parsing (lines : list string) :
  (forall line,
     In line lines -> non_numeric_id line ->
     evaluate_inv lines = ([], Raise ValueError)
     /\ evaluate_dir lines = ([], Raise ValueError))
  /\ ((forall line, In line lines -> is_blank line = false ->
                    exists r, parse_row line = Ok r) ->
      exists st,
        mft_scan lines = Ok st
        /\ evaluate_mft lines
           = (rate <- failure_rate (failed_sentences st) (total_sentences st) ;;
              ret (rate, failed_sentence_ids st)))
  /\ (forall (f : string -> string) lines',
        (forall x y, f x = f y -> x = y) ->
        Forall2 (renamed f) lines lines' ->
        evaluate_mft lines' = renamed_result f (evaluate_mft lines)).
Proof.
  split; [|split].
  - intros line Hin (r & B & P & I).
    assert (Hbad : bad_sentence_id line).
    { split; auto. intros r' P'. congruence. }
    unfold evaluate_inv, evaluate_dir.
    rewrite (read_sentences_bad inv_keep lines line Hin Hbad).
    rewrite (read_sentences_bad dir_keep lines line Hin Hbad).
    split; reflexivity.
  - intros H. destruct (mft_scan_total lines H) as [st S].
    exists st. split; auto. unfold evaluate_mft. rewrite S. reflexivity.
  - intros f lines' I F. now apply evaluate_mft_renamed.
Qed.

Lemma sentence_id_parsing_witness :
  (evaluate_inv mft_tagged_sentences = ([], Raise ValueError)
   /\ evaluate_dir mft_tagged_sentences = ([], Raise ValueError))
  /\ (evaluate_inv separator_id_file = ([], Raise ValueError)
      /\ evaluate_dir separator_id_file = ([], Raise ValueError))
  /\ evaluate_mft mft_two_sentences = Ok (50, ["2"])
  /\ evaluate_mft mft_tagged_sentences = Ok (50, ["s-2"]).
Proof.
  destruct (sentence_id_parsing mft_tagged_sentences) as (P & _ & _).
  destruct (sentence_id_parsing separator_id_file) as (Q & _ & _).
  destruct (sentence_id_parsing mft_two_sentences) as (_ & M & N).
  split; [|split; [|split]].
  - apply (P (tsv "s-2" "1" "He" "ARG1" "ARG0")).
    + cbn. tauto.
    + exists (Row "s-2" "1" "He" "ARG1" "ARG0").
      repeat split; vm_compute; reflexivity.
  - apply (Q (tsv separator_id "1" "She" "ARG0" "ARG1")).
    + left; reflexivity.
    + exists (Row separator_id "1" "She" "ARG0" "ARG1").
      repeat split; vm_compute; reflexivity.
  - destruct M as (st & S & E).
    + intros line Hl B. cbn in Hl.
      repeat (destruct Hl as [<-|Hl]); try contradiction;
        try (vm_compute in B; discriminate B);
        eexists; vm_compute; reflexivity.
    + vm_compute; reflexivity.
  - rewrite (N tagged mft_tagged_sentences tagged_injective tagged_renamed).
    vm_compute; reflexivity.
Defined.

(* ================================================================== *)
(** ** [evaluate_file] and [main] *)

Lemma evaluate_file_unknown_raises fs file_path :
  contains "MFT" file_path = false -> contains "INV" file_path = false ->
  contains "DIR" file_path = false ->
  evaluate_file fs file_path
  = ([P_unknown_type file_path; P_file (basename file_path)],
     Raise UnboundLocalError).
Proof.
  intros H1 H2 H3. unfold evaluate_file. rewrite H1, H2, H3. reflexivity.
Qed.

(** C3.  A file whose name has none of "MFT", "INV" and "DIR" in it is
    not skipped: after the warning and the line that names the file,
    [evaluate_file] reads [evaluation_type], which no branch has
    assigned, and raises [UnboundLocalError]; [main] ends with it, and
    the MFT file that comes next in the directory, which is evaluated
    without error on its own and in the batch without the other file,
    is never reached.  No exception is caught anywhere: the
    [ZeroDivisionError] of an MFT file without lines ends [main] in the
    same way. *)
Theorem unknown_type_raises_after_warning :
  contains "MFT" "datasets/output_M1/notes.tsv" = false
  /\ contains "INV" "datasets/output_M1/notes.tsv" = false
  /\ contains "DIR" "datasets/output_M1/notes.tsv" = false
  /\ evaluate_file batch_fs "datasets/output_M1/notes.tsv"
     = ([P_unknown_type "datasets/output_M1/notes.tsv"; P_file "notes.tsv"],
        Raise UnboundLocalError)
  /\ evaluate_file batch_fs "datasets/output_M1/z_MFT.tsv"
     = ([P_file "z_MFT.tsv"; P_type "MFT"; P_rate 50; P_failed_ids ["2"]],
        Ok tt)
  /\ main batch_fs
     = ([P_model "datasets/output_M1";
         P_unknown_type "datasets/output_M1/notes.tsv"; P_file "notes.tsv"],
        Raise UnboundLocalError)
  /\ main batch_fs_ok
     = ([P_model "datasets/output_M1"; P_file "z_MFT.tsv"; P_type "MFT";
         P_rate 50; P_failed_ids ["2"]; P_rule;
         P_model "datasets/output_M2"; P_rule;
         P_model "datasets/output_M3"; P_rule],
        Ok tt)
  /\ main batch_fs_empty_file
     = ([P_model "datasets/output_M1"], Raise ZeroDivisionError).
Proof. repeat split; vm_compute; reflexivity. Qed.

(* ================================================================== *)
(** ** A written row in the file *)

(** X17.  A row written by [bert_predictions] is one line of the file
    and is read back by the scorers of [evaluation.py] with the same
    five fields, provided the token and the gold label hold no tab and
    no line break, and the system label holds none either, is not
    empty and does not end with white space. *)
Theorem written_row_parses (sid tid : Z) (tok gold sys : string) :
  field tok -> field gold -> label_text sys ->
  file_lines (file_text [format_row sid tid tok gold sys])
  = [format_row sid tid tok gold sys]
  /\ parse_row (format_row sid tid tok gold sys)
     = Ok (Row (str_of_int sid) (str_of_int tid) tok gold sys)
  /\ is_blank (format_row sid tid tok gold sys) = false.
Proof.
  intros (Ct & Lt) (Cg & Lg) (Ts & Ls). split.
  - apply file_lines_written. constructor; [|constructor].
    now apply format_row_whole.
  - now apply format_row_parses.
Qed.

Lemma written_row_parses_witness :
  file_lines (file_text [format_row 1 2 "ran" "_" "ARG1"])
  = [format_row 1 2 "ran" "_" "ARG1"]
  /\ parse_row (format_row 1 2 "ran" "_" "ARG1")
     = Ok (Row (str_of_int 1) (str_of_int 2) "ran" "_" "ARG1")
  /\ is_blank (format_row 1 2 "ran" "_" "ARG1") = false.
Proof.
  apply (written_row_parses 1 2 "ran" "_" "ARG1"
           ltac:(split; reflexivity) ltac:(split; reflexivity)
           ltac:(repeat split; try reflexivity; discriminate)).
Defined.
